(** * DANet (dual attention network) of PaddleSeg: model and verification

    Shallow embedding of [dygraph/paddleseg/models/danet.py]: the position
    attention module [PAM], the channel attention module [CAM], the dual
    attention head [DAHead] and the network [DANet].

    Modelling conventions.
    - A tensor is its shape and its elements in row-major order.  The elements
      are the numbers of an arithmetic [Arith]: the operations of float32
      arithmetic that the module uses (constants, +, -, *, /, exp, max, the
      comparison <=) and the predicates "is finite" and "is NaN".  Statements
      about shapes, errors and effects are proved for every arithmetic.
      Statements about values are proved for every arithmetic that obeys
      [Float_laws], laws of IEEE arithmetic that do not depend on how results
      are rounded: NaN propagates, 0 * x is 0 for finite x and NaN otherwise,
      0 + x is x, and the operations are monotone.  The sign of zero is not
      represented.
    - Two arithmetics are defined.  [real_arith] is the field of real numbers:
      what the module computes when nothing is rounded and nothing overflows.
      [float_arith] has the two infinities, NaN and float32's overflow
      threshold; rounding of results within range is not represented in it.
    - A framework operator that Paddle rejects on ill-shaped operands returns
      [Raise]; Python exceptions are values of [exn].
    - Stateful code (the random generator read by dropout and by the
      initialisers, the filesystem, the calls made to the checkpoint loader)
      runs in the monad [M] over a [world].
    - [ConvBNReLU], the backbone, [resize_bilinear] and the checkpoint loader
      are not defined in this file of the repository; they are the fields of
      the interfaces [Blocks] and [Loader].  The running statistics that a
      batch-normalisation layer updates in training mode are state of those
      blocks and are not represented. *)

From Stdlib Require Import String Bool Arith PeanoNat ZArith Lia Reals Lra List.
Import ListNotations.

Set Implicit Arguments.

(* ================================================================== *)
(** * Python values: exceptions and results *)

Inductive exn : Type :=
| Exception (msg : string)          (* raise Exception(msg) *)
| IndexError                        (* list index out of range *)
| TypeError                         (* e.g. iterating over None *)
| ValueError                        (* e.g. unpacking a shape of the wrong rank *)
| InvalidArgument (op : string).    (* a framework operator rejecting its operands *)

Inductive result (A : Type) : Type :=
| Ok (a : A)
| Raise (e : exn).

Arguments Ok {A} a.
Arguments Raise {A} e.

Definition rbind {A B} (r : result A) (f : A -> result B) : result B :=
  match r with
  | Ok a => f a
  | Raise e => Raise e
  end.

Declare Scope result_scope.
Delimit Scope result_scope with result.
Notation "x <~ r ;; k" := (rbind r (fun x => k))
  (at level 61, r at next level, right associativity) : result_scope.

(** [l[i]] with Python's negative indices. *)
Definition py_index {A} (l : list A) (i : Z) : result A :=
  let n := Z.of_nat (length l) in
  let j := if (i <? 0)%Z then (n + i)%Z else i in
  if ((0 <=? j) && (j <? n))%Z then
    match nth_error l (Z.to_nat j) with
    | Some a => Ok a
    | None => Raise IndexError
    end
  else Raise IndexError.

(** [[f(a) for a in l]] for a fallible [f]: the first failure is raised. *)
Fixpoint rmap {A B} (f : A -> result B) (l : list A) : result (list B) :=
  match l with
  | [] => Ok []
  | a :: l' =>
      (b <~ f a ;; bs <~ rmap f l' ;; Ok (b :: bs))%result
  end.

(* ================================================================== *)
(** * Arithmetic on tensor elements *)

(** The numbers a float32 tensor holds and the operations on them that the
    module and the framework operators it calls perform. *)
Class Arith : Type := {
  num : Type;
  fzero : num;
  (** the number that stands for a real constant or sample *)
  of_real : R -> num;
  fadd : num -> num -> num;
  fsub : num -> num -> num;
  fmul : num -> num -> num;
  fdiv : num -> num -> num;
  fexp : num -> num;
  fmax : num -> num -> num;
  (** the comparison [<=]; it is false when an operand is NaN *)
  fle : num -> num -> Prop;
  (** neither an infinity nor NaN *)
  is_finite : num -> Prop;
  is_nan : num -> Prop
}.

(** Laws of IEEE arithmetic, whatever the rounding of results within range. *)
Class Float_laws (A : Arith) : Prop := {
  finite_not_nan : forall a : num, is_finite a -> ~ is_nan a;
  fzero_not_nan : ~ is_nan fzero;
  (** adding zero and multiplying zero by a finite number are exact;
      0 * inf and 0 * NaN are NaN *)
  fadd_zero_l : forall a : num, fadd fzero a = a;
  fmul_zero_finite : forall a : num, is_finite a -> fmul fzero a = fzero;
  fmul_zero_other : forall a : num, ~ is_finite a -> is_nan (fmul fzero a);
  (** NaN propagates *)
  fadd_nan : forall a b : num, is_nan a \/ is_nan b -> is_nan (fadd a b);
  fsub_nan : forall a b : num, is_nan a \/ is_nan b -> is_nan (fsub a b);
  fdiv_nan : forall a b : num, is_nan a \/ is_nan b -> is_nan (fdiv a b);
  fexp_nan : forall a : num, is_nan a -> is_nan (fexp a);
  (** the comparison is a preorder on the numbers that are not NaN *)
  fle_refl : forall a : num, ~ is_nan a -> fle a a;
  fle_trans : forall a b c : num, fle a b -> fle b c -> fle a c;
  (** max returns one of its operands, an upper bound of both when neither is
      NaN *)
  fmax_in : forall a b : num, fmax a b = a \/ fmax a b = b;
  fmax_ub : forall a b : num,
      ~ is_nan a -> ~ is_nan b -> fle a (fmax a b) /\ fle b (fmax a b);
  (** sums and exponentials of numbers are not negative *)
  fadd_nonneg : forall a b : num, fle fzero a -> fle fzero b -> fle fzero (fadd a b);
  fexp_nonneg : forall a : num, ~ is_nan (fexp a) -> fle fzero (fexp a);
  (** rounding is monotone: so are the operations, where they return numbers *)
  fsub_le_l : forall a b c : num,
      fle a b -> ~ is_nan (fsub a c) -> ~ is_nan (fsub b c) ->
      fle (fsub a c) (fsub b c);
  fsub_le_r : forall a b c : num,
      fle a b -> ~ is_nan (fsub c a) -> ~ is_nan (fsub c b) ->
      fle (fsub c b) (fsub c a);
  fexp_le : forall a b : num, fle a b -> fle (fexp a) (fexp b);
  fdiv_le : forall a b c : num,
      fle a b -> fle fzero c -> ~ is_nan (fdiv a c) -> ~ is_nan (fdiv b c) ->
      fle (fdiv a c) (fdiv b c)
}.

(** ** The real numbers *)

Definition real_arith : Arith :=
  {| num := R;
     fzero := 0%R;
     of_real := fun r => r;
     fadd := Rplus;
     fsub := Rminus;
     fmul := Rmult;
     fdiv := Rdiv;
     fexp := exp;
     fmax := Rmax;
     fle := Rle;
     is_finite := fun _ => True;
     is_nan := fun _ => False |}.

(** ** Real numbers with float32's overflow, infinities and NaN *)

Module F32.

Inductive t : Type :=
| Fin (r : R)     (* a number *)
| PInf            (* +inf *)
| NInf            (* -inf *)
| NaN.

(** The largest float32 number, (2 - 2^-23) * 2^127. *)
Definition max_value : R := 340282346638528859811704183484516925440%R.

(** A real result becomes an infinity when it is beyond the largest number. *)
Definition round (r : R) : t :=
  if Rlt_dec max_value r then PInf
  else if Rlt_dec r (- max_value) then NInf
  else Fin r.

(** The infinity of the sign of [r]; NaN for [r = 0]. *)
Definition inf_of_sign (r : R) : t :=
  if Rlt_dec 0 r then PInf else if Rlt_dec r 0 then NInf else NaN.

Definition neg (a : t) : t :=
  match a with
  | Fin r => Fin (- r)
  | PInf => NInf
  | NInf => PInf
  | NaN => NaN
  end.

Definition add (a b : t) : t :=
  match a, b with
  | NaN, _ | _, NaN => NaN
  | PInf, NInf | NInf, PInf => NaN
  | PInf, _ | _, PInf => PInf
  | NInf, _ | _, NInf => NInf
  | Fin x, Fin y =>
      (* 0 + y is y itself *)
      if Req_dec_T x 0 then Fin y else round (x + y)
  end.

Definition sub (a b : t) : t :=
  match a, b with
  | NaN, _ | _, NaN => NaN
  | PInf, PInf | NInf, NInf => NaN
  | PInf, _ | _, NInf => PInf
  | NInf, _ | _, PInf => NInf
  | Fin x, Fin y => round (x - y)
  end.

Definition mul (a b : t) : t :=
  match a, b with
  | NaN, _ | _, NaN => NaN
  | Fin x, Fin y => round (x * y)
  | Fin x, PInf | PInf, Fin x => inf_of_sign x
  | Fin x, NInf | NInf, Fin x => neg (inf_of_sign x)
  | PInf, PInf | NInf, NInf => PInf
  | PInf, NInf | NInf, PInf => NInf
  end.

Definition div (a b : t) : t :=
  match a, b with
  | NaN, _ | _, NaN => NaN
  | Fin x, Fin y => if Req_dec_T y 0 then inf_of_sign x else round (x / y)
  | Fin _, PInf | Fin _, NInf => Fin 0
  | PInf, Fin y => if Rlt_dec y 0 then NInf else PInf
  | NInf, Fin y => if Rlt_dec y 0 then PInf else NInf
  | PInf, PInf | PInf, NInf | NInf, PInf | NInf, NInf => NaN
  end.

Definition exp (a : t) : t :=
  match a with
  | Fin x => round (Rtrigo_def.exp x)
  | PInf => PInf
  | NInf => Fin 0
  | NaN => NaN
  end.

Definition max (a b : t) : t :=
  match a, b with
  | NaN, _ | _, NaN => NaN
  | PInf, _ | _, PInf => PInf
  | NInf, c | c, NInf => c
  | Fin x, Fin y => Fin (Rmax x y)
  end.

Definition le (a b : t) : Prop :=
  match a, b with
  | NaN, _ | _, NaN => False
  | NInf, _ | _, PInf => True
  | Fin x, Fin y => (x <= y)%R
  | PInf, _ | _, NInf => False
  end.

Definition finite (a : t) : Prop :=
  match a with Fin _ => True | _ => False end.

Definition nan (a : t) : Prop :=
  match a with NaN => True | _ => False end.

End F32.

Definition float_arith : Arith :=
  {| num := F32.t;
     fzero := F32.Fin 0;
     of_real := F32.round;
     fadd := F32.add;
     fsub := F32.sub;
     fmul := F32.mul;
     fdiv := F32.div;
     fexp := F32.exp;
     fmax := F32.max;
     fle := F32.le;
     is_finite := F32.finite;
     is_nan := F32.nan |}.

(* ================================================================== *)
(** * Tensors and the framework operators the module calls *)

Definition numel (s : list nat) : nat := fold_right Nat.mul 1 s.

Definition tabulate {X} (n : nat) (f : nat -> X) : list X := map f (seq 0 n).

Fixpoint shape_eqb (s1 s2 : list nat) : bool :=
  match s1, s2 with
  | [], [] => true
  | a :: s1', b :: s2' => (a =? b) && shape_eqb s1' s2'
  | _, _ => false
  end.

(** Sum of real numbers, for statements in real arithmetic. *)
Definition Rsum (n : nat) (f : nat -> R) : R :=
  fold_right Rplus 0%R (map f (seq 0 n)).

Section Tensors.
Context {A : Arith}.

Record tensor : Type := mkTensor { shape : list nat; data : list num }.

(** The framework's invariant on a tensor. *)
Definition wf (t : tensor) : Prop := length (data t) = numel (shape t).

(** Element at a flat (row-major) offset. *)
Definition at_ (t : tensor) (k : nat) : num := nth k (data t) fzero.

(** Element [(b, i, j)] of a rank-3 tensor of shape [[_; m; p]]. *)
Definition get3 (t : tensor) (b i j : nat) : num :=
  match shape t with
  | [_; m; p] => at_ t ((b * m + i) * p + j)
  | _ => fzero
  end.

(** Element at sample [b], channel [c] and flattened position [s] of a rank-4
    tensor (batch, channel, height, width). *)
Definition get4s (t : tensor) (b c s : nat) : num :=
  match shape t with
  | [_; ch; h; w] => at_ t ((b * ch + c) * (h * w) + s)
  | _ => fzero
  end.

(** The sum f 0 + (f 1 + ... + (f (n-1) + 0)). *)
Definition fsum (n : nat) (f : nat -> num) : num :=
  fold_right fadd fzero (map f (seq 0 n)).

End Tensors.

Module T.

Section Operators.
Context {A : Arith}.

(** ** paddle.reshape

    An entry [0] of the requested shape copies the input extent at the same
    position, one entry may be [-1] and is inferred from the element count. *)
Definition resolve (ins : list nat) (i : nat) (d : Z) : result (option nat) :=
  if (d =? -1)%Z then Ok None
  else if (d =? 0)%Z then
    match nth_error ins i with
    | Some n => Ok (Some n)
    | None => Raise (InvalidArgument "reshape")
    end
  else if (d <? 0)%Z then Raise (InvalidArgument "reshape")
  else Ok (Some (Z.to_nat d)).

Fixpoint resolve_all (ins : list nat) (i : nat) (spec : list Z)
  : result (list (option nat)) :=
  match spec with
  | [] => Ok []
  | d :: spec' =>
      (r <~ resolve ins i d ;;
       rs <~ resolve_all ins (S i) spec' ;;
       Ok (r :: rs))%result
  end.

Definition known (ds : list (option nat)) : nat :=
  fold_right (fun d acc => match d with Some n => n * acc | None => acc end) 1 ds.

Definition unknowns (ds : list (option nat)) : nat :=
  length (filter (fun d => match d with None => true | Some _ => false end) ds).

Definition fill (v : nat) (ds : list (option nat)) : list nat :=
  map (fun d => match d with Some n => n | None => v end) ds.

Definition reshape (t : tensor) (spec : list Z) : result tensor :=
  (ds <~ resolve_all (shape t) 0 spec ;;
   let total := numel (shape t) in
   let k := known ds in
   match unknowns ds with
   | 0 =>
       if k =? total then Ok (mkTensor (fill 0 ds) (data t))
       else Raise (InvalidArgument "reshape")
   | 1 =>
       if (k =? 0) || negb (total mod k =? 0) then Raise (InvalidArgument "reshape")
       else Ok (mkTensor (fill (total / k) ds) (data t))
   | _ => Raise (InvalidArgument "reshape")
   end)%result.

(** ** paddle.transpose(t, (0, 2, 1)), the only permutation the module uses *)
Definition transpose021 (t : tensor) : result tensor :=
  match shape t with
  | [b; m; p] =>
      Ok (mkTensor [b; p; m]
            (tabulate (b * p * m)
               (fun k => at_ t (((k / (p * m)) * m + k mod m) * p + (k / m) mod p))))
  | _ => Raise (InvalidArgument "transpose")
  end.

(** ** paddle.bmm: batched matrix product of two rank-3 tensors *)
Definition bmm (x y : tensor) : result tensor :=
  match shape x, shape y with
  | [b; m; k], [b'; k'; p] =>
      if (b =? b') && (k =? k') then
        Ok (mkTensor [b; m; p]
              (tabulate (b * m * p)
                 (fun o =>
                    let bi := o / (m * p) in
                    let i := (o / p) mod m in
                    let j := o mod p in
                    fsum k (fun s =>
                      fmul (at_ x ((bi * m + i) * k + s))
                           (at_ y ((bi * k + s) * p + j))))))
      else Raise (InvalidArgument "bmm")
  | _, _ => Raise (InvalidArgument "bmm")
  end.

(** Extent of the last axis. *)
Definition last_dim (s : list nat) : option nat :=
  match rev s with
  | [] => None
  | l :: _ => Some l
  end.

(** Maximum of the [l] elements that start at offset [o]. *)
Definition row_max (t : tensor) (o l : nat) : num :=
  fold_right fmax (at_ t o) (map (fun s => at_ t (o + s)) (seq 0 l)).

(** ** F.softmax(t, axis=-1)

    Every row is shifted by its maximum before the exponential is taken, as
    the framework's kernels do. *)
Definition softmax (t : tensor) : result tensor :=
  match last_dim (shape t) with
  | Some l =>
      Ok (mkTensor (shape t)
            (tabulate (numel (shape t))
               (fun k =>
                  let o := (k / l) * l in
                  let m := row_max t o l in
                  fdiv (fexp (fsub (at_ t k) m))
                       (fsum l (fun s => fexp (fsub (at_ t (o + s)) m))))))
  | None => Raise (InvalidArgument "softmax")
  end.

(** ** paddle.max(t, axis=-1, keepdim=True) *)
Definition max_keepdim (t : tensor) : result tensor :=
  match last_dim (shape t) with
  | Some l =>
      let lead := removelast (shape t) in
      Ok (mkTensor (lead ++ [1])
            (tabulate (numel lead) (fun r => row_max t (r * l) l)))
  | None => Raise (InvalidArgument "max")
  end.

(** ** Tensor.expand_as, for an operand whose last extent is 1 (the shape that
    [max_keepdim] returns) or that already has the target shape *)
Definition expand_as (t target : tensor) : result tensor :=
  if shape_eqb (shape t) (shape target) then Ok t
  else
    match last_dim (shape t), last_dim (shape target) with
    | Some 1, Some l =>
        if shape_eqb (removelast (shape t)) (removelast (shape target)) then
          Ok (mkTensor (shape target)
                (tabulate (numel (shape target)) (fun k => at_ t (k / l))))
        else Raise (InvalidArgument "expand_as")
    | _, _ => Raise (InvalidArgument "expand_as")
    end.

(** ** Elementwise binary operators

    Operands of equal shape are combined pointwise; an operand of shape [[1]]
    (a scalar parameter such as the gate) is broadcast over the other one.
    These are the two cases that occur in the module. *)
Definition elementwise (name : string) (op : num -> num -> num) (x y : tensor)
  : result tensor :=
  if shape_eqb (shape x) (shape y) then
    Ok (mkTensor (shape x)
          (tabulate (numel (shape x)) (fun k => op (at_ x k) (at_ y k))))
  else
    match shape x, shape y with
    | [1], _ :: _ =>
        Ok (mkTensor (shape y)
              (tabulate (numel (shape y)) (fun k => op (at_ x 0) (at_ y k))))
    | _ :: _, [1] =>
        Ok (mkTensor (shape x)
              (tabulate (numel (shape x)) (fun k => op (at_ x k) (at_ y 0))))
    | _, _ => Raise (InvalidArgument name)
    end.

Definition add := elementwise "elementwise_add" fadd.
Definition sub := elementwise "elementwise_sub" fsub.
Definition mul := elementwise "elementwise_mul" fmul.

End Operators.

End T.

(* ================================================================== *)
(** * The world: random generator, filesystem, calls to the loader *)

(** The framework's random generator: the outcomes it will produce (standard
    normal samples for the initialisers, keep/drop bits for dropout) and the
    position of the next one. *)
Record generator : Type :=
  mkGen { normals : nat -> R; keeps : nat -> bool; cursor : nat }.

Inductive event : Type :=
| PathExists (path : string)        (* os.path.exists(path) was evaluated *)
| LoadPretrained (path : string).   (* utils.load_pretrained_model(_, path) was called *)

Record world : Type :=
  mkWorld { gen : generator; files : string -> bool; events : list event }.

Definition M (A : Type) : Type := world -> result A * world.

Definition ret {A} (a : A) : M A := fun w => (Ok a, w).

Definition raise {A} (e : exn) : M A := fun w => (Raise e, w).

Definition bind {A B} (m : M A) (f : A -> M B) : M B :=
  fun w =>
    match m w with
    | (Ok a, w') => f a w'
    | (Raise e, w') => (Raise e, w')
    end.

Definition lift {A} (r : result A) : M A := fun w => (r, w).

Declare Scope monad_scope.
Delimit Scope monad_scope with monad.
Notation "x <- m ;; k" := (bind m (fun x => k))
  (at level 61, m at next level, right associativity) : monad_scope.

(** A computation that only reads and advances the generator. *)
Definition with_gen {A} (f : generator -> result A * generator) : M A :=
  fun w =>
    let (r, g) := f (gen w) in
    (r, mkWorld g (files w) (events w)).

Definition advance (n : nat) (g : generator) : generator :=
  mkGen (normals g) (keeps g) (cursor g + n).

Definition draw_normals (n : nat) : M (list R) :=
  with_gen (fun g => (Ok (map (normals g) (seq (cursor g) n)), advance n g)).

(** The next [n] keep/drop bits of the generator. *)
Definition dropout_mask (g : generator) (n : nat) : list bool :=
  map (keeps g) (seq (cursor g) n).

Definition draw_keeps (n : nat) : M (list bool) :=
  with_gen (fun g => (Ok (dropout_mask g n), advance n g)).

Definition log (e : event) : M unit :=
  fun w => (Ok tt, mkWorld (gen w) (files w) (events w ++ [e])).

(** os.path.exists *)
Definition os_path_exists (path : string) : M bool :=
  (_ <- log (PathExists path) ;; fun w => (Ok (files w path), w))%monad.

(* ================================================================== *)
(** * Framework layers *)

Section Layers.
Context {A : Arith}.

(** Modelled from the spec: [param_init.normal_init] of paddleseg.cvlibs, which
    is not part of this file (convolution weights are drawn from a zero-mean
    normal distribution of the given scale). *)
Definition normal_init (weight : tensor) (scale : R) : M tensor :=
  (zs <- draw_normals (numel (shape weight)) ;;
   ret (mkTensor (shape weight)
          (map (fun z => fmul (of_real scale) (of_real z)) zs)))%monad.

(** Channel [k] of the flattened (sample, channel) axis is kept and scaled by
    1/(1-p) when bit [k] of the mask is set, and zeroed otherwise. *)
Definition drop_channels (p : R) (mask : list bool) (x : tensor) (h w : nat)
  : tensor :=
  mkTensor (shape x)
    (tabulate (numel (shape x))
       (fun k =>
          if nth (k / (h * w)) mask true
          then fdiv (at_ x k) (of_real (1 - p)) else fzero)).

(** nn.Dropout2d(p): in training mode each channel of each sample is kept or
    zeroed as a whole by a fresh draw, kept channels are scaled by 1/(1-p); in
    evaluation mode it is the identity. *)
Definition Dropout2d (p : R) (training : bool) (x : tensor) : M tensor :=
  match shape x with
  | [n; c; h; w] =>
      if training then
        (mask <- draw_keeps (n * c) ;; ret (drop_channels p mask x h w))%monad
      else ret x
  | _ => raise (InvalidArgument "dropout2d")
  end.

End Layers.

Module Conv2d.

Section Conv.
Context {A : Arith}.

Record t : Type := mk { weight : tensor; bias : tensor }.

(** nn.Conv2d(in_channels, out_channels, kernel_size): the weight is drawn by
    the default initialiser, the bias starts at zero. *)
Definition new (in_channels out_channels kernel_size : nat) : M t :=
  (let fan := (kernel_size * kernel_size * in_channels)%nat in
   zs <- draw_normals (out_channels * in_channels * kernel_size * kernel_size) ;;
   ret (mk (mkTensor [out_channels; in_channels; kernel_size; kernel_size]
              (map (fun z => fmul (of_real (sqrt (2 / INR fan))) (of_real z)) zs))
           (mkTensor [out_channels] (repeat fzero out_channels))))%monad.

(** Forward pass of a convolution of kernel size 1 and stride 1 (every
    convolution this module builds): a linear map over the channel axis at each
    position.  The operator rejects an input whose channel count is not the
    weight's and a weight without output channels. *)
Definition forward (self : t) (x : tensor) : result tensor :=
  match shape (weight self), shape (bias self), shape x with
  | [o; ci; 1; 1], [o'], [n; c; h; w] =>
      if (ci =? c) && (o' =? o) && negb (o =? 0) then
        Ok (mkTensor [n; o; h; w]
              (tabulate (n * o * h * w)
                 (fun k =>
                    let hw := h * w in
                    let ni := k / (o * hw) in
                    let oi := (k / hw) mod o in
                    let s := k mod hw in
                    fadd (at_ (bias self) oi)
                         (fsum c (fun cj =>
                            fmul (at_ (weight self) (oi * c + cj))
                                 (at_ x ((ni * c + cj) * hw + s)))))))
      else Raise (InvalidArgument "conv2d")
  | _, _, _ => Raise (InvalidArgument "conv2d")
  end.

End Conv.

End Conv2d.

(** nn.Sequential(nn.Dropout2d(0.1), nn.Conv2d(inter_channels, num_classes, 1)) *)
Module Head.

Section Classifier.
Context {A : Arith}.

Record t : Type := mk { conv : Conv2d.t }.

Definition new (inter_channels num_classes : nat) : M t :=
  (c <- Conv2d.new inter_channels num_classes 1 ;; ret (mk c))%monad.

Definition forward (self : t) (training : bool) (x : tensor) : M tensor :=
  (y <- Dropout2d (1 / 10) training x ;; lift (Conv2d.forward (conv self) y))%monad.

(** The effect of [DAHead.init_weight] on this sub-module: its convolution is
    the only layer of a type the loop matches. *)
Definition init_weight (self : t) : M t :=
  (w <- normal_init (Conv2d.weight (conv self)) (1 / 1000) ;;
   ret (mk (Conv2d.mk w (Conv2d.bias (conv self)))))%monad.

End Classifier.

End Head.

(* ================================================================== *)
(** * class PAM *)

Module PAM.

Section Position.
Context {A : Arith}.

Record t : Type :=
  mk { query_conv : Conv2d.t; key_conv : Conv2d.t; value_conv : Conv2d.t;
       gamma : tensor }.

(** PAM.__init__ *)
Definition new (in_channels : nat) : M t :=
  (let mid_channels := in_channels / 8 in
   q <- Conv2d.new in_channels mid_channels 1 ;;
   k <- Conv2d.new in_channels mid_channels 1 ;;
   v <- Conv2d.new in_channels in_channels 1 ;;
   ret (mk q k v (mkTensor [1] [fzero])))%monad.

(** Source lines 43-55: the spatial similarity matrix before the softmax. *)
Definition energy (self : t) (x : tensor) : result tensor :=
  match shape x with
  | [n; _; h; w] =>
      (query <~ Conv2d.forward (query_conv self) x ;;
       query <~ T.reshape query [Z.of_nat n; (-1)%Z; Z.of_nat (h * w)] ;;
       query <~ T.transpose021 query ;;
       key <~ Conv2d.forward (key_conv self) x ;;
       key <~ T.reshape key [Z.of_nat n; (-1)%Z; Z.of_nat (h * w)] ;;
       T.bmm query key)%result
  | _ => Raise ValueError
  end.

(** Source lines 43-56: the spatial similarity matrix after the softmax. *)
Definition attention (self : t) (x : tensor) : result tensor :=
  (sim <~ energy self x ;; T.softmax sim)%result.

(** Source lines 43-64: the attended features [feat]. *)
Definition attended (self : t) (x : tensor) : result tensor :=
  match shape x with
  | [n; _; h; w] =>
      (sim <~ attention self x ;;
       value <~ Conv2d.forward (value_conv self) x ;;
       value <~ T.reshape value [Z.of_nat n; (-1)%Z; Z.of_nat (h * w)] ;;
       sim <~ T.transpose021 sim ;;
       feat <~ T.bmm value sim ;;
       T.reshape feat [Z.of_nat n; (-1)%Z; Z.of_nat h; Z.of_nat w])%result
  | _ => Raise ValueError
  end.

(** PAM.forward *)
Definition forward (self : t) (x : tensor) : result tensor :=
  (feat <~ attended self x ;;
   scaled <~ T.mul (gamma self) feat ;;
   T.add scaled x)%result.

(** The effect of [DAHead.init_weight] on this sub-module. *)
Definition init_weight (self : t) : M t :=
  (q <- normal_init (Conv2d.weight (query_conv self)) (1 / 1000) ;;
   k <- normal_init (Conv2d.weight (key_conv self)) (1 / 1000) ;;
   v <- normal_init (Conv2d.weight (value_conv self)) (1 / 1000) ;;
   ret (mk (Conv2d.mk q (Conv2d.bias (query_conv self)))
           (Conv2d.mk k (Conv2d.bias (key_conv self)))
           (Conv2d.mk v (Conv2d.bias (value_conv self)))
           (gamma self)))%monad.

End Position.

End PAM.

(* ================================================================== *)
(** * class CAM *)

Module CAM.

Section Channel.
Context {A : Arith}.

Record t : Type := mk { gamma : tensor }.

(** CAM.__init__ *)
Definition new : t := mk (mkTensor [1] [fzero]).

(** Source lines 82-91: the raw channel similarity matrix, of shape (n, c, c). *)
Definition similarity (x : tensor) : result tensor :=
  match shape x with
  | [n; c; h; w] =>
      (query <~ T.reshape x [Z.of_nat n; Z.of_nat c; Z.of_nat (h * w)] ;;
       key <~ T.reshape x [Z.of_nat n; Z.of_nat c; Z.of_nat (h * w)] ;;
       key <~ T.transpose021 key ;;
       T.bmm query key)%result
  | _ => Raise ValueError
  end.

(** Source line 93: every entry is replaced by its row's maximum minus it. *)
Definition stabilize (sim : tensor) : result tensor :=
  (m <~ T.max_keepdim sim ;;
   m <~ T.expand_as m sim ;;
   T.sub m sim)%result.

(** Source lines 82-94: the channel attention weights. *)
Definition attention (x : tensor) : result tensor :=
  (sim <~ similarity x ;;
   sim <~ stabilize sim ;;
   T.softmax sim)%result.

(** Source lines 82-99: the attended features [feat]. *)
Definition attended (x : tensor) : result tensor :=
  match shape x with
  | [n; c; h; w] =>
      (sim <~ attention x ;;
       value <~ T.reshape x [Z.of_nat n; Z.of_nat c; Z.of_nat (h * w)] ;;
       feat <~ T.bmm sim value ;;
       T.reshape feat [Z.of_nat n; Z.of_nat c; Z.of_nat h; Z.of_nat w])%result
  | _ => Raise ValueError
  end.

(** CAM.forward *)
Definition forward (self : t) (x : tensor) : result tensor :=
  (feat <~ attended x ;;
   scaled <~ T.mul (gamma self) feat ;;
   T.add scaled x)%result.

End Channel.

End CAM.

(* ================================================================== *)
(** * Collaborators defined outside this file *)

(** [ConvBNReLU] (paddleseg.models.common.layer_libs), the backbone network
    and [F.resize_bilinear].  The forward pass of a block is given as a
    function of its parameters, the mode and the input: what it returns.  The
    running statistics that its batch normalisation updates in training mode
    are not represented, and nothing below speaks about them. *)
Class Blocks {A : Arith} : Type := {
  ConvBNReLU : Type;
  (** ConvBNReLU(in_channels, out_channels, kernel_size) *)
  ConvBNReLU_new : nat -> nat -> nat -> generator -> ConvBNReLU * generator;
  ConvBNReLU_forward : ConvBNReLU -> bool -> tensor -> result tensor;
  (** what the loop of [DAHead.init_weight] does to the layers of one block *)
  ConvBNReLU_init_weight : ConvBNReLU -> generator -> ConvBNReLU * generator;
  (** F.resize_bilinear(input, out_shape) *)
  resize_bilinear : tensor -> list nat -> result tensor;
  backbone : Type;
  (** backbone(x) *)
  backbone_forward :
    backbone -> bool -> tensor -> generator -> result (list tensor) * generator;
  (** backbone.feat_channels *)
  feat_channels : backbone -> list nat
}.

Section BlockConstruction.
Context {A : Arith} {B : Blocks}.

Definition cbr_new (cin cout k : nat) : M ConvBNReLU :=
  with_gen (fun g => let (b, g') := ConvBNReLU_new cin cout k g in (Ok b, g')).

Definition cbr_init_weight (b : ConvBNReLU) : M ConvBNReLU :=
  with_gen (fun g => let (b', g') := ConvBNReLU_init_weight b g in (Ok b', g')).

End BlockConstruction.

(* ================================================================== *)
(** * class DAHead *)

Module DAHead.

Section WithBlocks.
Context {A : Arith} {B : Blocks}.

Record t : Type :=
  mk { channel_conv : ConvBNReLU; position_conv : ConvBNReLU;
       pam : PAM.t; cam : CAM.t;
       conv1 : ConvBNReLU; conv2 : ConvBNReLU;
       aux_head_pam : Head.t; aux_head_cam : Head.t; cls_head : Head.t }.

(** DAHead.init_weight: the sub-layers are visited in registration order. *)
Definition init_weight (self : t) : M t :=
  (cc <- cbr_init_weight (channel_conv self) ;;
   pc <- cbr_init_weight (position_conv self) ;;
   p <- PAM.init_weight (pam self) ;;
   c1 <- cbr_init_weight (conv1 self) ;;
   c2 <- cbr_init_weight (conv2 self) ;;
   ap <- Head.init_weight (aux_head_pam self) ;;
   ac <- Head.init_weight (aux_head_cam self) ;;
   cl <- Head.init_weight (cls_head self) ;;
   ret (mk cc pc p (cam self) c1 c2 ap ac cl))%monad.

(** DAHead.__init__ *)
Definition new (num_classes : nat) (in_channels : option (list nat)) : M t :=
  match in_channels with
  | None => raise TypeError
  | Some chans =>
      (in_channels <- lift (py_index chans (-1)) ;;
       let inter_channels := in_channels / 4 in
       cc <- cbr_new in_channels inter_channels 3 ;;
       pc <- cbr_new in_channels inter_channels 3 ;;
       p <- PAM.new inter_channels ;;
       c1 <- cbr_new inter_channels inter_channels 3 ;;
       c2 <- cbr_new inter_channels inter_channels 3 ;;
       ap <- Head.new inter_channels num_classes ;;
       ac <- Head.new inter_channels num_classes ;;
       cl <- Head.new inter_channels num_classes ;;
       init_weight (mk cc pc p CAM.new c1 c2 ap ac cl))%monad
  end.

(** Source lines 139-145: the refined channel and position features. *)
Definition branches (self : t) (training : bool) (feats : tensor)
  : result (tensor * tensor) :=
  (channel_feats <~ ConvBNReLU_forward (channel_conv self) training feats ;;
   channel_feats <~ CAM.forward (cam self) channel_feats ;;
   channel_feats <~ ConvBNReLU_forward (conv1 self) training channel_feats ;;
   position_feats <~ ConvBNReLU_forward (position_conv self) training feats ;;
   position_feats <~ PAM.forward (pam self) position_feats ;;
   position_feats <~ ConvBNReLU_forward (conv2 self) training position_feats ;;
   Ok (channel_feats, position_feats))%result.

(** Source lines 147-151: the three classification heads. *)
Definition heads (self : t) (training : bool) (channel_feats position_feats : tensor)
  : M (list tensor) :=
  (feats_sum <- lift (T.add position_feats channel_feats) ;;
   cam_logit <- Head.forward (aux_head_cam self) training channel_feats ;;
   pam_logit <- Head.forward (aux_head_cam self) training position_feats ;;
   logit <- Head.forward (cls_head self) training feats_sum ;;
   ret [logit; cam_logit; pam_logit])%monad.

(** DAHead.forward *)
Definition forward (self : t) (training : bool) (feat_list : list tensor)
  : M (list tensor) :=
  (feats <- lift (py_index feat_list (-1)) ;;
   fs <- lift (branches self training feats) ;;
   heads self training (fst fs) (snd fs))%monad.

End WithBlocks.

End DAHead.

(* ================================================================== *)
(** * class DANet *)

Module DANet.

Section WithBlocks.
Context {A : Arith} {B : Blocks}.

Record t : Type :=
  mk { net_backbone : backbone;
       backbone_indices : option (list Z);
       head : DAHead.t }.

(** [utils.load_pretrained_model(model, path)], of paddleseg.utils: it loads
    the checkpoint at [path] into the model. *)
Class Loader : Type := { load_pretrained_model : t -> string -> M t }.

Context {L : Loader}.

(** DANet.init_weight *)
Definition init_weight (self : t) (pretrained : option string) : M t :=
  match pretrained with
  | Some path =>
      (found <- os_path_exists path ;;
       if found : bool then
         (_ <- log (LoadPretrained path) ;; load_pretrained_model self path)
       else
         raise (Exception ("Pretrained model is not found: " ++ path)))%monad
  | None => ret self
  end.

(** [[seq[i] for i in indices]], where [indices] may be None. *)
Definition select {X} (seq : list X) (indices : option (list Z)) : M (list X) :=
  match indices with
  | Some idx => lift (rmap (py_index seq) idx)
  | None => raise TypeError
  end.

(** DANet.__init__ up to, and without, the call of init_weight *)
Definition assemble (num_classes : nat) (bb : backbone)
           (indices : option (list Z)) : M t :=
  (in_channels <- select (feat_channels bb) indices ;;
   hd <- DAHead.new num_classes (Some in_channels) ;;
   ret (mk bb indices hd))%monad.

(** DANet.__init__ *)
Definition new (num_classes : nat) (bb : backbone) (pretrained : option string)
           (indices : option (list Z)) : M t :=
  (in_channels <- select (feat_channels bb) indices ;;
   hd <- DAHead.new num_classes (Some in_channels) ;;
   init_weight (mk bb indices hd) pretrained)%monad.

(** DANet.forward *)
Definition forward (self : t) (training : bool) (x : tensor) : M (list tensor) :=
  (feats <- with_gen (backbone_forward (net_backbone self) training x) ;;
   feats <- select feats (backbone_indices self) ;;
   preds <- DAHead.forward (head self) training feats ;;
   lift (rmap (fun pred => resize_bilinear pred (skipn 2 (shape x))) preds))%monad.

End WithBlocks.

End DANet.

(* ================================================================== *)
(** * Vocabulary of the specification *)

(** A computation that leaves the filesystem and the event log alone,
    whether it returns or raises. *)
Definition quiet {X} (m : M X) : Prop :=
  forall w, files (snd (m w)) = files w /\ events (snd (m w)) = events w.

(** A computation that returns on every world. *)
Definition succeeds {X} (m : M X) : Prop :=
  forall w, exists a w1, m w = (Ok a, w1).

(** Every value the computation returns satisfies [P]. *)
Definition yields {X} (P : X -> Prop) (m : M X) : Prop :=
  forall w a w1, m w = (Ok a, w1) -> P a.

Section Vocabulary.
Context {A : Arith}.

(** [t] has shape [s] and as many elements as [s] says. *)
Definition shaped (t : tensor) (s : list nat) : Prop := shape t = s /\ wf t.

(** A feature map of the network: a well-formed rank-4 tensor (batch, channel,
    height, width) of positive extents. *)
Definition feature_map (t : tensor) (n c h w : nat) : Prop :=
  shaped t [n; c; h; w] /\ 0 < n /\ 0 < c /\ 0 < h /\ 0 < w.

(** Every element of [t] is a finite number: no infinity, no NaN. *)
Definition all_finite (t : tensor) : Prop :=
  forall k, k < numel (shape t) -> is_finite (at_ t k).

(** [y] is the residual blend [0 * feat + x]: it has the shape of [x]; where
    [feat] is finite it holds the element of [x], elsewhere NaN. *)
Definition zero_gated (feat x y : tensor) : Prop :=
  shape y = shape x /\ wf y /\
  (forall k, k < numel (shape x) ->
     (is_finite (at_ feat k) -> at_ y k = at_ x k) /\
     (~ is_finite (at_ feat k) -> is_nan (at_ y k))) /\
  (all_finite feat -> y = x).

(** The parameters of a 1x1 convolution from [cin] to [cout] channels. *)
Definition Conv2d_shaped (c : Conv2d.t) (cin cout : nat) : Prop :=
  shape (Conv2d.weight c) = [cout; cin; 1; 1] /\ shape (Conv2d.bias c) = [cout].

(** The parameters of a PAM built for [c] input channels (their values are
    arbitrary: the module may have been trained). *)
Definition PAM_shaped (p : PAM.t) (c : nat) : Prop :=
  Conv2d_shaped (PAM.query_conv p) c (c / 8) /\
  Conv2d_shaped (PAM.key_conv p) c (c / 8) /\
  Conv2d_shaped (PAM.value_conv p) c c /\
  shape (PAM.gamma p) = [1].

Definition CAM_shaped (p : CAM.t) : Prop := shape (CAM.gamma p) = [1].

Context {B : Blocks}.

(** The contract of a ConvBNReLU block built for (cin, cout) channels with a
    kernel that preserves the resolution. *)
Definition cbr_maps (b : ConvBNReLU) (cin cout : nat) : Prop :=
  forall tr x n h w,
    feature_map x n cin h w ->
    exists y, ConvBNReLU_forward b tr x = Ok y /\ feature_map y n cout h w.

(** The contract of F.resize_bilinear on a feature map and a target size of
    positive height and width. *)
Definition resizes : Prop :=
  forall t n c h w oh ow,
    feature_map t n c h w -> 0 < oh -> 0 < ow ->
    exists y, resize_bilinear t [oh; ow] = Ok y /\ shaped y [n; c; oh; ow].

(** The sub-modules that DAHead.forward applies are the ones DAHead.__init__
    builds for [cin] input channels and [nc] classes. *)
Definition DAHead_shaped (hd : DAHead.t) (cin nc : nat) : Prop :=
  cbr_maps (DAHead.channel_conv hd) cin (cin / 4) /\
  cbr_maps (DAHead.position_conv hd) cin (cin / 4) /\
  PAM_shaped (DAHead.pam hd) (cin / 4) /\
  CAM_shaped (DAHead.cam hd) /\
  cbr_maps (DAHead.conv1 hd) (cin / 4) (cin / 4) /\
  cbr_maps (DAHead.conv2 hd) (cin / 4) (cin / 4) /\
  Conv2d_shaped (Head.conv (DAHead.aux_head_cam hd)) (cin / 4) nc /\
  Conv2d_shaped (Head.conv (DAHead.cls_head hd)) (cin / 4) nc.

(** The head [hd] with its sub-module [aux_head_pam] replaced by [ap]. *)
Definition set_aux_head_pam (hd : DAHead.t) (ap : Head.t) : DAHead.t :=
  DAHead.mk (DAHead.channel_conv hd) (DAHead.position_conv hd)
            (DAHead.pam hd) (DAHead.cam hd)
            (DAHead.conv1 hd) (DAHead.conv2 hd)
            ap (DAHead.aux_head_cam hd) (DAHead.cls_head hd).

(** The sub-modules of a head that DAHead.__init__ returns, as far as they
    are defined in this file: both gates are 0 and the three classifiers,
    [aux_head_pam] among them, have parameters of their own, shaped for
    inter_channels = in_channels // 4 and num_classes. *)
Definition fresh_head (hd : DAHead.t) (ic nc : nat) : Prop :=
  PAM_shaped (DAHead.pam hd) (ic / 4) /\
  PAM.gamma (DAHead.pam hd) = mkTensor [1] [fzero] /\
  CAM.gamma (DAHead.cam hd) = mkTensor [1] [fzero] /\
  Conv2d_shaped (Head.conv (DAHead.aux_head_pam hd)) (ic / 4) nc /\
  Conv2d_shaped (Head.conv (DAHead.aux_head_cam hd)) (ic / 4) nc /\
  Conv2d_shaped (Head.conv (DAHead.cls_head hd)) (ic / 4) nc.

(** [hd'] differs from [hd] at most in the values of convolution weights:
    the gates, the channel attention module, every bias and the shape of
    every weight of the sub-modules defined in this file are the same. *)
Definition same_up_to_conv_weights (hd hd' : DAHead.t) : Prop :=
  PAM.gamma (DAHead.pam hd') = PAM.gamma (DAHead.pam hd) /\
  DAHead.cam hd' = DAHead.cam hd /\
  (forall proj : PAM.t -> Conv2d.t,
      In proj [PAM.query_conv; PAM.key_conv; PAM.value_conv] ->
      Conv2d.bias (proj (DAHead.pam hd')) = Conv2d.bias (proj (DAHead.pam hd)) /\
      shape (Conv2d.weight (proj (DAHead.pam hd'))) =
      shape (Conv2d.weight (proj (DAHead.pam hd)))) /\
  (forall proj : DAHead.t -> Head.t,
      In proj [DAHead.aux_head_pam; DAHead.aux_head_cam; DAHead.cls_head] ->
      Conv2d.bias (Head.conv (proj hd')) = Conv2d.bias (Head.conv (proj hd)) /\
      shape (Conv2d.weight (Head.conv (proj hd'))) =
      shape (Conv2d.weight (Head.conv (proj hd)))).

End Vocabulary.

(* ================================================================== *)
(** * Sample inputs and stand-ins for the collaborators *)

(** A generator that yields zeros and keeps every channel. *)
Definition quiet_gen : generator :=
  mkGen (fun _ => 0%R) (fun _ => true) 0.

(** A world with an empty filesystem and no recorded event. *)
Definition empty_world : world := mkWorld quiet_gen (fun _ => false) [].

(** A generator whose first keep/drop bit is "keep" and whose later bits are
    "drop". *)
Definition keep_then_drop : generator :=
  mkGen (fun _ => 0%R) (fun k => k =? 0) 0.

(** A generator whose first eight keep/drop bits are "keep" and whose later
    bits are "drop". *)
Definition keep_8_then_drop : generator :=
  mkGen (fun _ => 0%R) (fun k => k <? 8) 0.

Definition missing_path : string := "/nonexistent/path.pdparams".

(** A checkpoint path and a world whose filesystem holds exactly that path. *)
Definition checkpoint_path : string := "model.pdparams".

Definition world_with_checkpoint : world :=
  mkWorld quiet_gen (fun p => String.eqb p checkpoint_path) [].

Section StandIns.
Context {A : Arith}.

Definition ones (s : list nat) : tensor :=
  mkTensor s (repeat (of_real 1) (numel s)).

(** A 1x1 convolution from [cin] to [cout] channels with zero parameters. *)
Definition conv_zero (cin cout : nat) : Conv2d.t :=
  Conv2d.mk (mkTensor [cout; cin; 1; 1] (repeat fzero (cout * cin)))
            (mkTensor [cout] (repeat fzero cout)).

(** A 1x1 convolution whose weights are all 1 and whose bias is 0. *)
Definition conv_ones (cin cout : nat) : Conv2d.t :=
  Conv2d.mk (mkTensor [cout; cin; 1; 1] (repeat (of_real 1) (cout * cin)))
            (mkTensor [cout] (repeat fzero cout)).

(** Stand-in collaborators: a block built for (cin, cout) channels maps a
    rank-4 input with cin channels to the all-ones tensor with cout channels
    at the same resolution; resizing returns the all-ones tensor of the
    requested size; a backbone is the list of feature maps it returns. *)
Definition stub_blocks : Blocks :=
  {| ConvBNReLU := nat * nat;
     ConvBNReLU_new := fun cin cout _ g => ((cin, cout), g);
     ConvBNReLU_forward := fun b _ x =>
       match shape x with
       | [n; c; h; w] =>
           if c =? fst b then Ok (ones [n; snd b; h; w])
           else Raise (InvalidArgument "conv2d")
       | _ => Raise (InvalidArgument "conv2d")
       end;
     ConvBNReLU_init_weight := fun b g => (b, g);
     resize_bilinear := fun t out =>
       match shape t, out with
       | [n; c; _; _], [oh; ow] => Ok (ones [n; c; oh; ow])
       | _, _ => Raise (InvalidArgument "resize_bilinear")
       end;
     backbone := list tensor;
     backbone_forward := fun bb _ _ g => (Ok bb, g);
     feat_channels := fun bb => map (fun t => nth 1 (shape t) 0) bb |}.

Definition stub_loader : @DANet.Loader A stub_blocks :=
  @DANet.Build_Loader A stub_blocks (fun m _ => ret m).

End StandIns.

(** ** Samples in real arithmetic *)

(** One sample, eight channels, one pixel. *)
Definition x_1811 : @tensor real_arith :=
  @mkTensor real_arith [1; 8; 1; 1] [1; 2; 3; 4; 5; 6; 7; 8]%R.

(** One sample, eight channels, two pixels. *)
Definition x_1812 : @tensor real_arith :=
  @mkTensor real_arith [1; 8; 1; 2] [1; 2; 3; 4; 5; 6; 7; 8; 9; 10; 11; 12; 13; 14; 15; 16]%R.

(** One sample, four channels, one pixel. *)
Definition x_1411 : @tensor real_arith :=
  @mkTensor real_arith [1; 4; 1; 1] [1; 2; 3; 4]%R.

(** A PAM for eight channels with all-zero projections and gate 1. *)
Definition sample_pam : @PAM.t real_arith :=
  @PAM.mk real_arith (conv_zero 8 1) (conv_zero 8 1) (conv_zero 8 8) (@mkTensor real_arith [1] [1%R]).

(** A PAM for eight channels whose projections sum the channels, gate 1. *)
Definition summing_pam : @PAM.t real_arith :=
  @PAM.mk real_arith (conv_ones 8 1) (conv_ones 8 1) (conv_ones 8 8) (@mkTensor real_arith [1] [1%R]).

(** A head over one intermediate channel and one class whose classifiers have
    weight 1 and bias 0. *)
Definition unit_conv : @Conv2d.t real_arith :=
  @Conv2d.mk real_arith (@mkTensor real_arith [1; 1; 1; 1] [1%R]) (@mkTensor real_arith [1] [0%R]).

Definition unit_head : @DAHead.t real_arith stub_blocks :=
  DAHead.mk (B := stub_blocks) (4, 1) (4, 1)
    (@PAM.mk real_arith (conv_zero 1 0) (conv_zero 1 0) (conv_zero 1 1) (@mkTensor real_arith [1] [0%R]))
    CAM.new (1, 1) (1, 1)
    (Head.mk unit_conv) (Head.mk unit_conv) (Head.mk unit_conv).

Definition one_1111 : @tensor real_arith := @mkTensor real_arith [1; 1; 1; 1] [1%R].

(** Two feature maps, of 16 and 32 channels, and a 3-channel 4x4 image. *)
Definition feat_16 : @tensor real_arith := ones [1; 16; 2; 2].

Definition feat_32 : @tensor real_arith := ones [1; 32; 1; 1].

Definition image_3 : @tensor real_arith := ones [1; 3; 4; 4].

(** A head for 32 input channels and 5 classes. *)
Definition sample_head : @DAHead.t real_arith stub_blocks :=
  DAHead.mk (B := stub_blocks) (32, 8) (32, 8)
    (@PAM.mk real_arith (conv_zero 8 1) (conv_zero 8 1) (conv_zero 8 8) (@mkTensor real_arith [1] [0%R]))
    CAM.new (8, 8) (8, 8)
    (Head.mk (conv_zero 8 5)) (Head.mk (conv_zero 8 5)) (Head.mk (conv_zero 8 5)).

Definition sample_net : @DANet.t real_arith stub_blocks :=
  DANet.mk (B := stub_blocks) [feat_16; feat_32] (Some [0%Z; 1%Z]) sample_head.

(** A head for 32 input channels and one class, gates at 0, classifiers
    summing their eight input channels. *)
Definition summing_head : @DAHead.t real_arith stub_blocks :=
  DAHead.mk (B := stub_blocks) (32, 8) (32, 8)
    (@PAM.mk real_arith (conv_zero 8 1) (conv_zero 8 1) (conv_zero 8 8) (@mkTensor real_arith [1] [0%R]))
    CAM.new (8, 8) (8, 8)
    (Head.mk (conv_ones 8 1)) (Head.mk (conv_ones 8 1)) (Head.mk (conv_ones 8 1)).

(** ** Samples in float arithmetic *)

(** One sample, one channel, one pixel holding 10^20. *)
Definition huge_1111 : @tensor float_arith :=
  @mkTensor float_arith [1; 1; 1; 1] [F32.Fin 100000000000000000000].

(** One sample, two channels holding 10^20 and 1, one pixel. *)
Definition huge_1211 : @tensor float_arith :=
  @mkTensor float_arith [1; 2; 1; 1] [F32.Fin 100000000000000000000; F32.Fin 1].

(* ================================================================== *)
(** * Proofs *)

(* ================================================================== *)
(** * Lists, sums and index arithmetic *)

Lemma length_tabulate {X} (n : nat) (f : nat -> X) : length (tabulate n f) = n.
Proof. unfold tabulate. now rewrite length_map, length_seq. Qed.

Lemma nth_tabulate {X} (n : nat) (f : nat -> X) (k : nat) (d : X) :
  k < n -> nth k (tabulate n f) d = f k.
Proof.
  intros Hk. unfold tabulate.
  rewrite (nth_indep _ d (f 0)) by now rewrite length_map, length_seq.
  rewrite (map_nth f (seq 0 n) 0 k), seq_nth; auto.
Qed.

Lemma tabulate_ext {X} (n : nat) (f g : nat -> X) :
  (forall k, k < n -> f k = g k) -> tabulate n f = tabulate n g.
Proof.
  intros E. unfold tabulate. apply map_ext_in.
  intros k Hk. apply in_seq in Hk. apply E. lia.
Qed.

Lemma tabulate_nth {X} (l : list X) (d : X) :
  tabulate (length l) (fun k => nth k l d) = l.
Proof.
  apply (nth_ext _ _ d d).
  - apply length_tabulate.
  - intros k Hk. rewrite length_tabulate in Hk.
    now rewrite nth_tabulate by assumption.
Qed.

Lemma Rsum_S (n : nat) (f : nat -> R) :
  Rsum (S n) f = (Rsum n f + f n)%R.
Proof.
  unfold Rsum. rewrite seq_S, map_app. simpl.
  induction (map f (seq 0 n)) as [|a l IH]; simpl.
  - lra.
  - rewrite IH. lra.
Qed.

Lemma Rsum_ext (n : nat) (f g : nat -> R) :
  (forall k, k < n -> f k = g k) -> Rsum n f = Rsum n g.
Proof.
  intros E. unfold Rsum. f_equal. apply map_ext_in.
  intros k Hk. apply in_seq in Hk. apply E. lia.
Qed.

Lemma Rsum_nonneg (n : nat) (f : nat -> R) :
  (forall k, k < n -> (0 <= f k)%R) -> (0 <= Rsum n f)%R.
Proof.
  induction n as [|n IH]; intros P.
  - unfold Rsum. simpl. lra.
  - rewrite Rsum_S.
    assert (0 <= Rsum n f)%R by (apply IH; intros; apply P; lia).
    assert (0 <= f n)%R by (apply P; lia). lra.
Qed.

(** In real arithmetic the sum of the elements is the sum of real numbers. *)
Lemma fsum_real (n : nat) (f : nat -> R) : @fsum real_arith n f = Rsum n f.
Proof. reflexivity. Qed.

(** Decoding of a row-major offset. *)
Lemma offset_div (r l j : nat) : j < l -> (r * l + j) / l = r.
Proof.
  intros Hj. rewrite Nat.div_add_l by lia. rewrite Nat.div_small; lia.
Qed.

Lemma offset_mod (r l j : nat) : j < l -> (r * l + j) mod l = j.
Proof.
  intros Hj. rewrite Nat.add_comm, Nat.Div0.mod_add. now apply Nat.mod_small.
Qed.

Lemma offset_lt (r l j n : nat) : r < n -> j < l -> r * l + j < n * l.
Proof. intros Hr Hj. nia. Qed.

Lemma offset3_lt (b m l bi i j : nat) :
  bi < b -> i < m -> j < l -> (bi * m + i) * l + j < numel [b; m; l].
Proof.
  intros Hb Hi Hj. simpl.
  assert (bi * m + i < b * m) by now apply offset_lt.
  assert ((bi * m + i) * l + j < (b * m) * l) by now apply offset_lt.
  lia.
Qed.

Lemma offset4_lt (n c h w b i s : nat) :
  b < n -> i < c -> s < h * w ->
  (b * c + i) * (h * w) + s < numel [n; c; h; w].
Proof.
  intros Hb Hi Hs.
  pose proof (@offset3_lt n c (h * w) b i s Hb Hi Hs) as L.
  simpl in *. replace (n * (c * (h * (w * 1)))) with (n * (c * (h * w * 1)))
    by (rewrite !Nat.mul_1_r; reflexivity).
  exact L.
Qed.

Lemma shape_eqb_refl (s : list nat) : shape_eqb s s = true.
Proof.
  induction s as [|a s IH]; simpl; auto. now rewrite Nat.eqb_refl, IH.
Qed.

Lemma shape_eqb_eq (s1 s2 : list nat) : shape_eqb s1 s2 = true -> s1 = s2.
Proof.
  revert s2. induction s1 as [|a s1 IH]; destruct s2 as [|b s2]; simpl;
    try discriminate; auto.
  intros E. apply andb_prop in E. destruct E as [E1 E2].
  apply Nat.eqb_eq in E1. f_equal; auto.
Qed.

Section Sums.
Context {A : Arith}.

Lemma fsum_ext (n : nat) (f g : nat -> num) :
  (forall k, k < n -> f k = g k) -> fsum n f = fsum n g.
Proof.
  intros E. unfold fsum. f_equal. apply map_ext_in.
  intros k Hk. apply in_seq in Hk. apply E. lia.
Qed.

End Sums.

(* ================================================================== *)
(** * The operators on small inputs *)

Ltac run_op :=
  unfold T.transpose021, T.bmm, Conv2d.forward, T.max_keepdim, T.row_max,
    tabulate, fsum, at_;
  cbn [Conv2d.weight Conv2d.bias shape data map seq nth fold_right Nat.eqb
       andb negb Nat.div Nat.modulo Nat.divmod Nat.mul Nat.add Nat.sub fst snd
       T.last_dim rev app removelast numel
       num fzero of_real fadd fsub fmul fdiv fexp fmax real_arith].

Example transpose021_2x3 :
  T.transpose021 (@mkTensor real_arith [1; 2; 3] [1; 2; 3; 4; 5; 6]%R)
  = Ok (@mkTensor real_arith [1; 3; 2] [1; 4; 2; 5; 3; 6]%R).
Proof. run_op. reflexivity. Qed.

Example bmm_2x2 :
  T.bmm (@mkTensor real_arith [1; 2; 2] [1; 2; 3; 4]%R)
        (@mkTensor real_arith [1; 2; 2] [5; 6; 7; 8]%R)
  = Ok (@mkTensor real_arith [1; 2; 2] [19; 22; 43; 50]%R).
Proof. run_op. repeat f_equal; lra. Qed.

Example bmm_two_batches :
  T.bmm (@mkTensor real_arith [2; 1; 2] [1; 2; 3; 4]%R)
        (@mkTensor real_arith [2; 2; 1] [5; 6; 7; 8]%R)
  = Ok (@mkTensor real_arith [2; 1; 1] [17; 53]%R).
Proof. run_op. repeat f_equal; lra. Qed.

Example conv2d_two_channels :
  Conv2d.forward
    (Conv2d.mk (@mkTensor real_arith [2; 2; 1; 1] [1; 2; 3; 4]%R)
               (@mkTensor real_arith [2] [10; 20]%R))
    (@mkTensor real_arith [1; 2; 1; 2] [1; 2; 3; 4]%R)
  = Ok (@mkTensor real_arith [1; 2; 1; 2] [17; 20; 35; 42]%R).
Proof. run_op. repeat f_equal; lra. Qed.

(** A convolution without output channels is rejected. *)
Example conv2d_no_filter :
  Conv2d.forward (@conv_zero real_arith 4 0) x_1411
  = Raise (InvalidArgument "conv2d").
Proof. reflexivity. Qed.

Example reshape_infers_channels :
  T.reshape (@mkTensor real_arith [2; 3; 1; 2] (repeat 0%R 12)) [2; -1; 2]%Z
  = Ok (@mkTensor real_arith [2; 3; 2] (repeat 0%R 12)).
Proof. reflexivity. Qed.

Example max_keepdim_rows :
  T.max_keepdim (@mkTensor real_arith [1; 2; 2] [1; 5; 7; 3]%R)
  = Ok (@mkTensor real_arith [1; 2; 1] [5; 7]%R).
Proof.
  run_op. repeat f_equal; unfold Rmax; repeat (destruct Rle_dec; try lra).
Qed.

Example py_index_negative :
  py_index [10; 20; 30] (-1) = Ok 30 /\ py_index [10; 20; 30] (-3) = Ok 10 /\
  py_index [10; 20; 30] 3 = Raise IndexError /\
  py_index [10; 20; 30] (-4) = Raise IndexError.
Proof. repeat split. Qed.

(* ================================================================== *)
(** * Behaviour of the framework operators on well-shaped operands *)

Section OperatorShapes.
Context {A : Arith}.

Lemma resolve_pos (ins : list nat) (i n : nat) :
  0 < n -> T.resolve ins i (Z.of_nat n) = Ok (Some n).
Proof.
  intros Hn. unfold T.resolve.
  destruct (Z.eqb_spec (Z.of_nat n) (-1)); [lia|].
  destruct (Z.eqb_spec (Z.of_nat n) 0); [lia|].
  destruct (Z.ltb_spec (Z.of_nat n) 0); [lia|].
  now rewrite Nat2Z.id.
Qed.

Lemma reshape3 (t : tensor) (a b c : nat) :
  0 < a -> 0 < b -> 0 < c -> numel (shape t) = a * b * c ->
  T.reshape t [Z.of_nat a; Z.of_nat b; Z.of_nat c]
  = Ok (mkTensor [a; b; c] (data t)).
Proof.
  intros Ha Hb Hc E. unfold T.reshape. simpl.
  rewrite !resolve_pos by assumption. simpl.
  replace (a * (b * (c * 1)) =? numel (shape t)) with true; auto.
  symmetry. apply Nat.eqb_eq. lia.
Qed.

Lemma reshape4 (t : tensor) (a b c d : nat) :
  0 < a -> 0 < b -> 0 < c -> 0 < d -> numel (shape t) = a * b * c * d ->
  T.reshape t [Z.of_nat a; Z.of_nat b; Z.of_nat c; Z.of_nat d]
  = Ok (mkTensor [a; b; c; d] (data t)).
Proof.
  intros Ha Hb Hc Hd E. unfold T.reshape. simpl.
  rewrite !resolve_pos by assumption. simpl.
  replace (a * (b * (c * (d * 1))) =? numel (shape t)) with true; auto.
  symmetry. apply Nat.eqb_eq. lia.
Qed.

Lemma reshape_infer3 (t : tensor) (a b c : nat) :
  0 < a -> 0 < c -> numel (shape t) = a * b * c ->
  T.reshape t [Z.of_nat a; (-1)%Z; Z.of_nat c]
  = Ok (mkTensor [a; b; c] (data t)).
Proof.
  intros Ha Hc E. unfold T.reshape. simpl.
  rewrite !resolve_pos by assumption. simpl.
  assert (K : a * (c * 1) <> 0) by nia.
  assert (E' : numel (shape t) = b * (a * (c * 1))) by lia.
  destruct (Nat.eqb_spec (a * (c * 1)) 0) as [|_]; [contradiction|].
  rewrite E', Nat.Div0.mod_mul, Nat.div_mul by assumption. reflexivity.
Qed.

Lemma reshape_infer4 (t : tensor) (a b c d : nat) :
  0 < a -> 0 < c -> 0 < d -> numel (shape t) = a * b * c * d ->
  T.reshape t [Z.of_nat a; (-1)%Z; Z.of_nat c; Z.of_nat d]
  = Ok (mkTensor [a; b; c; d] (data t)).
Proof.
  intros Ha Hc Hd E. unfold T.reshape. simpl.
  rewrite !resolve_pos by assumption. simpl.
  assert (K : a * (c * (d * 1)) <> 0) by nia.
  assert (E' : numel (shape t) = b * (a * (c * (d * 1)))) by lia.
  destruct (Nat.eqb_spec (a * (c * (d * 1))) 0) as [|_]; [contradiction|].
  rewrite E', Nat.Div0.mod_mul, Nat.div_mul by assumption. reflexivity.
Qed.

Lemma shaped_mk (s : list nat) (n : nat) (f : nat -> num) :
  n = numel s -> shaped (mkTensor s (tabulate n f)) s.
Proof.
  intros E. split; [reflexivity|]. unfold wf. simpl.
  now rewrite length_tabulate.
Qed.

(** A 1x1 convolution with at least one output channel accepts every rank-4
    input of its channel count. *)
Lemma conv2d_ok (c : Conv2d.t) (cin cout : nat) (x : tensor) (n h w : nat) :
  Conv2d_shaped c cin cout -> 0 < cout -> shape x = [n; cin; h; w] ->
  exists r, Conv2d.forward c x = Ok r /\ shaped r [n; cout; h; w].
Proof.
  intros [Hw Hb] Ho Hx. unfold Conv2d.forward. rewrite Hw, Hb, Hx.
  rewrite !Nat.eqb_refl.
  destruct (Nat.eqb_spec cout 0) as [|_]; [lia|]. simpl.
  eexists. split; [reflexivity|].
  apply shaped_mk. simpl. lia.
Qed.

(** Without output channels the convolution is rejected. *)
Lemma conv2d_no_output (c : Conv2d.t) (cin : nat) (x : tensor) :
  Conv2d_shaped c cin 0 ->
  Conv2d.forward c x = Raise (InvalidArgument "conv2d").
Proof.
  intros [Hw Hb]. unfold Conv2d.forward. rewrite Hw, Hb.
  destruct (shape x) as [|n [|c' [|h [|w [|? ?]]]]]; try reflexivity.
  cbn [Nat.eqb negb]. now rewrite andb_false_r.
Qed.

Lemma reshape_ok3 (t : tensor) (s : list nat) (a b c : nat) :
  shaped t s -> 0 < a -> 0 < b -> 0 < c -> numel s = a * b * c ->
  exists r, T.reshape t [Z.of_nat a; Z.of_nat b; Z.of_nat c] = Ok r /\
            shaped r [a; b; c] /\ data r = data t.
Proof.
  intros [Hs Hwf] Ha Hb Hc E. rewrite reshape3; try assumption.
  - eexists. split; [reflexivity|]. split; [|reflexivity].
    split; [reflexivity|]. unfold wf in *. simpl. rewrite Hwf, Hs. lia.
  - now rewrite Hs.
Qed.

Lemma reshape_ok4 (t : tensor) (s : list nat) (a b c d : nat) :
  shaped t s -> 0 < a -> 0 < b -> 0 < c -> 0 < d -> numel s = a * b * c * d ->
  exists r, T.reshape t [Z.of_nat a; Z.of_nat b; Z.of_nat c; Z.of_nat d] = Ok r /\
            shaped r [a; b; c; d] /\ data r = data t.
Proof.
  intros [Hs Hwf] Ha Hb Hc Hd E. rewrite reshape4; try assumption.
  - eexists. split; [reflexivity|]. split; [|reflexivity].
    split; [reflexivity|]. unfold wf in *. simpl. rewrite Hwf, Hs. lia.
  - now rewrite Hs.
Qed.

Lemma reshape_infer_ok3 (t : tensor) (s : list nat) (a b c : nat) :
  shaped t s -> 0 < a -> 0 < c -> numel s = a * b * c ->
  exists r, T.reshape t [Z.of_nat a; (-1)%Z; Z.of_nat c] = Ok r /\
            shaped r [a; b; c] /\ data r = data t.
Proof.
  intros [Hs Hwf] Ha Hc E. rewrite (@reshape_infer3 t a b c); try assumption.
  - eexists. split; [reflexivity|]. split; [|reflexivity].
    split; [reflexivity|]. unfold wf in *. simpl. rewrite Hwf, Hs. lia.
  - now rewrite Hs.
Qed.

Lemma reshape_infer_ok4 (t : tensor) (s : list nat) (a b c d : nat) :
  shaped t s -> 0 < a -> 0 < c -> 0 < d -> numel s = a * b * c * d ->
  exists r, T.reshape t [Z.of_nat a; (-1)%Z; Z.of_nat c; Z.of_nat d] = Ok r /\
            shaped r [a; b; c; d] /\ data r = data t.
Proof.
  intros [Hs Hwf] Ha Hc Hd E. rewrite (@reshape_infer4 t a b c d); try assumption.
  - eexists. split; [reflexivity|]. split; [|reflexivity].
    split; [reflexivity|]. unfold wf in *. simpl. rewrite Hwf, Hs. lia.
  - now rewrite Hs.
Qed.

Lemma transpose_ok (t : tensor) (b m p : nat) :
  shape t = [b; m; p] ->
  exists r, T.transpose021 t = Ok r /\ shaped r [b; p; m].
Proof.
  intros Hs. unfold T.transpose021. rewrite Hs.
  eexists. split; [reflexivity|]. apply shaped_mk. simpl. lia.
Qed.

Lemma bmm_ok (x y : tensor) (b m k p : nat) :
  shape x = [b; m; k] -> shape y = [b; k; p] ->
  exists r, T.bmm x y = Ok r /\ shaped r [b; m; p].
Proof.
  intros Hx Hy. unfold T.bmm. rewrite Hx, Hy, !Nat.eqb_refl. simpl.
  eexists. split; [reflexivity|]. apply shaped_mk. simpl. lia.
Qed.

Lemma softmax3 (t : tensor) (b m l : nat) :
  shape t = [b; m; l] ->
  T.softmax t =
  Ok (mkTensor [b; m; l]
        (tabulate (numel [b; m; l])
           (fun k =>
              let o := (k / l) * l in
              let mx := T.row_max t o l in
              fdiv (fexp (fsub (at_ t k) mx))
                   (fsum l (fun s => fexp (fsub (at_ t (o + s)) mx)))))).
Proof. intros Hs. unfold T.softmax. rewrite Hs. reflexivity. Qed.

Lemma softmax_ok (t : tensor) (b m l : nat) :
  shape t = [b; m; l] ->
  exists r, T.softmax t = Ok r /\ shaped r [b; m; l].
Proof.
  intros Hs. rewrite (softmax3 _ Hs). eexists. split; [reflexivity|].
  now apply shaped_mk.
Qed.

(** Entry (bi, i, j) of a softmax over the last axis: the exponential of the
    entry shifted by the row's maximum, over the sum of the row's. *)
Lemma softmax_get3 (t r : tensor) (b m l bi i j : nat) :
  shape t = [b; m; l] -> T.softmax t = Ok r ->
  bi < b -> i < m -> j < l ->
  get3 r bi i j =
  fdiv (fexp (fsub (get3 t bi i j) (T.row_max t ((bi * m + i) * l) l)))
       (fsum l (fun s =>
          fexp (fsub (get3 t bi i s) (T.row_max t ((bi * m + i) * l) l)))).
Proof.
  intros Hs E Hb Hi Hj. rewrite (softmax3 _ Hs) in E. injection E as <-.
  unfold get3 at 1. simpl shape. cbv beta iota. unfold at_ at 1. simpl data.
  rewrite nth_tabulate by now apply offset3_lt.
  cbv zeta. rewrite offset_div by assumption.
  unfold get3. rewrite Hs. reflexivity.
Qed.

Lemma scale_by_gate (g x : tensor) (n c h w : nat) :
  shape g = [1] -> shape x = [n; c; h; w] ->
  T.mul g x =
  Ok (mkTensor [n; c; h; w]
        (tabulate (numel [n; c; h; w]) (fun k => fmul (at_ g 0) (at_ x k)))).
Proof.
  intros Hg Hx. unfold T.mul, T.elementwise. rewrite Hg, Hx.
  replace (shape_eqb [1] [n; c; h; w]) with false; [reflexivity|].
  cbn [shape_eqb]. now rewrite andb_false_r.
Qed.

Lemma add_same_shape (x y : tensor) (s : list nat) :
  shape x = s -> shape y = s ->
  T.add x y =
  Ok (mkTensor s (tabulate (numel s) (fun k => fadd (at_ x k) (at_ y k)))).
Proof.
  intros Hx Hy. unfold T.add, T.elementwise.
  rewrite Hx, Hy, shape_eqb_refl. reflexivity.
Qed.

End OperatorShapes.

(* ================================================================== *)
(** * The two arithmetics obey the laws *)

Lemma real_laws : Float_laws real_arith.
Proof.
  constructor; cbn.
  - intros a _ [].
  - intros [].
  - intros a. apply Rplus_0_l.
  - intros a _. apply Rmult_0_l.
  - intros a H. apply H. exact I.
  - intros a b [[] | []].
  - intros a b [[] | []].
  - intros a b [[] | []].
  - intros a [].
  - intros a _. apply Rle_refl.
  - intros a b c. apply Rle_trans.
  - intros a b. unfold Rmax. destruct (Rle_dec a b); auto.
  - intros a b _ _. split; [apply Rmax_l | apply Rmax_r].
  - intros a b Ha Hb. lra.
  - intros a _. apply Rlt_le, exp_pos.
  - intros a b c H _ _. lra.
  - intros a b c H _ _. lra.
  - intros a b H. destruct (Rle_lt_or_eq_dec _ _ H) as [L | ->].
    + now apply Rlt_le, exp_increasing.
    + apply Rle_refl.
  - intros a b c H Hc _ _. unfold Rdiv.
    apply Rmult_le_compat_r; [|exact H].
    destruct (Rle_lt_or_eq_dec _ _ Hc) as [L | <-].
    + now apply Rlt_le, Rinv_0_lt_compat.
    + rewrite Rinv_0. apply Rle_refl.
Qed.

Lemma max_value_pos : (0 < F32.max_value)%R.
Proof. unfold F32.max_value. lra. Qed.

Lemma round_cases (r : R) :
  (F32.max_value < r /\ F32.round r = F32.PInf)%R \/
  (r < - F32.max_value /\ F32.round r = F32.NInf)%R \/
  ((- F32.max_value <= r <= F32.max_value)%R /\ F32.round r = F32.Fin r).
Proof.
  unfold F32.round.
  destruct (Rlt_dec F32.max_value r); [left; now split|].
  destruct (Rlt_dec r (- F32.max_value)); [right; left; now split|].
  right. right. split; [lra | reflexivity].
Qed.

Lemma round_le (a b : R) : (a <= b)%R -> F32.le (F32.round a) (F32.round b).
Proof.
  intros H. pose proof max_value_pos.
  destruct (round_cases a) as [[? ->] | [[? ->] | [? ->]]];
    destruct (round_cases b) as [[? ->] | [[? ->] | [? ->]]]; cbn; lra.
Qed.

Lemma round_not_nan (r : R) : ~ F32.nan (F32.round r).
Proof. destruct (round_cases r) as [[? ->] | [[? ->] | [? ->]]]; cbn; tauto. Qed.

Lemma round_nonneg (r : R) : (0 <= r)%R -> F32.le (F32.Fin 0) (F32.round r).
Proof.
  intros H. pose proof max_value_pos.
  destruct (round_cases r) as [[? ->] | [[? ->] | [? ->]]]; cbn; lra.
Qed.

Lemma round_zero : F32.round 0 = F32.Fin 0.
Proof.
  pose proof max_value_pos.
  destruct (round_cases 0) as [[? ?] | [[? ?] | [? ?]]]; try lra. assumption.
Qed.

Lemma inf_of_sign_cases (r : R) :
  (0 < r /\ F32.inf_of_sign r = F32.PInf)%R \/
  (r < 0 /\ F32.inf_of_sign r = F32.NInf)%R \/
  (r = 0%R /\ F32.inf_of_sign r = F32.NaN).
Proof.
  unfold F32.inf_of_sign.
  destruct (Rlt_dec 0 r); [left; now split|].
  destruct (Rlt_dec r 0); [right; left; now split|].
  right. right. split; [lra | reflexivity].
Qed.

Lemma inf_of_sign_zero : F32.inf_of_sign 0 = F32.NaN.
Proof.
  destruct (inf_of_sign_cases 0) as [[? ?] | [[? ?] | [_ ?]]]; try lra.
  assumption.
Qed.

Lemma F32_add_zero_l (a : F32.t) : F32.add (F32.Fin 0) a = a.
Proof.
  destruct a as [r | | |]; cbn; try reflexivity.
  destruct (Req_dec_T 0 0); [reflexivity | contradiction].
Qed.

Lemma F32_mul_zero_other (a : F32.t) :
  ~ F32.finite a -> F32.nan (F32.mul (F32.Fin 0) a).
Proof.
  destruct a as [r | | |]; cbn; intros H.
  - exfalso. apply H. exact I.
  - now rewrite inf_of_sign_zero.
  - now rewrite inf_of_sign_zero.
  - exact I.
Qed.

Lemma F32_le_trans (a b c : F32.t) : F32.le a b -> F32.le b c -> F32.le a c.
Proof.
  destruct a as [a | | |], b as [b | | |], c as [c | | |]; cbn; try tauto.
  apply Rle_trans.
Qed.

Lemma F32_max_in (a b : F32.t) : F32.max a b = a \/ F32.max a b = b.
Proof.
  destruct a as [a | | |], b as [b | | |]; cbn; auto.
  unfold Rmax. destruct (Rle_dec a b); auto.
Qed.

Lemma F32_max_ub (a b : F32.t) :
  ~ F32.nan a -> ~ F32.nan b ->
  F32.le a (F32.max a b) /\ F32.le b (F32.max a b).
Proof.
  destruct a as [a | | |], b as [b | | |]; cbn; try tauto; intros _ _;
    try (split; (exact I || apply Rle_refl)).
  split; [apply Rmax_l | apply Rmax_r].
Qed.

Lemma F32_add_nonneg (a b : F32.t) :
  F32.le (F32.Fin 0) a -> F32.le (F32.Fin 0) b -> F32.le (F32.Fin 0) (F32.add a b).
Proof.
  destruct a as [a | | |], b as [b | | |]; cbn; try tauto. intros Ha Hb.
  destruct (Req_dec_T a 0); [exact Hb|]. apply round_nonneg. lra.
Qed.

Lemma F32_exp_nonneg (a : F32.t) :
  ~ F32.nan (F32.exp a) -> F32.le (F32.Fin 0) (F32.exp a).
Proof.
  destruct a as [a | | |]; cbn; try tauto; intros _.
  - apply round_nonneg, Rlt_le, exp_pos.
  - apply Rle_refl.
Qed.

Lemma F32_le_PInf (a : F32.t) : ~ F32.nan a -> F32.le a F32.PInf.
Proof. destruct a; cbn; tauto. Qed.

Lemma F32_NInf_le (a : F32.t) : ~ F32.nan a -> F32.le F32.NInf a.
Proof. destruct a; cbn; tauto. Qed.

(** Comparisons between results of the operations. *)
Ltac f32_le :=
  first
    [ exact I
    | apply Rle_refl
    | apply round_le; lra
    | apply F32_NInf_le; apply round_not_nan
    | apply F32_le_PInf; apply round_not_nan
    | tauto ].

Lemma F32_sub_le_l (a b c : F32.t) :
  F32.le a b -> ~ F32.nan (F32.sub a c) -> ~ F32.nan (F32.sub b c) ->
  F32.le (F32.sub a c) (F32.sub b c).
Proof.
  destruct a as [a | | |], b as [b | | |], c as [c | | |]; cbn; try tauto;
    intros H _ _; f32_le.
Qed.

Lemma F32_sub_le_r (a b c : F32.t) :
  F32.le a b -> ~ F32.nan (F32.sub c a) -> ~ F32.nan (F32.sub c b) ->
  F32.le (F32.sub c b) (F32.sub c a).
Proof.
  destruct a as [a | | |], b as [b | | |], c as [c | | |]; cbn; try tauto;
    intros H _ _; f32_le.
Qed.

Lemma exp_le_compat (a b : R) : (a <= b)%R -> (exp a <= exp b)%R.
Proof.
  intros H. destruct (Rle_lt_or_eq_dec _ _ H) as [L | ->].
  - now apply Rlt_le, exp_increasing.
  - apply Rle_refl.
Qed.

Lemma F32_exp_le (a b : F32.t) : F32.le a b -> F32.le (F32.exp a) (F32.exp b).
Proof.
  destruct a as [a | | |], b as [b | | |]; cbn; try tauto.
  - intros H. apply round_le. now apply exp_le_compat.
  - intros _.
    destruct (round_cases (exp a)) as [[? ->] | [[? ->] | [? ->]]]; cbn; tauto.
  - intros _. apply round_nonneg, Rlt_le, exp_pos.
  - intros _. apply Rle_refl.
Qed.

Lemma div_by_zero (a : R) : F32.div (F32.Fin a) (F32.Fin 0) = F32.inf_of_sign a.
Proof. cbn. destruct (Req_dec_T 0 0); [reflexivity | contradiction]. Qed.

Lemma div_by_number (a c : R) :
  c <> 0%R -> F32.div (F32.Fin a) (F32.Fin c) = F32.round (a / c).
Proof. intros H. cbn. destruct (Req_dec_T c 0); [contradiction | reflexivity]. Qed.

Lemma div_PInf (c : R) : (0 <= c)%R -> F32.div F32.PInf (F32.Fin c) = F32.PInf.
Proof. intros H. cbn. destruct (Rlt_dec c 0); [lra | reflexivity]. Qed.

Lemma div_NInf (c : R) : (0 <= c)%R -> F32.div F32.NInf (F32.Fin c) = F32.NInf.
Proof. intros H. cbn. destruct (Rlt_dec c 0); [lra | reflexivity]. Qed.

Lemma inf_of_sign_le (a b : R) :
  (a <= b)%R -> ~ F32.nan (F32.inf_of_sign a) -> ~ F32.nan (F32.inf_of_sign b) ->
  F32.le (F32.inf_of_sign a) (F32.inf_of_sign b).
Proof.
  intros H.
  destruct (inf_of_sign_cases a) as [[? ->] | [[? ->] | [? ->]]];
    destruct (inf_of_sign_cases b) as [[? ->] | [[? ->] | [? ->]]];
    cbn; try tauto; lra.
Qed.

Lemma F32_div_le (a b c : F32.t) :
  F32.le a b -> F32.le (F32.Fin 0) c ->
  ~ F32.nan (F32.div a c) -> ~ F32.nan (F32.div b c) ->
  F32.le (F32.div a c) (F32.div b c).
Proof.
  destruct c as [c | | |].
  - (* a finite divisor, not negative *)
    intros H Hc. cbn in Hc.
    destruct (Req_dec_T c 0) as [-> | Hne].
    + destruct a as [a | | |], b as [b | | |]; cbn in H; try tauto;
        rewrite ?div_by_zero, ?div_PInf, ?div_NInf by apply Rle_refl.
      * now apply inf_of_sign_le.
      * intros Na _. now apply F32_le_PInf.
      * intros _ _. exact I.
      * intros _ Nb. now apply F32_NInf_le.
      * intros _ _. exact I.
      * intros _ _. exact I.
    + assert (Hinv : (0 <= / c)%R) by (apply Rlt_le, Rinv_0_lt_compat; lra).
      destruct a as [a | | |], b as [b | | |]; cbn in H; try tauto;
        rewrite ?div_by_number, ?div_PInf, ?div_NInf by assumption;
        intros _ _.
      * apply round_le. unfold Rdiv. now apply Rmult_le_compat_r.
      * apply F32_le_PInf, round_not_nan.
      * exact I.
      * apply F32_NInf_le, round_not_nan.
      * exact I.
      * exact I.
  - (* the divisor +inf *)
    intros H _. destruct a as [a | | |], b as [b | | |]; cbn in *; try tauto.
    intros _ _. apply Rle_refl.
  - intros _ [].
  - intros _ [].
Qed.

Lemma float_laws : Float_laws float_arith.
Proof.
  constructor; cbn.
  - intros [r | | |]; cbn; tauto.
  - tauto.
  - exact F32_add_zero_l.
  - intros [r | | |]; cbn; try tauto. intros _.
    rewrite Rmult_0_l. apply round_zero.
  - exact F32_mul_zero_other.
  - intros [a | | |] [b | | |]; cbn; tauto.
  - intros [a | | |] [b | | |]; cbn; tauto.
  - intros [a | | |] [b | | |]; cbn; tauto.
  - intros [a | | |]; cbn; tauto.
  - intros [a | | |]; cbn; try tauto. intros _. apply Rle_refl.
  - exact F32_le_trans.
  - exact F32_max_in.
  - exact F32_max_ub.
  - exact F32_add_nonneg.
  - exact F32_exp_nonneg.
  - exact F32_sub_le_l.
  - exact F32_sub_le_r.
  - exact F32_exp_le.
  - exact F32_div_le.
Qed.

(* ================================================================== *)
(** * The attention modules on feature maps *)

(** One step of a forward pass: the operator succeeds, its result is named. *)
Ltac step H r E S :=
  destruct H as (r & E & S); rewrite E; cbn [rbind].

Lemma div8_pos (c : nat) : 8 <= c -> 0 < c / 8.
Proof. intros H. apply Nat.div_str_pos. lia. Qed.

Section AttentionShapes.
Context {A : Arith}.

Lemma PAM_energy_ok (p : PAM.t) (c : nat) (x : tensor) (n h w : nat) :
  PAM_shaped p c -> 8 <= c -> feature_map x n c h w ->
  exists e, PAM.energy p x = Ok e /\ shaped e [n; h * w; h * w].
Proof.
  intros (Hq & Hk & _ & _) H8 ((Hx & Hwf) & Hn & Hc & Hh & Hw).
  assert (Hhw : 0 < h * w) by nia.
  pose proof (div8_pos H8) as Hmid.
  unfold PAM.energy. rewrite Hx.
  step (@conv2d_ok _ _ _ _ _ _ _ _ Hq Hmid Hx) q1 Eo1 So1.
  step (@reshape_infer_ok3 _ q1 _ n (c / 8) (h * w) So1 Hn Hhw ltac:(simpl; lia))
       q2 Eo2 So2.
  destruct So2 as (So2 & _).
  step (@transpose_ok _ _ _ _ _ (proj1 So2)) q3 Eo3 So3.
  step (@conv2d_ok _ _ _ _ _ _ _ _ Hk Hmid Hx) k1 Eo4 So4.
  step (@reshape_infer_ok3 _ k1 _ n (c / 8) (h * w) So4 Hn Hhw ltac:(simpl; lia))
       k2 Eo5 So5.
  destruct So5 as (So5 & _).
  apply (@bmm_ok _ _ _ _ _ _ _ (proj1 So3) (proj1 So5)).
Qed.

Lemma PAM_attention_ok (p : PAM.t) (c : nat) (x : tensor) (n h w : nat) :
  PAM_shaped p c -> 8 <= c -> feature_map x n c h w ->
  exists sim, PAM.attention p x = Ok sim /\ shaped sim [n; h * w; h * w].
Proof.
  intros Hp H8 Hfm. unfold PAM.attention.
  step (@PAM_energy_ok p c x n h w Hp H8 Hfm) e Ee Se.
  apply (@softmax_ok _ _ _ _ _ (proj1 Se)).
Qed.

Lemma PAM_attended_ok (p : PAM.t) (c : nat) (x : tensor) (n h w : nat) :
  PAM_shaped p c -> 8 <= c -> feature_map x n c h w ->
  exists feat, PAM.attended p x = Ok feat /\ shaped feat [n; c; h; w].
Proof.
  intros Hp H8 Hfm.
  destruct (@PAM_attention_ok _ _ _ _ _ _ Hp H8 Hfm) as (sim & Ea & Ss).
  destruct Hp as (_ & _ & Hv & _).
  destruct Hfm as ((Hx & Hwf) & Hn & Hc & Hh & Hw).
  assert (Hhw : 0 < h * w) by nia.
  unfold PAM.attended. rewrite Hx, Ea. cbn [rbind].
  step (@conv2d_ok _ _ _ _ _ _ _ _ Hv Hc Hx) v1 Eo2 So2.
  step (@reshape_infer_ok3 _ v1 _ n c (h * w) So2 Hn Hhw ltac:(simpl; lia))
       v2 Eo3 So3.
  destruct So3 as (So3 & _).
  step (@transpose_ok _ _ _ _ _ (proj1 Ss)) simT Eo4 So4.
  step (@bmm_ok _ _ _ _ _ _ _ (proj1 So3) (proj1 So4)) f1 Eo5 So5.
  destruct (@reshape_infer_ok4 _ f1 _ n c h w So5 Hn Hh Hw ltac:(simpl; lia))
    as (f2 & Eo6 & So6 & _).
  now exists f2.
Qed.

Lemma CAM_similarity_ok (x : tensor) (n c h w : nat) :
  feature_map x n c h w ->
  exists raw, CAM.similarity x = Ok raw /\ shaped raw [n; c; c].
Proof.
  intros (Sx & Hn & Hc & Hh & Hw).
  assert (Hhw : 0 < h * w) by nia.
  unfold CAM.similarity. rewrite (proj1 Sx).
  step (@reshape_ok3 _ x _ n c (h * w) Sx Hn Hc Hhw ltac:(simpl; lia)) q Eo1 So1.
  destruct So1 as (So1 & _).
  step (@transpose_ok _ _ _ _ _ (proj1 So1)) k Eo2 So2.
  apply (@bmm_ok _ _ _ _ _ _ _ (proj1 So1) (proj1 So2)).
Qed.

(** Source line 93 on a rank-3 tensor: entry (bi, i, j) becomes the maximum of
    row (bi, i) minus the entry. *)
Lemma stabilize_get3 (sim : tensor) (b m l : nat) :
  shape sim = [b; m; l] ->
  exists r,
    CAM.stabilize sim = Ok r /\ shaped r [b; m; l] /\
    forall bi i j, bi < b -> i < m -> j < l ->
      get3 r bi i j =
      fsub (T.row_max sim ((bi * m + i) * l) l) (get3 sim bi i j).
Proof.
  intros Hs. unfold CAM.stabilize, T.max_keepdim, T.expand_as.
  rewrite Hs. cbn [T.last_dim rev app removelast rbind shape shape_eqb].
  rewrite !Nat.eqb_refl. cbn [andb].
  assert (Hrow : forall bi i, bi < b -> i < m ->
            nth (bi * m + i)
                (tabulate (numel [b; m]) (fun r => T.row_max sim (r * l) l)) fzero
            = T.row_max sim ((bi * m + i) * l) l).
  { intros bi i Hb Hi. rewrite nth_tabulate; [reflexivity|]. simpl.
    assert (bi * m + i < b * m) by now apply offset_lt. lia. }
  destruct (Nat.eqb_spec 1 l) as [<- | Hne]; cbn [andb rbind].
  - unfold T.sub, T.elementwise. cbn [shape]. rewrite Hs.
    replace (shape_eqb [b; m; 1] [b; m; 1]) with true
      by (symmetry; apply shape_eqb_refl).
    eexists. split; [reflexivity|]. split; [now apply shaped_mk|].
    intros bi i j Hb Hi Hj. assert (j = 0) as -> by lia.
    unfold get3 at 1. cbn [shape]. unfold at_ at 1. cbn [data].
    rewrite nth_tabulate by now apply offset3_lt.
    unfold get3. rewrite Hs. f_equal.
    unfold at_. cbn [data].
    replace ((bi * m + i) * 1 + 0) with (bi * m + i) by lia.
    now apply Hrow.
  - unfold T.sub, T.elementwise. cbn [shape]. rewrite Hs.
    replace (shape_eqb [b; m; l] [b; m; l]) with true
      by (symmetry; apply shape_eqb_refl).
    eexists. split; [reflexivity|]. split; [now apply shaped_mk|].
    intros bi i j Hb Hi Hj.
    unfold get3 at 1. cbn [shape]. unfold at_ at 1. cbn [data].
    rewrite nth_tabulate by now apply offset3_lt.
    unfold get3. rewrite Hs. f_equal.
    unfold at_ at 1. cbn [data].
    rewrite nth_tabulate by now apply offset3_lt.
    rewrite offset_div by assumption.
    unfold at_. cbn [data]. now apply Hrow.
Qed.

Lemma CAM_attention_ok (x : tensor) (n c h w : nat) :
  feature_map x n c h w ->
  exists raw stab att,
    CAM.similarity x = Ok raw /\ shaped raw [n; c; c] /\
    CAM.stabilize raw = Ok stab /\ shaped stab [n; c; c] /\
    T.softmax stab = Ok att /\ shaped att [n; c; c] /\
    CAM.attention x = Ok att.
Proof.
  intros Hfm.
  destruct (@CAM_similarity_ok _ _ _ _ _ Hfm) as (raw & Er & Sr).
  destruct (@stabilize_get3 _ _ _ _ (proj1 Sr)) as (stab & Es & Ss & _).
  destruct (@softmax_ok _ _ _ _ _ (proj1 Ss)) as (att & Ea & Sa).
  exists raw, stab, att. repeat split; try tauto; try apply Sr; try apply Ss;
    try apply Sa.
  unfold CAM.attention. rewrite Er. cbn [rbind]. rewrite Es. cbn [rbind].
  exact Ea.
Qed.

Lemma CAM_attended_ok (x : tensor) (n c h w : nat) :
  feature_map x n c h w ->
  exists feat, CAM.attended x = Ok feat /\ shaped feat [n; c; h; w].
Proof.
  intros Hfm.
  destruct (@CAM_attention_ok _ _ _ _ _ Hfm)
    as (raw & stab & att & _ & _ & _ & _ & _ & Sa & Ea).
  destruct Hfm as (Sx & Hn & Hc & Hh & Hw).
  assert (Hhw : 0 < h * w) by nia.
  unfold CAM.attended. rewrite (proj1 Sx), Ea. cbn [rbind].
  step (@reshape_ok3 _ x _ n c (h * w) Sx Hn Hc Hhw ltac:(simpl; lia)) v Eo1 So1.
  destruct So1 as (So1 & _).
  step (@bmm_ok _ _ _ _ _ _ _ (proj1 Sa) (proj1 So1)) f1 Eo2 So2.
  destruct (@reshape_ok4 _ f1 _ n c h w So2 Hn Hc Hh Hw ltac:(simpl; lia))
    as (f2 & Eo3 & So3 & _).
  now exists f2.
Qed.

(** The residual blend [gamma * feat + x] of the two modules' last line. *)
Lemma blend_ok (g feat x : tensor) (n c h w : nat) :
  shape g = [1] -> shaped feat [n; c; h; w] -> shaped x [n; c; h; w] ->
  (scaled <~ T.mul g feat ;; T.add scaled x)%result =
  Ok (mkTensor [n; c; h; w]
        (tabulate (numel [n; c; h; w])
           (fun k => fadd (fmul (at_ g 0) (at_ feat k)) (at_ x k)))).
Proof.
  intros Hg (Hf & _) (Hx & _).
  rewrite (@scale_by_gate _ _ _ _ _ _ _ Hg Hf). cbn [rbind].
  rewrite (@add_same_shape _ _ x [n; c; h; w]) by (reflexivity || assumption).
  do 2 f_equal. apply tabulate_ext. intros k Hk.
  unfold at_ at 1. cbn [data]. now rewrite nth_tabulate.
Qed.

(** Entry (b, i, s) of the residual blend [gamma * feat + x]. *)
Lemma blend_get4s (g feat x y : tensor) (n c h w b i s : nat) :
  shape g = [1] -> shaped feat [n; c; h; w] -> shaped x [n; c; h; w] ->
  (scaled <~ T.mul g feat ;; T.add scaled x)%result = Ok y ->
  b < n -> i < c -> s < h * w ->
  get4s y b i s = fadd (fmul (at_ g 0) (get4s feat b i s)) (get4s x b i s).
Proof.
  intros Hg Sf Sx E Hb Hi Hs.
  rewrite (@blend_ok g feat x n c h w Hg Sf Sx) in E. injection E as <-.
  unfold get4s at 1. cbn [shape]. unfold at_ at 1. cbn [data].
  rewrite nth_tabulate by now apply offset4_lt.
  unfold get4s. now rewrite (proj1 Sf), (proj1 Sx).
Qed.

(** The forward pass of either module on a feature map returns the blend of
    the attended features with the input. *)
Lemma PAM_forward_ok (p : PAM.t) (c : nat) (x : tensor) (n h w : nat) :
  PAM_shaped p c -> 8 <= c -> feature_map x n c h w ->
  exists feat y,
    PAM.attended p x = Ok feat /\ shaped feat [n; c; h; w] /\
    PAM.forward p x = Ok y /\ shaped y [n; c; h; w] /\
    (scaled <~ T.mul (PAM.gamma p) feat ;; T.add scaled x)%result = Ok y.
Proof.
  intros Hp H8 Hfm.
  destruct (@PAM_attended_ok _ _ _ _ _ _ Hp H8 Hfm) as (feat & Ef & Sf).
  pose proof (@blend_ok (PAM.gamma p) feat x n c h w
                (proj2 (proj2 (proj2 Hp))) Sf (proj1 Hfm)) as Eb.
  exists feat. eexists. split; [exact Ef|]. split; [exact Sf|].
  unfold PAM.forward. rewrite Ef. cbn [rbind].
  split; [exact Eb|]. split; [now apply shaped_mk | exact Eb].
Qed.

Lemma CAM_forward_ok (q : CAM.t) (x : tensor) (n c h w : nat) :
  CAM_shaped q -> feature_map x n c h w ->
  exists feat y,
    CAM.attended x = Ok feat /\ shaped feat [n; c; h; w] /\
    CAM.forward q x = Ok y /\ shaped y [n; c; h; w] /\
    (scaled <~ T.mul (CAM.gamma q) feat ;; T.add scaled x)%result = Ok y.
Proof.
  intros Hq Hfm.
  destruct (@CAM_attended_ok _ _ _ _ _ Hfm) as (feat & Ef & Sf).
  pose proof (@blend_ok (CAM.gamma q) feat x n c h w Hq Sf (proj1 Hfm)) as Eb.
  exists feat. eexists. split; [exact Ef|]. split; [exact Sf|].
  unfold CAM.forward. rewrite Ef. cbn [rbind].
  split; [exact Eb|]. split; [now apply shaped_mk | exact Eb].
Qed.

(** PAM.__init__ always succeeds; the module it returns is shaped for its
    channel count and its gate is 0. *)
Lemma PAM_new_ok (c : nat) (w0 : world) :
  exists p w1, PAM.new c w0 = (Ok p, w1) /\ PAM_shaped p c /\
               PAM.gamma p = mkTensor [1] [fzero].
Proof.
  unfold PAM.new, Conv2d.new, bind, draw_normals, with_gen, ret. cbn.
  do 2 eexists. split; [reflexivity|]. split; [|reflexivity].
  repeat split.
Qed.

End AttentionShapes.

(* ================================================================== *)
(** * The attention modules: zero gate, shapes, attention weights *)

Section ZeroGate.
Context {A : Arith} {L : Float_laws A}.

(** The blend with a gate that holds 0. *)
Lemma blend_zero_gated (g feat x y : tensor) (n c h w : nat) :
  shape g = [1] -> at_ g 0 = fzero ->
  shaped feat [n; c; h; w] -> shaped x [n; c; h; w] ->
  (scaled <~ T.mul g feat ;; T.add scaled x)%result = Ok y ->
  zero_gated feat x y.
Proof.
  intros Hg Hz Sf Sx E.
  rewrite (@blend_ok _ g feat x n c h w Hg Sf Sx) in E. injection E as <-.
  rewrite Hz.
  assert (Hk : forall k, k < numel [n; c; h; w] ->
            (is_finite (at_ feat k) ->
             fadd (fmul fzero (at_ feat k)) (at_ x k) = at_ x k) /\
            (~ is_finite (at_ feat k) ->
             is_nan (fadd (fmul fzero (at_ feat k)) (at_ x k)))).
  { intros k _. split; intros F.
    - rewrite (fmul_zero_finite _ F). apply fadd_zero_l.
    - apply fadd_nan. left. now apply fmul_zero_other. }
  unfold zero_gated. cbn [shape]. rewrite (proj1 Sx).
  split; [reflexivity|]. split; [apply shaped_mk; reflexivity|]. split.
  - intros k Hlt.
    match goal with
    | |- context [at_ ?y k = _] =>
        assert (Hy : at_ y k = fadd (fmul fzero (at_ feat k)) (at_ x k))
          by (unfold at_ at 1; cbn [data]; now rewrite nth_tabulate)
    end.
    rewrite Hy. now apply Hk.
  - intros Hfin. unfold all_finite in Hfin. rewrite (proj1 Sf) in Hfin.
    destruct x as [s d]. destruct Sx as (Hs & Hwf).
    cbn [shape] in Hs. subst s. f_equal.
    unfold wf in Hwf. cbn [data shape] in Hwf.
    set (N := numel [n; c; h; w]) in *.
    transitivity (tabulate N (fun k => nth k d fzero)).
    + apply tabulate_ext. intros k Hlt. now apply Hk; [|apply Hfin].
    + rewrite <- Hwf. apply tabulate_nth.
Qed.

Lemma PAM_zero_gate (p : PAM.t) (c : nat) (x : tensor) (n h w : nat) :
  PAM_shaped p c -> 8 <= c -> PAM.gamma p = mkTensor [1] [fzero] ->
  feature_map x n c h w ->
  exists feat y,
    PAM.attended p x = Ok feat /\ PAM.forward p x = Ok y /\ zero_gated feat x y.
Proof.
  intros Hp H8 Hg Hfm.
  destruct (@PAM_forward_ok _ p c x n h w Hp H8 Hfm)
    as (feat & y & Ef & Sf & Ey & _ & Eb).
  exists feat, y. split; [exact Ef|]. split; [exact Ey|].
  apply (@blend_zero_gated (PAM.gamma p) feat x y n c h w); try assumption.
  - now rewrite Hg.
  - now rewrite Hg.
  - apply Hfm.
Qed.

Lemma CAM_zero_gate (q : CAM.t) (x : tensor) (n c h w : nat) :
  CAM.gamma q = mkTensor [1] [fzero] -> feature_map x n c h w ->
  exists feat y,
    CAM.attended x = Ok feat /\ CAM.forward q x = Ok y /\ zero_gated feat x y.
Proof.
  intros Hg Hfm.
  assert (Hq : CAM_shaped q) by (unfold CAM_shaped; now rewrite Hg).
  destruct (@CAM_forward_ok _ q x n c h w Hq Hfm)
    as (feat & y & Ef & Sf & Ey & _ & Eb).
  exists feat, y. split; [exact Ef|]. split; [exact Ey|].
  apply (@blend_zero_gated (CAM.gamma q) feat x y n c h w); try assumption.
  - now rewrite Hg.
  - apply Hfm.
Qed.

(** C1 (amended).  Zero gate: a freshly constructed PAM and a freshly
    constructed CAM hold the gate value 0.  While the gate holds that value,
    the forward pass of a CAM, and of a PAM built for at least 8 channels,
    returns a tensor of the shape of its input that holds the input's element
    wherever the attended feature is a finite number, and NaN wherever it is
    an infinity or NaN (0 * inf and 0 * NaN are NaN); so the output is the
    input whenever the attended features are finite. *)
Theorem zero_gate_identity (c : nat) (w0 : world) (x : tensor) (n h w : nat) :
  feature_map x n c h w ->
  (exists p w1,
      PAM.new c w0 = (Ok p, w1) /\ PAM_shaped p c /\
      PAM.gamma p = mkTensor [1] [fzero]) /\
  (8 <= c ->
   forall p, PAM_shaped p c -> PAM.gamma p = mkTensor [1] [fzero] ->
     exists feat y,
       PAM.attended p x = Ok feat /\ PAM.forward p x = Ok y /\
       zero_gated feat x y) /\
  CAM.gamma CAM.new = mkTensor [1] [fzero] /\
  (forall q, CAM.gamma q = mkTensor [1] [fzero] ->
     exists feat y,
       CAM.attended x = Ok feat /\ CAM.forward q x = Ok y /\
       zero_gated feat x y).
Proof.
  intros Hfm. split; [|split; [|split]].
  - apply PAM_new_ok.
  - intros H8 p Hp Hg. now apply (@PAM_zero_gate p c x n h w).
  - reflexivity.
  - intros q Hg. now apply (@CAM_zero_gate q x n c h w).
Qed.

End ZeroGate.

Lemma x_1811_feature_map : feature_map x_1811 1 8 1 1.
Proof. unfold feature_map, shaped, wf. cbn. repeat split; lia. Qed.

Lemma real_all_finite (t : @tensor real_arith) : all_finite t.
Proof. intros k _. exact I. Qed.

Lemma zero_gate_identity_witness :
  (exists p w1, @PAM.new real_arith 8 empty_world = (Ok p, w1) /\
                PAM.forward p x_1811 = Ok x_1811) /\
  CAM.forward CAM.new x_1811 = Ok x_1811.
Proof.
  destruct (@zero_gate_identity real_arith real_laws 8 empty_world x_1811 1 1 1
              x_1811_feature_map)
    as ((p & w1 & E & Hp & Hg) & HP & _ & HC).
  split.
  - exists p, w1. split; [exact E|].
    destruct (HP (le_n 8) p Hp Hg) as (feat & y & _ & Ey & _ & _ & _ & Hid).
    rewrite Ey. f_equal. apply Hid. apply real_all_finite.
  - destruct (HC CAM.new eq_refl) as (feat & y & _ & Ey & _ & _ & _ & Hid).
    rewrite Ey. f_equal. apply Hid. apply real_all_finite.
Defined.

Section ShapePreservation.
Context {A : Arith}.

(** C3.  Shape preservation: on a feature map of shape (N, C, H, W) with C
    divisible by 8, the forward pass of a PAM built for C channels and the
    forward pass of a CAM both return a tensor of shape (N, C, H, W). *)
Theorem attention_preserves_shape
        (p : PAM.t) (q : CAM.t) (x : tensor) (n c h w : nat) :
  PAM_shaped p c -> CAM_shaped q -> feature_map x n c h w -> Nat.divide 8 c ->
  (exists y, PAM.forward p x = Ok y /\ shaped y [n; c; h; w]) /\
  (exists y, CAM.forward q x = Ok y /\ shaped y [n; c; h; w]).
Proof.
  intros Hp Hq Hfm (k & Hk).
  assert (H8 : 8 <= c).
  { destruct Hfm as (_ & _ & Hc & _). lia. }
  split.
  - destruct (@PAM_forward_ok _ p c x n h w Hp H8 Hfm)
      as (feat & y & _ & _ & Ey & Sy & _).
    now exists y.
  - destruct (@CAM_forward_ok _ q x n c h w Hq Hfm)
      as (feat & y & _ & _ & Ey & Sy & _).
    now exists y.
Qed.

(** A PAM built for fewer than 8 channels has query and key convolutions
    without output channels: its forward pass is rejected by the first of
    them on every rank-4 input. *)
Lemma PAM_too_few_channels (p : PAM.t) (c : nat) (x : tensor) (n c' h w : nat) :
  PAM_shaped p c -> c < 8 -> shape x = [n; c'; h; w] ->
  PAM.forward p x = Raise (InvalidArgument "conv2d").
Proof.
  intros (Hq & _) Hc Hx.
  unfold PAM.forward, PAM.attended, PAM.attention, PAM.energy. rewrite Hx.
  rewrite (Nat.div_small c 8 Hc) in Hq.
  now rewrite (@conv2d_no_output _ _ c x Hq).
Qed.

End ShapePreservation.

Lemma sample_pam_shaped : PAM_shaped sample_pam 8.
Proof. repeat split. Qed.

Lemma attention_preserves_shape_witness :
  (exists y, PAM.forward sample_pam x_1811 = Ok y /\ shaped y [1; 8; 1; 1]) /\
  (exists y, CAM.forward CAM.new x_1811 = Ok y /\ shaped y [1; 8; 1; 1]).
Proof.
  apply (@attention_preserves_shape real_arith sample_pam CAM.new x_1811 1 8 1 1).
  - exact sample_pam_shaped.
  - reflexivity.
  - exact x_1811_feature_map.
  - exists 1. reflexivity.
Defined.

(* ================================================================== *)
(** * Entries of products, transposes and reshaped tensors *)

Section Entries.
Context {A : Arith}.

Lemma bmm_get3 (x y r : tensor) (b m k p bi i j : nat) :
  shape x = [b; m; k] -> shape y = [b; k; p] -> T.bmm x y = Ok r ->
  bi < b -> i < m -> j < p ->
  get3 r bi i j = fsum k (fun s => fmul (get3 x bi i s) (get3 y bi s j)).
Proof.
  intros Hx Hy E Hb Hi Hj. unfold T.bmm in E.
  rewrite Hx, Hy, !Nat.eqb_refl in E. cbn [andb] in E. injection E as <-.
  unfold get3 at 1. cbn [shape]. unfold at_ at 1. cbn [data].
  rewrite nth_tabulate.
  2:{ pose proof (@offset3_lt b m p bi i j Hb Hi Hj) as L. simpl in L. lia. }
  assert (D1 : ((bi * m + i) * p + j) / p = bi * m + i) by now apply offset_div.
  assert (D2 : ((bi * m + i) * p + j) / (m * p) = bi).
  { rewrite (Nat.mul_comm m p), <- Nat.Div0.div_div, D1. now apply offset_div. }
  cbv zeta. rewrite D1, D2, (offset_mod _ Hi), (offset_mod _ Hj).
  unfold get3. rewrite Hx, Hy. reflexivity.
Qed.

Lemma transpose_get3 (t r : tensor) (b m p bi i j : nat) :
  shape t = [b; m; p] -> T.transpose021 t = Ok r ->
  bi < b -> i < m -> j < p ->
  get3 r bi j i = get3 t bi i j.
Proof.
  intros Hs E Hb Hi Hj. unfold T.transpose021 in E. rewrite Hs in E.
  injection E as <-.
  unfold get3 at 1. cbn [shape]. unfold at_ at 1. cbn [data].
  rewrite nth_tabulate.
  2:{ pose proof (@offset3_lt b p m bi j i Hb Hj Hi) as L. simpl in L. lia. }
  assert (D1 : ((bi * p + j) * m + i) / m = bi * p + j) by now apply offset_div.
  assert (D2 : ((bi * p + j) * m + i) / (p * m) = bi).
  { rewrite (Nat.mul_comm p m), <- Nat.Div0.div_div, D1. now apply offset_div. }
  rewrite D1, D2, (offset_mod _ Hi), (offset_mod _ Hj).
  unfold get3. rewrite Hs. reflexivity.
Qed.

(** A reshape keeps the elements where they are: entry (b, c, s) of the
    flattened (n, c, h*w) view is entry (b, c, s) of the feature map. *)
Lemma flatten_get3 (x q : tensor) (n c h w b i s : nat) :
  shape x = [n; c; h; w] -> shape q = [n; c; h * w] -> data q = data x ->
  get3 q b i s = get4s x b i s.
Proof.
  intros Hx Hq Hd. unfold get3, get4s, at_. now rewrite Hx, Hq, Hd.
Qed.

(** The raw channel similarity, entry by entry. *)
Lemma CAM_similarity_entries (x : tensor) (n c h w : nat) :
  feature_map x n c h w ->
  exists raw,
    CAM.similarity x = Ok raw /\ shaped raw [n; c; c] /\
    forall b i j, b < n -> i < c -> j < c ->
      get3 raw b i j =
      fsum (h * w) (fun s => fmul (get4s x b i s) (get4s x b j s)).
Proof.
  intros (Sx & Hn & Hc & Hh & Hw).
  assert (Hhw : 0 < h * w) by nia.
  unfold CAM.similarity. rewrite (proj1 Sx).
  step (@reshape_ok3 _ x _ n c (h * w) Sx Hn Hc Hhw ltac:(simpl; lia)) q Eo1 So1.
  destruct So1 as (So1 & Dq).
  destruct (@transpose_ok _ q n c (h * w) (proj1 So1)) as (k & Eo2 & So2).
  rewrite Eo2. cbn [rbind].
  destruct (@bmm_ok _ q k n c (h * w) c (proj1 So1) (proj1 So2))
    as (raw & Eo3 & So3).
  exists raw. split; [exact Eo3|]. split; [exact So3|].
  intros b i j Hb Hi Hj.
  rewrite (@bmm_get3 q k raw n c (h * w) c b i j
             (proj1 So1) (proj1 So2) Eo3 Hb Hi Hj).
  apply fsum_ext. intros s Hs.
  rewrite (@transpose_get3 q k n c (h * w) b j s (proj1 So1) Eo2 Hb Hj Hs).
  now rewrite !(@flatten_get3 x q n c h w) by (apply Sx || apply So1 || exact Dq).
Qed.

End Entries.

(* ================================================================== *)
(** * Sums and maxima of numbers that are not NaN *)

Section Laws.
Context {A : Arith} {L : Float_laws A}.

Lemma fadd_not_nan (a b : num) :
  ~ is_nan (fadd a b) -> ~ is_nan a /\ ~ is_nan b.
Proof. intros H. split; intros N; apply H, fadd_nan; tauto. Qed.

Lemma fsub_not_nan (a b : num) :
  ~ is_nan (fsub a b) -> ~ is_nan a /\ ~ is_nan b.
Proof. intros H. split; intros N; apply H, fsub_nan; tauto. Qed.

Lemma fdiv_not_nan (a b : num) :
  ~ is_nan (fdiv a b) -> ~ is_nan a /\ ~ is_nan b.
Proof. intros H. split; intros N; apply H, fdiv_nan; tauto. Qed.

Lemma fexp_not_nan (a : num) : ~ is_nan (fexp a) -> ~ is_nan a.
Proof. intros H N. now apply H, fexp_nan. Qed.

Lemma sum_not_nan (xs : list num) :
  ~ is_nan (fold_right fadd fzero xs) -> forall x, In x xs -> ~ is_nan x.
Proof.
  induction xs as [|y xs IH]; cbn; intros H x Hin; [contradiction|].
  apply fadd_not_nan in H. destruct H as [Hy Hr].
  destruct Hin as [<- | Hin]; [exact Hy | now apply IH].
Qed.

Lemma sum_nonneg (xs : list num) :
  (forall x, In x xs -> fle fzero x) -> fle fzero (fold_right fadd fzero xs).
Proof.
  induction xs as [|y xs IH]; cbn; intros H.
  - apply fle_refl, fzero_not_nan.
  - apply fadd_nonneg; [apply H; now left | apply IH; intros; apply H; now right].
Qed.

(** A sum of exponentials that is not NaN is not negative. *)
Lemma fsum_exp_nonneg (n : nat) (f : nat -> num) :
  ~ is_nan (fsum n (fun k => fexp (f k))) ->
  fle fzero (fsum n (fun k => fexp (f k))).
Proof.
  intros H. apply sum_nonneg. intros x Hin.
  pose proof (@sum_not_nan _ H x Hin) as Nx.
  apply in_map_iff in Hin. destruct Hin as (k & <- & _).
  now apply fexp_nonneg.
Qed.

Lemma fold_fmax_in (a : num) (xs : list num) :
  fold_right fmax a xs = a \/ In (fold_right fmax a xs) xs.
Proof.
  induction xs as [|y xs IH]; cbn; [now left|].
  destruct (fmax_in y (fold_right fmax a xs)) as [-> | ->].
  - right. now left.
  - destruct IH; [now left | right; now right].
Qed.

Lemma fold_fmax_ub (a : num) (xs : list num) :
  ~ is_nan a -> (forall x, In x xs -> ~ is_nan x) ->
  ~ is_nan (fold_right fmax a xs) /\
  fle a (fold_right fmax a xs) /\
  (forall x, In x xs -> fle x (fold_right fmax a xs)).
Proof.
  intros Na. induction xs as [|y xs IH]; cbn; intros Nx.
  - split; [exact Na|]. split; [now apply fle_refl | contradiction].
  - destruct IH as (Nm & Ha & Hx); [intros; apply Nx; now right|].
    assert (Ny : ~ is_nan y) by (apply Nx; now left).
    destruct (fmax_ub _ _ Ny Nm) as [U1 U2].
    split; [|split].
    + destruct (fmax_in y (fold_right fmax a xs)) as [-> | ->]; assumption.
    + exact (fle_trans _ _ _ Ha U2).
    + intros x [<- | Hin]; [exact U1|].
      exact (fle_trans _ _ _ (Hx x Hin) U2).
Qed.

(** The maximum of a row without NaN bounds the row and is one of its
    elements. *)
Lemma row_max_spec (t : tensor) (o l : nat) :
  0 < l -> (forall s, s < l -> ~ is_nan (at_ t (o + s))) ->
  (forall s, s < l -> fle (at_ t (o + s)) (T.row_max t o l)) /\
  (exists s, s < l /\ at_ t (o + s) = T.row_max t o l).
Proof.
  intros Hl Nn. unfold T.row_max.
  assert (N0 : ~ is_nan (at_ t o)).
  { specialize (Nn 0 Hl). now rewrite Nat.add_0_r in Nn. }
  assert (Nxs : forall x, In x (map (fun s => at_ t (o + s)) (seq 0 l)) ->
                          ~ is_nan x).
  { intros x Hin. apply in_map_iff in Hin. destruct Hin as (s & <- & Hs).
    apply in_seq in Hs. apply Nn. lia. }
  destruct (@fold_fmax_ub _ _ N0 Nxs) as (_ & _ & Hub).
  split.
  - intros s Hs. apply Hub.
    apply (in_map (fun s => at_ t (o + s))). apply in_seq. lia.
  - destruct (fold_fmax_in (at_ t o) (map (fun s => at_ t (o + s)) (seq 0 l)))
      as [E | Hin].
    + exists 0. split; [assumption|]. now rewrite Nat.add_0_r.
    + apply in_map_iff in Hin. destruct Hin as (s & E & Hs).
      apply in_seq in Hs. exists s. split; [lia | exact E].
Qed.

(** In a row of a softmax, a smaller entry gets a weight that is not larger,
    as far as the two weights are numbers. *)
Lemma softmax_monotone (t r : tensor) (b m l bi i j k : nat) :
  shape t = [b; m; l] -> T.softmax t = Ok r ->
  bi < b -> i < m -> j < l -> k < l ->
  fle (get3 t bi i j) (get3 t bi i k) ->
  ~ is_nan (get3 r bi i j) -> ~ is_nan (get3 r bi i k) ->
  fle (get3 r bi i j) (get3 r bi i k).
Proof.
  intros Hs E Hb Hi Hj Hk Hle.
  rewrite (@softmax_get3 _ t r b m l bi i j Hs E Hb Hi Hj).
  rewrite (@softmax_get3 _ t r b m l bi i k Hs E Hb Hi Hk).
  set (mx := T.row_max t ((bi * m + i) * l) l).
  set (S := fsum l (fun s => fexp (fsub (get3 t bi i s) mx))).
  intros Nj Nk.
  destruct (@fdiv_not_nan _ _ Nj) as [Nej NS].
  destruct (@fdiv_not_nan _ _ Nk) as [Nek _].
  apply fdiv_le; try assumption.
  - apply fexp_le. apply fsub_le_l; [exact Hle | |]; now apply fexp_not_nan.
  - now apply fsum_exp_nonneg.
Qed.

End Laws.

(* ================================================================== *)
(** * The channel attention weights *)

Section ChannelWeights.
Context {A : Arith} {L : Float_laws A}.

(** C2 (amended).  Channel stabilisation: CAM.forward replaces every entry of
    the raw (N, C, C) similarity matrix by its row's maximum minus the entry
    and then applies the softmax.  In a row without NaN that maximum bounds
    the row and is one of its entries.  Of two entries of a row, the one with
    the larger raw similarity does not get the larger weight, as far as both
    weights are numbers (not NaN); hence an entry that holds the row's maximum
    gets the smallest of the weights of its row that are numbers. *)
Theorem CAM_max_gets_min_weight (x : tensor) (n c h w : nat) :
  feature_map x n c h w ->
  exists raw stab att,
    CAM.similarity x = Ok raw /\ shaped raw [n; c; c] /\
    CAM.stabilize raw = Ok stab /\ T.softmax stab = Ok att /\
    CAM.attention x = Ok att /\ shaped att [n; c; c] /\
    forall b i, b < n -> i < c ->
      (exists mx,
          (forall j, j < c -> get3 stab b i j = fsub mx (get3 raw b i j)) /\
          ((forall k, k < c -> ~ is_nan (get3 raw b i k)) ->
           (forall k, k < c -> fle (get3 raw b i k) mx) /\
           (exists k, k < c /\ get3 raw b i k = mx))) /\
      (forall j k, j < c -> k < c ->
         fle (get3 raw b i k) (get3 raw b i j) ->
         ~ is_nan (get3 att b i j) -> ~ is_nan (get3 att b i k) ->
         fle (get3 att b i j) (get3 att b i k)).
Proof.
  intros Hfm.
  destruct (@CAM_similarity_ok _ _ _ _ _ _ Hfm) as (raw & Er & Sr).
  destruct (@stabilize_get3 _ _ _ _ _ (proj1 Sr)) as (stab & Es & Ss & Hst).
  destruct (@softmax_ok _ _ _ _ _ (proj1 Ss)) as (att & Ea & Sa).
  assert (Hc : 0 < c) by apply Hfm.
  exists raw, stab, att.
  split; [exact Er|]. split; [exact Sr|]. split; [exact Es|].
  split; [exact Ea|].
  split. { unfold CAM.attention. rewrite Er. cbn [rbind]. now rewrite Es. }
  split; [exact Sa|].
  intros b i Hb Hi.
  assert (Hraw : forall k, get3 raw b i k = at_ raw ((b * c + i) * c + k)).
  { intros k. unfold get3. now rewrite (proj1 Sr). }
  split.
  - exists (T.row_max raw ((b * c + i) * c) c). split.
    + intros j Hj. now apply Hst.
    + intros Nn.
      destruct (@row_max_spec _ _ raw ((b * c + i) * c) c Hc) as (Hub & k & Hk & E).
      { intros s Hs. rewrite <- Hraw. now apply Nn. }
      split.
      * intros k' Hk'. rewrite Hraw. now apply Hub.
      * exists k. split; [exact Hk|]. now rewrite Hraw.
  - intros j k Hj Hk Hle Nj Nk.
    apply (@softmax_monotone _ _ stab att n c c b i j k (proj1 Ss) Ea);
      try assumption.
    pose proof Nj as Nj'. pose proof Nk as Nk'.
    rewrite (@softmax_get3 _ stab att n c c b i j (proj1 Ss) Ea Hb Hi Hj) in Nj'.
    rewrite (@softmax_get3 _ stab att n c c b i k (proj1 Ss) Ea Hb Hi Hk) in Nk'.
    apply fdiv_not_nan in Nj'. apply fdiv_not_nan in Nk'.
    destruct Nj' as [Nj' _]. destruct Nk' as [Nk' _].
    apply fexp_not_nan, fsub_not_nan in Nj'. apply fexp_not_nan, fsub_not_nan in Nk'.
    destruct Nj' as [Nj' _]. destruct Nk' as [Nk' _].
    rewrite (Hst b i j Hb Hi Hj) in *. rewrite (Hst b i k Hb Hi Hk) in *.
    now apply fsub_le_r.
Qed.

(** The attended features of CAM.forward, entry by entry. *)
Lemma CAM_attended_entries (x : tensor) (n c h w : nat) :
  feature_map x n c h w ->
  exists att feat,
    CAM.attention x = Ok att /\ shaped att [n; c; c] /\
    CAM.attended x = Ok feat /\ shaped feat [n; c; h; w] /\
    forall b i s, b < n -> i < c -> s < h * w ->
      get4s feat b i s =
      fsum c (fun k => fmul (get3 att b i k) (get4s x b k s)).
Proof.
  intros Hfm.
  destruct (@CAM_attention_ok _ _ _ _ _ _ Hfm)
    as (raw & stab & att & _ & _ & _ & _ & _ & Sa & Ea).
  destruct Hfm as (Sx & Hn & Hc & Hh & Hw).
  assert (Hhw : 0 < h * w) by nia.
  unfold CAM.attended. rewrite (proj1 Sx), Ea. cbn [rbind].
  step (@reshape_ok3 _ x _ n c (h * w) Sx Hn Hc Hhw ltac:(simpl; lia)) v Eo1 So1.
  destruct So1 as (So1 & Dv).
  destruct (@bmm_ok _ att v n c c (h * w) (proj1 Sa) (proj1 So1))
    as (f1 & Eo2 & So2).
  rewrite Eo2. cbn [rbind].
  destruct (@reshape_ok4 _ f1 _ n c h w So2 Hn Hc Hh Hw ltac:(simpl; lia))
    as (f2 & Eo3 & So3 & Df).
  exists att, f2. split; [reflexivity|]. split; [exact Sa|].
  split; [exact Eo3|]. split; [exact So3|].
  intros b i s Hb Hi Hs.
  rewrite <- (@flatten_get3 _ f2 f1 n c h w b i s
                (proj1 So3) (proj1 So2) (eq_sym Df)).
  rewrite (@bmm_get3 _ att v f1 n c c (h * w) b i s
             (proj1 Sa) (proj1 So1) Eo2 Hb Hi Hs).
  apply fsum_ext. intros k Hk.
  now rewrite (@flatten_get3 _ x v n c h w b k s (proj1 Sx) (proj1 So1) Dv).
Qed.

End ChannelWeights.

Lemma CAM_max_gets_min_weight_witness :
  exists raw att,
    CAM.similarity x_1811 = Ok raw /\ CAM.attention x_1811 = Ok att /\
    forall i j k, i < 8 -> j < 8 -> k < 8 ->
      (get3 raw 0 i k <= get3 raw 0 i j)%R ->
      (get3 att 0 i j <= get3 att 0 i k)%R.
Proof.
  destruct (@CAM_max_gets_min_weight real_arith real_laws x_1811 1 8 1 1
              x_1811_feature_map)
    as (raw & stab & att & Er & _ & _ & _ & Ea & _ & H).
  exists raw, att. split; [exact Er|]. split; [exact Ea|].
  intros i j k Hi Hj Hk Hle.
  destruct (H 0 i Nat.lt_0_1 Hi) as (_ & Hord).
  apply (Hord j k Hj Hk Hle); intros [].
Defined.

(* ================================================================== *)
(** * Overflow in the channel attention module *)

Lemma round_overflow (r : R) : (F32.max_value < r)%R -> F32.round r = F32.PInf.
Proof.
  intros H. destruct (round_cases r) as [[_ E] | [[? _] | [[? ?] _]]];
    [exact E | |]; pose proof max_value_pos; lra.
Qed.

Lemma round_in_range (r : R) :
  (- F32.max_value <= r <= F32.max_value)%R -> F32.round r = F32.Fin r.
Proof.
  intros H. destruct (round_cases r) as [[? _] | [[? _] | [_ E]]];
    [lra | lra | exact E].
Qed.

Lemma F32_add_round_zero (r : R) :
  F32.add (F32.round r) (F32.Fin 0) = F32.round r.
Proof.
  destruct (round_cases r) as [[_ ->] | [[_ ->] | [_ E]]]; try reflexivity.
  rewrite E. cbn. destruct (Req_dec_T r 0) as [-> | _]; [reflexivity|].
  now rewrite Rplus_0_r.
Qed.

(** In float arithmetic, an entry of the raw similarity matrix that is +inf,
    in a row without NaN, gets the weight NaN: the row's maximum is +inf and
    inf - inf is NaN. *)
Lemma overflow_gives_nan_weight
      (x raw att : @tensor float_arith) (n c h w b i j : nat) :
  feature_map x n c h w ->
  CAM.similarity x = Ok raw -> CAM.attention x = Ok att ->
  b < n -> i < c -> j < c ->
  get3 raw b i j = F32.PInf ->
  (forall k, k < c -> ~ F32.nan (get3 raw b i k)) ->
  get3 att b i j = F32.NaN.
Proof.
  intros Hfm Er Ea Hb Hi Hj Einf Nn.
  destruct (@CAM_attention_ok float_arith x n c h w Hfm)
    as (raw' & stab & att' & Er' & Sr & Es & Ss & Esm & _ & Ea').
  rewrite Er in Er'. injection Er' as <-.
  rewrite Ea in Ea'. injection Ea' as <-.
  destruct (@stabilize_get3 float_arith raw n c c (proj1 Sr))
    as (stab' & Es' & _ & Hst).
  rewrite Es in Es'. injection Es' as <-.
  assert (Hc : 0 < c) by lia.
  assert (Hraw : forall k, get3 raw b i k = at_ raw ((b * c + i) * c + k)).
  { intros k. unfold get3. now rewrite (proj1 Sr). }
  destruct (@row_max_spec float_arith float_laws raw ((b * c + i) * c) c Hc)
    as (Hub & _).
  { intros s Hs. rewrite <- Hraw. now apply Nn. }
  assert (Emx : T.row_max raw ((b * c + i) * c) c = F32.PInf).
  { specialize (Hub j Hj). rewrite <- Hraw, Einf in Hub.
    destruct (T.row_max raw ((b * c + i) * c) c); cbn in Hub;
      tauto || reflexivity. }
  rewrite (@softmax_get3 float_arith stab att n c c b i j (proj1 Ss) Esm Hb Hi Hj).
  rewrite (Hst b i j Hb Hi Hj), Einf, Emx. reflexivity.
Qed.

Lemma huge_1111_feature_map : feature_map huge_1111 1 1 1 1.
Proof. unfold feature_map, shaped, wf. cbn. repeat split; lia. Qed.

Lemma huge_1211_feature_map : feature_map huge_1211 1 2 1 1.
Proof. unfold feature_map, shaped, wf. cbn. repeat split; lia. Qed.

(** 10^20 * 10^20 is beyond the largest float32 number. *)
Lemma huge_square_overflows :
  F32.round (100000000000000000000 * 100000000000000000000) = F32.PInf.
Proof. apply round_overflow. unfold F32.max_value. lra. Qed.

Lemma huge_times_one :
  F32.round (100000000000000000000 * 1) = F32.Fin (100000000000000000000 * 1).
Proof. apply round_in_range. unfold F32.max_value. lra. Qed.

(** The channel attention weight of the one channel of [huge_1111] is NaN. *)
Lemma huge_1111_weight :
  exists att, CAM.attention huge_1111 = Ok att /\ get3 att 0 0 0 = F32.NaN.
Proof.
  destruct (@CAM_similarity_entries float_arith huge_1111 1 1 1 1
              huge_1111_feature_map) as (raw & Er & Sr & Hraw).
  destruct (@CAM_attention_ok float_arith huge_1111 1 1 1 1
              huge_1111_feature_map)
    as (raw' & stab & att & _ & _ & _ & _ & _ & _ & Ea).
  exists att. split; [exact Ea|].
  assert (E00 : get3 raw 0 0 0 = F32.PInf).
  { rewrite Hraw by lia. cbn.
    now rewrite huge_square_overflows. }
  apply (@overflow_gives_nan_weight huge_1111 raw att 1 1 1 1 0 0 0
           huge_1111_feature_map Er Ea); try lia; [exact E00|].
  intros k Hk. assert (k = 0) as -> by lia. rewrite E00. cbn. tauto.
Qed.

(** C1 as stated fails on both modules.  A freshly constructed PAM for 4
    channels holds the gate value 0 and raises on an input of 4 channels: its
    query convolution has 4 // 8 = 0 output channels.  In float arithmetic a
    freshly constructed CAM returns NaN on the input that holds 10^20: the
    similarity 10^40 overflows to +inf, inf - inf is NaN and 0 * NaN is
    NaN. *)
Lemma zero_gate_not_identity :
  (exists p w1,
      @PAM.new real_arith 4 empty_world = (Ok p, w1) /\
      PAM.gamma p = @mkTensor real_arith [1] [0%R] /\
      PAM.forward p x_1411 = Raise (InvalidArgument "conv2d")) /\
  @CAM.gamma float_arith CAM.new = @mkTensor float_arith [1] [F32.Fin 0] /\
  CAM.forward CAM.new huge_1111 = Ok (@mkTensor float_arith [1; 1; 1; 1] [F32.NaN]) /\
  @mkTensor float_arith [1; 1; 1; 1] [F32.NaN] <> huge_1111.
Proof.
  split; [|split; [reflexivity | split]].
  - destruct (@PAM_new_ok real_arith 4 empty_world) as (p & w1 & E & Hp & Hg).
    exists p, w1. split; [exact E|]. split; [exact Hg|].
    apply (@PAM_too_few_channels real_arith p 4 x_1411 1 4 1 1 Hp);
      [lia | reflexivity].
  - destruct (@CAM_zero_gate float_arith float_laws CAM.new huge_1111 1 1 1 1
                eq_refl huge_1111_feature_map)
      as (feat & y & Ef & Ey & Hsh & Hwf & Hk & _).
    rewrite Ey. f_equal.
    destruct huge_1111_weight as (att & Ea & Eatt).
    destruct (@CAM_attended_entries float_arith huge_1111 1 1 1 1
                huge_1111_feature_map)
      as (att' & feat' & Ea' & _ & Ef' & Sf & Hfeat).
    rewrite Ea in Ea'. injection Ea' as <-.
    rewrite Ef in Ef'. injection Ef' as <-.
    assert (Nf : ~ F32.finite (at_ feat 0)).
    { assert (E : at_ feat 0 = get4s feat 0 0 0)
        by (unfold get4s; now rewrite (proj1 Sf)).
      rewrite E, Hfeat by lia. cbn. rewrite Eatt. cbn. tauto. }
    destruct (Hk 0 ltac:(cbn; lia)) as (_ & Hnan).
    specialize (Hnan Nf).
    destruct y as [s d]. cbn [shape] in Hsh. subst s.
    unfold wf in Hwf. cbn in Hwf.
    destruct d as [|a [|? ?]]; try discriminate.
    unfold at_ in Hnan. cbn in Hnan.
    destruct a; cbn in Hnan; try contradiction. reflexivity.
  - discriminate.
Qed.

(** C2 as stated fails in float arithmetic.  On the input that holds 10^20
    and 1 in its two channels, entry (0, 0) of the raw similarity matrix is
    +inf, the maximum of its row; its weight is NaN, which is not smaller
    than or equal to any weight. *)
Lemma max_weight_is_nan_on_overflow :
  exists raw att,
    CAM.similarity huge_1211 = Ok raw /\ CAM.attention huge_1211 = Ok att /\
    get3 raw 0 0 0 = F32.PInf /\
    (forall k, k < 2 -> F32.le (get3 raw 0 0 k) (get3 raw 0 0 0)) /\
    get3 att 0 0 0 = F32.NaN /\
    ~ F32.le (get3 att 0 0 0) (get3 att 0 0 1).
Proof.
  destruct (@CAM_similarity_entries float_arith huge_1211 1 2 1 1
              huge_1211_feature_map) as (raw & Er & Sr & Hraw).
  destruct (@CAM_attention_ok float_arith huge_1211 1 2 1 1
              huge_1211_feature_map)
    as (raw' & stab & att & _ & _ & _ & _ & _ & _ & Ea).
  exists raw, att. split; [exact Er|]. split; [exact Ea|].
  assert (E00 : get3 raw 0 0 0 = F32.PInf).
  { rewrite Hraw by lia. cbn. now rewrite huge_square_overflows. }
  assert (E01 : get3 raw 0 0 1 = F32.Fin (100000000000000000000 * 1)).
  { rewrite Hraw by lia. cbn.
    rewrite <- huge_times_one. apply F32_add_round_zero. }
  assert (Nn : forall k, k < 2 -> ~ F32.nan (get3 raw 0 0 k)).
  { intros k Hk. destruct k as [|[|k]]; [rewrite E00 | rewrite E01 | lia];
      cbn; tauto. }
  assert (Eatt : get3 att 0 0 0 = F32.NaN).
  { apply (@overflow_gives_nan_weight huge_1211 raw att 1 2 1 1 0 0 0
             huge_1211_feature_map Er Ea); try lia; assumption. }
  split; [exact E00|]. split; [|split; [exact Eatt|]].
  - intros k Hk. rewrite E00. destruct k as [|[|k]]; [rewrite E00 | rewrite E01 | lia];
      exact I.
  - rewrite Eatt. cbn. tauto.
Qed.

(* ================================================================== *)
(** * Reasoning in the monad *)

Lemma bind_ok {X Y} (m : M X) (f : X -> M Y) (w w1 : world) (a : X) :
  m w = (Ok a, w1) -> bind m f w = f a w1.
Proof. intros E. unfold bind. now rewrite E. Qed.

Lemma bind_raise {X Y} (m : M X) (f : X -> M Y) (w w1 : world) (e : exn) :
  m w = (Raise e, w1) -> bind m f w = (Raise e, w1).
Proof. intros E. unfold bind. now rewrite E. Qed.

Lemma bind_inv {X Y} (m : M X) (f : X -> M Y) (w w2 : world) (b : Y) :
  bind m f w = (Ok b, w2) ->
  exists a w1, m w = (Ok a, w1) /\ f a w1 = (Ok b, w2).
Proof.
  unfold bind. destruct (m w) as [[a | e] w1]; intros E.
  - now exists a, w1.
  - discriminate.
Qed.

Lemma quiet_ret {X} (a : X) : quiet (ret a).
Proof. intros w. now split. Qed.

Lemma quiet_raise {X} (e : exn) : quiet (@raise X e).
Proof. intros w. now split. Qed.

Lemma quiet_lift {X} (r : result X) : quiet (lift r).
Proof. intros w. now split. Qed.

Lemma quiet_with_gen {X} (f : generator -> result X * generator) :
  quiet (with_gen f).
Proof. intros w. unfold with_gen. destruct (f (gen w)). now split. Qed.

Lemma quiet_bind {X Y} (m : M X) (f : X -> M Y) :
  quiet m -> (forall a, quiet (f a)) -> quiet (bind m f).
Proof.
  intros Hm Hf w. unfold bind. specialize (Hm w).
  destruct (m w) as [[a | e] w1]; simpl in Hm.
  - destruct (Hf a w1) as [F E]. destruct Hm as [F1 E1].
    split; congruence.
  - exact Hm.
Qed.

Create HintDb quiet.
#[export] Hint Resolve quiet_ret quiet_raise quiet_lift quiet_with_gen : quiet.

Ltac quiet_tac :=
  repeat first
    [ apply quiet_bind; [| intros ?]
    | solve [auto with quiet] ].

Lemma py_index_last {X} (pre : list X) (a : X) :
  py_index (pre ++ [a]) (-1) = Ok a.
Proof.
  unfold py_index. rewrite length_app. simpl length.
  replace (-1 <? 0)%Z with true by reflexivity.
  assert (E : (Z.of_nat (length pre + 1) + -1 = Z.of_nat (length pre))%Z) by lia.
  rewrite E.
  destruct (Z.leb_spec 0 (Z.of_nat (length pre))); [|lia].
  destruct (Z.ltb_spec (Z.of_nat (length pre)) (Z.of_nat (length pre + 1)));
    [|lia].
  cbn [andb]. rewrite Nat2Z.id.
  rewrite nth_error_app2 by lia. now rewrite Nat.sub_diag.
Qed.

Lemma py_index_nil {X} (i : Z) : @py_index X [] i = Raise IndexError.
Proof.
  unfold py_index. simpl length.
  destruct (i <? 0)%Z eqn:E.
  - apply Z.ltb_lt in E.
    destruct (Z.leb_spec 0 (Z.of_nat 0 + i)); [lia | reflexivity].
  - apply Z.ltb_ge in E.
    destruct (Z.leb_spec 0 i); [|lia].
    destruct (Z.ltb_spec i (Z.of_nat 0)); [lia | reflexivity].
Qed.

(* ================================================================== *)
(** * The classification heads *)

Section Heads.
Context {A : Arith}.

(** In evaluation mode a head reads no random bit: the world is unchanged and
    the result does not depend on it. *)
Lemma Head_forward_eval (hd : Head.t) (x : tensor) (w w' : world) :
  snd (Head.forward hd false x w) = w /\
  fst (Head.forward hd false x w) = fst (Head.forward hd false x w').
Proof.
  unfold Head.forward, Dropout2d, bind, ret, raise, lift.
  destruct (shape x) as [|n [|c [|h [|wd [|? ?]]]]]; cbn; now split.
Qed.

(** In training mode a head on a rank-4 input draws one mask of n*c bits. *)
Lemma Head_forward_train (hd : Head.t) (x : tensor) (n c h wd : nat) (w : world) :
  shape x = [n; c; h; wd] ->
  Head.forward hd true x w =
  (Conv2d.forward (Head.conv hd)
     (drop_channels (1 / 10) (dropout_mask (gen w) (n * c)) x h wd),
   mkWorld (advance (n * c) (gen w)) (files w) (events w)).
Proof.
  intros Hs. unfold Head.forward, Dropout2d, bind, ret, lift, draw_keeps,
    with_gen. rewrite Hs. reflexivity.
Qed.

End Heads.

Section HeadTheorems.
Context {A : Arith} {B : Blocks}.

(** What a successful run of source lines 147-151 computed, in order. *)
Lemma heads_inv (hd : DAHead.t) (tr : bool) (cf pf : tensor)
      (w0 w3 : world) (out : list tensor) :
  DAHead.heads hd tr cf pf w0 = (Ok out, w3) ->
  exists feats_sum cam_logit pam_logit logit w1 w2,
    T.add pf cf = Ok feats_sum /\
    Head.forward (DAHead.aux_head_cam hd) tr cf w0 = (Ok cam_logit, w1) /\
    Head.forward (DAHead.aux_head_cam hd) tr pf w1 = (Ok pam_logit, w2) /\
    Head.forward (DAHead.cls_head hd) tr feats_sum w2 = (Ok logit, w3) /\
    out = [logit; cam_logit; pam_logit].
Proof.
  unfold DAHead.heads. intros E.
  apply bind_inv in E. destruct E as (fs & wa & Ea & E).
  unfold lift in Ea. injection Ea as Ea <-.
  apply bind_inv in E. destruct E as (cl & w1 & Ec & E).
  apply bind_inv in E. destruct E as (pl & w2 & Ep & E).
  apply bind_inv in E. destruct E as (lg & w3' & El & E).
  unfold ret in E. injection E as <- <-.
  now exists fs, cl, pl, lg, w1, w2.
Qed.

(** Source lines 147-151: the two auxiliary logits come from the one head
    [aux_head_cam]; on equal inputs they are equal in evaluation mode, and in
    training mode when the two dropout masks coincide. *)
Lemma heads_shared (hd : DAHead.t) (tr : bool) (cf pf : tensor)
      (n c h wd : nat) (w0 w3 : world) (logit cam_logit pam_logit : tensor) :
  DAHead.heads hd tr cf pf w0 = (Ok [logit; cam_logit; pam_logit], w3) ->
  shape cf = [n; c; h; wd] ->
  (exists w1 w2,
      Head.forward (DAHead.aux_head_cam hd) tr cf w0 = (Ok cam_logit, w1) /\
      Head.forward (DAHead.aux_head_cam hd) tr pf w1 = (Ok pam_logit, w2)) /\
  (cf = pf ->
   tr = false \/
   dropout_mask (gen w0) (n * c) =
   dropout_mask (advance (n * c) (gen w0)) (n * c) ->
   cam_logit = pam_logit).
Proof.
  intros E Hs.
  destruct (@heads_inv _ _ _ _ _ _ _ E)
    as (fs & cl & pl & lg & w1 & w2 & _ & Ec & Ep & _ & Eout).
  injection Eout as _ <- <-.
  split; [now exists w1, w2|].
  intros <- Hmode. destruct tr.
  - destruct Hmode as [? | Hmask]; [discriminate|].
    rewrite (@Head_forward_train _ _ _ _ _ _ _ w0 Hs) in Ec.
    injection Ec as Ec <-.
    rewrite (@Head_forward_train _ _ _ _ _ _ _ _ Hs) in Ep. cbn [gen] in Ep.
    injection Ep as Ep _.
    rewrite <- Hmask in Ep. congruence.
  - destruct (Head_forward_eval (DAHead.aux_head_cam hd) cf w0 w1) as [_ Ef].
    rewrite Ec, Ep in Ef. cbn [fst] in Ef. congruence.
Qed.

(** DAHead.forward is the two branches on the last feature map followed by
    the three heads. *)
Lemma forward_is_branches_then_heads (hd : DAHead.t) (tr : bool)
      (pre : list tensor) (t cf pf : tensor) (w0 : world) :
  DAHead.branches hd tr t = Ok (cf, pf) ->
  DAHead.forward hd tr (pre ++ [t]) w0 = DAHead.heads hd tr cf pf w0.
Proof.
  intros Eb. unfold DAHead.forward, bind, lift.
  now rewrite py_index_last, Eb.
Qed.

(** C5 (amended).  In a forward call of DAHead both auxiliary logits are
    produced by the one head [aux_head_cam] (the same weights), applied first
    to the refined channel features and then to the refined position
    features.  When the two refined features are equal, the two auxiliary
    logits are equal provided dropout is inactive (evaluation mode) or the two
    applications draw the same dropout mask. *)
Theorem shared_aux_head (hd : DAHead.t) (tr : bool) (pre : list tensor)
        (t cf pf : tensor) (n c h wd : nat) (w0 w3 : world)
        (logit cam_logit pam_logit : tensor) :
  DAHead.branches hd tr t = Ok (cf, pf) ->
  DAHead.forward hd tr (pre ++ [t]) w0 = (Ok [logit; cam_logit; pam_logit], w3) ->
  shape cf = [n; c; h; wd] ->
  (exists w1 w2,
      Head.forward (DAHead.aux_head_cam hd) tr cf w0 = (Ok cam_logit, w1) /\
      Head.forward (DAHead.aux_head_cam hd) tr pf w1 = (Ok pam_logit, w2)) /\
  (cf = pf ->
   tr = false \/
   dropout_mask (gen w0) (n * c) =
   dropout_mask (advance (n * c) (gen w0)) (n * c) ->
   cam_logit = pam_logit).
Proof.
  intros Eb E Hs.
  rewrite (@forward_is_branches_then_heads hd tr pre t cf pf w0 Eb) in E.
  exact (@heads_shared hd tr cf pf n c h wd w0 w3 _ _ _ E Hs).
Qed.

(** C6.  DAHead.forward consumes only the last element of its input list:
    two non-empty lists with the same last element give the same outcome
    (result and generator state), whatever their other elements are. *)
Theorem DAHead_uses_last_only (hd : DAHead.t) (tr : bool)
        (pre1 pre2 : list tensor) (t : tensor) (w0 : world) :
  DAHead.forward hd tr (pre1 ++ [t]) w0 = DAHead.forward hd tr (pre2 ++ [t]) w0 /\
  DAHead.forward hd tr (pre1 ++ [t]) w0 = DAHead.forward hd tr [t] w0.
Proof.
  unfold DAHead.forward, bind, lift.
  pose proof (py_index_last [] t) as E0. cbn [app] in E0.
  rewrite !py_index_last, E0. now split.
Qed.

End HeadTheorems.

(** In real arithmetic every number is finite: with the gate at 0 the forward
    pass of either attention module returns its input. *)
Lemma real_PAM_zero_gate (p : @PAM.t real_arith) (c : nat)
      (x : @tensor real_arith) (n h w : nat) :
  PAM_shaped p c -> 8 <= c -> PAM.gamma p = @mkTensor real_arith [1] [0%R] ->
  feature_map x n c h w -> PAM.forward p x = Ok x.
Proof.
  intros Hp H8 Hg Hfm.
  destruct (@PAM_zero_gate real_arith real_laws p c x n h w Hp H8 Hg Hfm)
    as (feat & y & _ & Ey & _ & _ & _ & Hid).
  rewrite Ey. f_equal. apply Hid, real_all_finite.
Qed.

Lemma real_CAM_zero_gate (q : @CAM.t real_arith) (x : @tensor real_arith)
      (n c h w : nat) :
  CAM.gamma q = @mkTensor real_arith [1] [0%R] ->
  feature_map x n c h w -> CAM.forward q x = Ok x.
Proof.
  intros Hg Hfm.
  destruct (@CAM_zero_gate real_arith real_laws q x n c h w Hg Hfm)
    as (feat & y & _ & Ey & _ & _ & _ & Hid).
  rewrite Ey. f_equal. apply Hid, real_all_finite.
Qed.

(** Evaluation of a convolution, of dropout and of sums on real samples. *)
Ltac run_real :=
  unfold at_, Conv2d.forward, drop_channels, tabulate, fsum;
  cbn; cbn [num fzero of_real fadd fsub fmul fdiv real_arith].

(** Source lines 147-151 in training mode, on equal refined features (one
    channel of value 1): the first mask keeps the channel, the second drops
    it, and the two auxiliary logits are 10/9 and 0. *)
Lemma heads_aux_logits_differ :
  exists logit cam_logit pam_logit w3,
    DAHead.heads unit_head true one_1111 one_1111
      (mkWorld keep_then_drop (fun _ => false) [])
    = (Ok [logit; cam_logit; pam_logit], w3) /\
    at_ cam_logit 0 = (10 / 9)%R /\ at_ pam_logit 0 = 0%R /\
    cam_logit <> pam_logit.
Proof.
  do 4 eexists. split; [reflexivity|].
  split; [|split].
  - run_real. lra.
  - run_real. lra.
  - intros Heq. apply (f_equal (fun t => at_ t 0)) in Heq.
    revert Heq. run_real. lra.
Qed.

Lemma ones_shaped {A : Arith} (s : list nat) : shaped (ones s) s.
Proof. split; [reflexivity|]. unfold wf, ones. cbn. apply repeat_length. Qed.

Lemma ones_feature_map {A : Arith} (n c h w : nat) :
  0 < n -> 0 < c -> 0 < h -> 0 < w -> feature_map (ones [n; c; h; w]) n c h w.
Proof. intros. split; [apply ones_shaped | tauto]. Qed.

(** With both gates at 0 and the stand-in blocks, the two refined features
    of [summing_head] on [feat_32] are equal. *)
Lemma summing_head_branches (tr : bool) :
  DAHead.branches summing_head tr feat_32
  = Ok (ones [1; 8; 1; 1], ones [1; 8; 1; 1]).
Proof.
  unfold DAHead.branches.
  cbn [DAHead.channel_conv DAHead.position_conv DAHead.cam DAHead.pam
       DAHead.conv1 DAHead.conv2 summing_head].
  assert (F : feature_map (@ones real_arith [1; 8; 1; 1]) 1 8 1 1)
    by (apply ones_feature_map; lia).
  assert (E : @ConvBNReLU_forward real_arith stub_blocks (32, 8) tr feat_32
              = Ok (ones [1; 8; 1; 1])) by reflexivity.
  assert (E' : @ConvBNReLU_forward real_arith stub_blocks (8, 8) tr
                 (ones [1; 8; 1; 1])
               = Ok (ones [1; 8; 1; 1])) by reflexivity.
  assert (P : PAM_shaped (@PAM.mk real_arith (conv_zero 8 1) (conv_zero 8 1)
                            (conv_zero 8 8) (@mkTensor real_arith [1] [0%R])) 8)
    by (repeat split).
  rewrite E. cbn [rbind].
  rewrite (@real_CAM_zero_gate CAM.new _ 1 8 1 1 eq_refl F). cbn [rbind].
  rewrite E'. cbn [rbind].
  rewrite (@real_PAM_zero_gate _ 8 _ 1 1 1 P (le_n 8) eq_refl F). cbn [rbind].
  rewrite E'. reflexivity.
Qed.

Lemma forward_eval_sample :
  exists logit cam_logit pam_logit w3,
    DAHead.forward summing_head false [feat_16; feat_32] empty_world
    = (Ok [logit; cam_logit; pam_logit], w3).
Proof.
  change [feat_16; feat_32] with ([feat_16] ++ [feat_32]).
  rewrite (@forward_is_branches_then_heads real_arith stub_blocks summing_head
             false [feat_16] feat_32 _ _ empty_world
             (summing_head_branches false)).
  do 4 eexists. reflexivity.
Qed.

Lemma shared_aux_head_witness :
  exists logit cam_logit pam_logit w3,
    DAHead.forward summing_head false [feat_16; feat_32] empty_world
    = (Ok [logit; cam_logit; pam_logit], w3) /\
    cam_logit = pam_logit.
Proof.
  destruct forward_eval_sample as (l & a & b & w3 & E).
  exists l, a, b, w3. split; [exact E|].
  apply (@shared_aux_head real_arith stub_blocks summing_head false [feat_16]
           feat_32 (ones [1; 8; 1; 1]) (ones [1; 8; 1; 1]) 1 8 1 1 empty_world
           w3 l a b (summing_head_branches false) E eq_refl).
  - reflexivity.
  - now left.
Defined.

(** C5 as stated fails: a forward call in training mode in which the refined
    channel features equal the refined position features, and the two
    auxiliary logits differ (80/9 and 0), because the two applications of the
    shared head draw different dropout masks. *)
Lemma aux_logits_differ_in_training :
  exists cf logit cam_logit pam_logit w3,
    DAHead.branches summing_head true feat_32 = Ok (cf, cf) /\
    DAHead.forward summing_head true [feat_16; feat_32]
      (mkWorld keep_8_then_drop (fun _ => false) [])
    = (Ok [logit; cam_logit; pam_logit], w3) /\
    at_ cam_logit 0 = (80 / 9)%R /\ at_ pam_logit 0 = 0%R /\
    cam_logit <> pam_logit.
Proof.
  exists (ones [1; 8; 1; 1]).
  unfold DAHead.forward.
  change [feat_16; feat_32] with ([feat_16] ++ [feat_32]).
  unfold bind at 1, lift at 1. rewrite py_index_last.
  unfold bind at 1, lift at 1. rewrite summing_head_branches. cbn [fst snd].
  do 4 eexists. split; [reflexivity|]. split; [reflexivity|].
  split; [|split].
  - run_real. lra.
  - run_real. lra.
  - intros Heq. apply (f_equal (fun t => at_ t 0)) in Heq.
    revert Heq. run_real. lra.
Qed.

(* ================================================================== *)
(** * Construction of the network *)

Lemma quiet_draw_normals (n : nat) : quiet (draw_normals n).
Proof. apply quiet_with_gen. Qed.

Section QuietLayers.
Context {A : Arith}.

Lemma quiet_normal_init (t : tensor) (s : R) : quiet (normal_init t s).
Proof. unfold normal_init. apply quiet_bind; [apply quiet_draw_normals|].
  intros ?. apply quiet_ret. Qed.

Lemma quiet_Conv2d_new (a b k : nat) : quiet (Conv2d.new a b k).
Proof. unfold Conv2d.new. apply quiet_bind; [apply quiet_draw_normals|].
  intros ?. apply quiet_ret. Qed.

Hint Resolve quiet_draw_normals quiet_normal_init quiet_Conv2d_new : quiet.

Lemma quiet_Head_new (a b : nat) : quiet (Head.new a b).
Proof. unfold Head.new. quiet_tac. Qed.

Lemma quiet_Head_init_weight (hd : Head.t) : quiet (Head.init_weight hd).
Proof. unfold Head.init_weight. quiet_tac. Qed.

Lemma quiet_PAM_new (c : nat) : quiet (PAM.new c).
Proof. unfold PAM.new. quiet_tac. Qed.

Lemma quiet_PAM_init_weight (p : PAM.t) : quiet (PAM.init_weight p).
Proof. unfold PAM.init_weight. quiet_tac. Qed.

End QuietLayers.

#[export] Hint Resolve quiet_draw_normals quiet_normal_init quiet_Conv2d_new
  quiet_Head_new quiet_Head_init_weight quiet_PAM_new quiet_PAM_init_weight
  : quiet.

Section Construction.
Context {A : Arith} {B : Blocks}.

Lemma quiet_cbr_new (a b k : nat) : quiet (cbr_new a b k).
Proof. apply quiet_with_gen. Qed.

Lemma quiet_cbr_init_weight (b : ConvBNReLU) : quiet (cbr_init_weight b).
Proof. apply quiet_with_gen. Qed.

Hint Resolve quiet_cbr_new quiet_cbr_init_weight : quiet.

Lemma quiet_DAHead_init_weight (hd : DAHead.t) : quiet (DAHead.init_weight hd).
Proof. unfold DAHead.init_weight. quiet_tac. Qed.

Lemma quiet_DAHead_new (nc : nat) (chans : option (list nat)) :
  quiet (DAHead.new nc chans).
Proof.
  unfold DAHead.new. destruct chans as [chans|]; [|apply quiet_raise].
  quiet_tac; try apply quiet_DAHead_init_weight.
Qed.

Lemma quiet_select {X} (l : list X) (idx : option (list Z)) :
  quiet (DANet.select l idx).
Proof. unfold DANet.select. destruct idx; auto with quiet. Qed.

Lemma quiet_assemble (nc : nat) (bb : backbone) (idx : option (list Z)) :
  quiet (DANet.assemble nc bb idx).
Proof.
  unfold DANet.assemble.
  apply quiet_bind; [apply quiet_select | intros ?].
  apply quiet_bind; [apply quiet_DAHead_new | intros ?]. apply quiet_ret.
Qed.

Context {L : DANet.Loader}.

(** DANet.__init__ is the assembly of the network followed by init_weight. *)
Lemma new_is_assemble_then_init (nc : nat) (bb : backbone)
      (pretrained : option string) (idx : option (list Z)) (w0 : world) :
  DANet.new nc bb pretrained idx w0 =
  bind (DANet.assemble nc bb idx)
       (fun m => DANet.init_weight m pretrained) w0.
Proof.
  unfold DANet.new, DANet.assemble, bind, ret.
  destruct (DANet.select (feat_channels bb) idx w0) as [[ic | e] wa];
    [|reflexivity].
  destruct (DAHead.new nc (Some ic) wa) as [[hd | e] wb]; reflexivity.
Qed.

(** init_weight on a path that does not exist. *)
Lemma init_weight_missing (self : DANet.t) (path : string) (w : world) :
  files w path = false ->
  DANet.init_weight self (Some path) w =
  (Raise (Exception ("Pretrained model is not found: " ++ path)),
   mkWorld (gen w) (files w) (events w ++ [PathExists path])).
Proof.
  intros Hf. unfold DANet.init_weight, os_path_exists, bind, log, raise.
  cbn. now rewrite Hf.
Qed.

(** C7.  Constructing DANet with a pretrained path that does not exist
    raises: no network is returned, the loader is never called, and when the
    assembly of the network itself succeeds the exception is
    Exception('Pretrained model is not found: <path>'), raised right after
    the one filesystem check. *)
Theorem missing_pretrained_raises (nc : nat) (bb : backbone) (path : string)
        (idx : option (list Z)) (w0 : world) :
  files w0 path = false ->
  exists e w1 evs,
    DANet.new nc bb (Some path) idx w0 = (Raise e, w1) /\
    events w1 = events w0 ++ evs /\
    (forall p, ~ In (LoadPretrained p) evs) /\
    (forall m w', DANet.assemble nc bb idx w0 = (Ok m, w') ->
       e = Exception ("Pretrained model is not found: " ++ path) /\
       evs = [PathExists path]).
Proof.
  intros Hf. rewrite new_is_assemble_then_init. unfold bind.
  pose proof (quiet_assemble nc bb idx w0) as [Qf Qe].
  destruct (DANet.assemble nc bb idx w0) as [[m | e] wa]; cbn [snd] in Qf, Qe.
  - rewrite init_weight_missing by now rewrite Qf.
    eexists _, _, [PathExists path]. cbn [events].
    split; [reflexivity|]. split; [now rewrite Qe|]. split.
    + intros p [Hp | []]. discriminate.
    + intros m' w' E. now split.
  - exists e, wa, []. split; [reflexivity|].
    split; [now rewrite app_nil_r|]. split.
    + intros p [].
    + intros m w' E. discriminate.
Qed.

(** C10.  With pretrained=None, init_weight is a no-op: it returns the model
    as it is and leaves the world (filesystem, event log, generator) as it
    is.  Hence DANet.__init__ is the bare assembly of the network: it checks
    no path, calls no loader, raises only if the assembly does, and the head
    of the network it returns is the one DAHead.__init__ built. *)
Theorem default_pretrained_is_noop :
  (forall (self : DANet.t) (w : world),
      DANet.init_weight self None w = (Ok self, w)) /\
  (forall nc bb idx w0,
      DANet.new nc bb None idx w0 = DANet.assemble nc bb idx w0 /\
      files (snd (DANet.new nc bb None idx w0)) = files w0 /\
      events (snd (DANet.new nc bb None idx w0)) = events w0) /\
  (forall nc bb idx w0 m w1,
      DANet.new nc bb None idx w0 = (Ok m, w1) ->
      exists chans wa,
        DANet.select (feat_channels bb) idx w0 = (Ok chans, wa) /\
        DAHead.new nc (Some chans) wa = (Ok (DANet.head m), w1)).
Proof.
  split; [reflexivity|]. split.
  - intros nc bb idx w0.
    assert (E : DANet.new nc bb None idx w0 = DANet.assemble nc bb idx w0)
      by reflexivity.
    split; [exact E|]. rewrite E. apply quiet_assemble.
  - intros nc bb idx w0 m w1 E. unfold DANet.new in E.
    apply bind_inv in E. destruct E as (chans & wa & Es & E).
    apply bind_inv in E. destruct E as (hd & wb & Eh & E).
    cbn in E. injection E as <- <-.
    now exists chans, wa.
Qed.

End Construction.
(* ================================================================== *)
(** * The forward pass of the head and of the network *)

Lemma rmap_app_last {X Y} (f : X -> result Y) (l : list X) (a : X)
      (bs : list Y) (b : Y) :
  rmap f l = Ok bs -> f a = Ok b -> rmap f (l ++ [a]) = Ok (bs ++ [b]).
Proof.
  revert bs. induction l as [|x l IH]; intros bs El Ea; cbn in *.
  - injection El as <-. now rewrite Ea.
  - destruct (f x) as [y | e]; cbn in *; [|discriminate].
    destruct (rmap f l) as [ys | e]; cbn in *; [|discriminate].
    injection El as <-. now rewrite (IH ys eq_refl Ea).
Qed.

Section HeadForward.
Context {A : Arith}.

Lemma drop_channels_shaped (p : R) (mask : list bool) (x : tensor)
      (s : list nat) (h w : nat) :
  shape x = s -> shaped (drop_channels p mask x h w) s.
Proof.
  intros <-. unfold drop_channels. now apply shaped_mk.
Qed.

(** A head for at least one class on a rank-4 input with the channel count it
    was built for. *)
Lemma Head_forward_ok (hd : Head.t) (tr : bool) (x : tensor)
      (n c h wd nc : nat) (w0 : world) :
  Conv2d_shaped (Head.conv hd) c nc -> 0 < nc -> shape x = [n; c; h; wd] ->
  exists y w1, Head.forward hd tr x w0 = (Ok y, w1) /\ shaped y [n; nc; h; wd].
Proof.
  intros Hc Hnc Hs. destruct tr.
  - rewrite (@Head_forward_train _ hd x n c h wd w0 Hs).
    destruct (@conv2d_ok _ _ _ _
                (drop_channels (1 / 10) (dropout_mask (gen w0) (n * c)) x h wd)
                n h wd Hc Hnc
                (proj1 (@drop_channels_shaped _ _ _ _ _ _ Hs)))
      as (y & Ey & Sy).
    rewrite Ey. now exists y, (mkWorld (advance (n * c) (gen w0)) (files w0) (events w0)).
  - unfold Head.forward, Dropout2d, bind, ret, lift. rewrite Hs.
    destruct (@conv2d_ok _ _ _ _ x n h wd Hc Hnc Hs) as (y & Ey & Sy).
    rewrite Ey. now exists y, w0.
Qed.

Lemma shaped_feature_map (y x : tensor) (n c h w : nat) :
  shaped y [n; c; h; w] -> feature_map x n c h w -> feature_map y n c h w.
Proof. intros Sy (_ & P). now split. Qed.

End HeadForward.

Section Forward.
Context {A : Arith} {B : Blocks}.

Lemma branches_ok (hd : DAHead.t) (tr : bool) (t : tensor) (n cin nc h w : nat) :
  DAHead_shaped hd cin nc -> 8 <= cin / 4 -> feature_map t n cin h w ->
  exists cf pf,
    DAHead.branches hd tr t = Ok (cf, pf) /\
    feature_map cf n (cin / 4) h w /\ feature_map pf n (cin / 4) h w.
Proof.
  intros (Hcc & Hpc & Hpam & Hcam & Hc1 & Hc2 & _) H8 Ht.
  unfold DAHead.branches.
  step (Hcc tr t n h w Ht) y1 Eo1 So1.
  destruct (@CAM_forward_ok _ (DAHead.cam hd) _ _ _ _ _ Hcam So1)
    as (f1 & z1 & _ & _ & Eo2 & Sz1 & _).
  rewrite Eo2. cbn [rbind].
  step (Hc1 tr z1 n h w (@shaped_feature_map _ z1 y1 _ _ _ _ Sz1 So1)) cf Eo3 So3.
  step (Hpc tr t n h w Ht) y2 Eo4 So4.
  destruct (@PAM_forward_ok _ _ _ _ _ _ _ Hpam H8 So4)
    as (f2 & z2 & _ & _ & Eo5 & Sz2 & _).
  rewrite Eo5. cbn [rbind].
  step (Hc2 tr z2 n h w (@shaped_feature_map _ z2 y2 _ _ _ _ Sz2 So4)) pf Eo6 So6.
  now exists cf, pf.
Qed.

(** C8.  DANet.forward returns exactly three tensors: the head's main logit,
    channel-auxiliary logit and position-auxiliary logit, in this order, each
    resized by resize_bilinear to the input's spatial size, each of shape
    (N, num_classes, H_in, W_in).  The input image has positive height and
    width, the head is built for at least one class and for a feature map
    with at least 32 channels (so that its position attention module has at
    least 8 channels and its query convolution an output channel). *)
Theorem DANet_forward_outputs
        (self : DANet.t) (tr : bool) (x : tensor) (w0 w1 : world)
        (N Hin Win : nat) (feats : list tensor) (idxs : list Z)
        (pre : list tensor) (t : tensor) (cin h w nc : nat) :
  shape x = [N; 3; Hin; Win] -> 0 < Hin -> 0 < Win ->
  with_gen (backbone_forward (DANet.net_backbone self) tr x) w0 = (Ok feats, w1) ->
  DANet.backbone_indices self = Some idxs ->
  rmap (py_index feats) idxs = Ok (pre ++ [t]) ->
  feature_map t N cin h w ->
  DAHead_shaped (DANet.head self) cin nc -> 8 <= cin / 4 -> 0 < nc ->
  resizes ->
  exists cf pf feats_sum logit cam_logit pam_logit wa wb w2 r0 r1 r2,
    DAHead.branches (DANet.head self) tr t = Ok (cf, pf) /\
    T.add pf cf = Ok feats_sum /\
    Head.forward (DAHead.aux_head_cam (DANet.head self)) tr cf w1
      = (Ok cam_logit, wa) /\
    Head.forward (DAHead.aux_head_cam (DANet.head self)) tr pf wa
      = (Ok pam_logit, wb) /\
    Head.forward (DAHead.cls_head (DANet.head self)) tr feats_sum wb
      = (Ok logit, w2) /\
    resize_bilinear logit [Hin; Win] = Ok r0 /\
    resize_bilinear cam_logit [Hin; Win] = Ok r1 /\
    resize_bilinear pam_logit [Hin; Win] = Ok r2 /\
    shaped r0 [N; nc; Hin; Win] /\
    shaped r1 [N; nc; Hin; Win] /\
    shaped r2 [N; nc; Hin; Win] /\
    DANet.forward self tr x w0 = (Ok [r0; r1; r2], w2).
Proof.
  intros Hx HHin HWin Hbb Hidx Hsel Ht Hhd H8 Hnc Hrs.
  destruct (@branches_ok _ tr t N cin nc h w Hhd H8 Ht)
    as (cf & pf & Ebr & Fcf & Fpf).
  destruct Hhd as (_ & _ & _ & _ & _ & _ & Hac & Hcl).
  pose proof (@add_same_shape _ pf cf _ (proj1 (proj1 Fpf)) (proj1 (proj1 Fcf)))
    as Eadd.
  set (fs := mkTensor [N; cin / 4; h; w]
               (tabulate (numel [N; cin / 4; h; w])
                  (fun k => fadd (at_ pf k) (at_ cf k)))) in *.
  destruct (@Head_forward_ok _ _ tr cf N (cin / 4) h w nc w1 Hac Hnc
              (proj1 (proj1 Fcf))) as (cl & wa & Ecl & Scl).
  destruct (@Head_forward_ok _ _ tr pf N (cin / 4) h w nc wa Hac Hnc
              (proj1 (proj1 Fpf))) as (pl & wb & Epl & Spl).
  destruct (@Head_forward_ok _ _ tr fs N (cin / 4) h w nc wb Hcl Hnc eq_refl)
    as (lg & w2 & Elg & Slg).
  assert (Flg : forall y, shaped y [N; nc; h; w] -> feature_map y N nc h w).
  { intros y Sy. split; [exact Sy|]. destruct Ht as (_ & ? & _ & ? & ?). tauto. }
  destruct (Hrs lg N nc h w Hin Win (Flg _ Slg) HHin HWin) as (r0 & Er0 & Sr0).
  destruct (Hrs cl N nc h w Hin Win (Flg _ Scl) HHin HWin) as (r1 & Er1 & Sr1).
  destruct (Hrs pl N nc h w Hin Win (Flg _ Spl) HHin HWin) as (r2 & Er2 & Sr2).
  exists cf, pf, fs, lg, cl, pl, wa, wb, w2, r0, r1, r2.
  repeat (split; [assumption|]).
  unfold DANet.forward.
  rewrite (@bind_ok _ _ _ _ _ _ _ Hbb), Hidx. unfold DANet.select.
  rewrite (@bind_ok _ _ _ _ w1 w1 (pre ++ [t])) by (unfold lift; now rewrite Hsel).
  assert (Ehd : DAHead.forward (DANet.head self) tr (pre ++ [t]) w1
                = (Ok [lg; cl; pl], w2)).
  { unfold DAHead.forward.
    rewrite (@bind_ok _ _ _ _ w1 w1 t)
      by (unfold lift; now rewrite py_index_last).
    rewrite (@bind_ok _ _ _ _ w1 w1 (cf, pf)) by (unfold lift; now rewrite Ebr).
    cbn [fst snd]. unfold DAHead.heads.
    rewrite (@bind_ok _ _ _ _ w1 w1 fs) by (unfold lift; now rewrite Eadd).
    rewrite (@bind_ok _ _ _ _ _ _ _ Ecl), (@bind_ok _ _ _ _ _ _ _ Epl), (@bind_ok _ _ _ _ _ _ _ Elg).
    reflexivity. }
  rewrite (@bind_ok _ _ _ _ _ _ _ Ehd). unfold lift. rewrite Hx. cbn [skipn rmap].
  rewrite Er0, Er1, Er2. reflexivity.
Qed.

End Forward.

(* ================================================================== *)
(** * Construction succeeds *)

Lemma succeeds_ret {X} (a : X) : succeeds (ret a).
Proof. intros w. now exists a, w. Qed.

Lemma succeeds_bind {X Y} (m : M X) (f : X -> M Y) :
  succeeds m -> (forall a, succeeds (f a)) -> succeeds (bind m f).
Proof.
  intros Hm Hf w. destruct (Hm w) as (a & w1 & E).
  destruct (Hf a w1) as (b & w2 & E2).
  exists b, w2. now rewrite (@bind_ok _ _ _ _ _ _ _ E).
Qed.

Lemma succeeds_draw_normals (n : nat) : succeeds (draw_normals n).
Proof. intros w. unfold draw_normals, with_gen. now do 2 eexists. Qed.

Create HintDb succeeds.
#[export] Hint Resolve succeeds_ret succeeds_draw_normals : succeeds.

Ltac succeeds_tac :=
  repeat first
    [ apply succeeds_bind; [| intros ?]
    | solve [auto with succeeds] ].

Section SucceedingLayers.
Context {A : Arith}.

Lemma succeeds_normal_init (t : tensor) (s : R) : succeeds (normal_init t s).
Proof.
  unfold normal_init. apply succeeds_bind; [apply succeeds_draw_normals|].
  intros ?. apply succeeds_ret.
Qed.

Lemma succeeds_Conv2d_new (a b k : nat) : succeeds (Conv2d.new a b k).
Proof.
  unfold Conv2d.new. apply succeeds_bind; [apply succeeds_draw_normals|].
  intros ?. apply succeeds_ret.
Qed.

Hint Resolve succeeds_normal_init succeeds_Conv2d_new : succeeds.

Lemma succeeds_Head_new (a b : nat) : succeeds (Head.new a b).
Proof. unfold Head.new. succeeds_tac. Qed.

Lemma succeeds_Head_init_weight (hd : Head.t) : succeeds (Head.init_weight hd).
Proof. unfold Head.init_weight. succeeds_tac. Qed.

Lemma succeeds_PAM_new (c : nat) : succeeds (PAM.new c).
Proof. unfold PAM.new. succeeds_tac. Qed.

Lemma succeeds_PAM_init_weight (p : PAM.t) : succeeds (PAM.init_weight p).
Proof. unfold PAM.init_weight. succeeds_tac. Qed.

End SucceedingLayers.

#[export] Hint Resolve succeeds_normal_init succeeds_Conv2d_new
  succeeds_Head_new succeeds_Head_init_weight
  succeeds_PAM_new succeeds_PAM_init_weight : succeeds.

Section ConstructionSucceeds.
Context {A : Arith} {B : Blocks}.

Lemma succeeds_cbr_new (a b k : nat) : succeeds (cbr_new a b k).
Proof.
  intros w. unfold cbr_new, with_gen.
  destruct (ConvBNReLU_new a b k (gen w)). now do 2 eexists.
Qed.

Lemma succeeds_cbr_init_weight (b : ConvBNReLU) : succeeds (cbr_init_weight b).
Proof.
  intros w. unfold cbr_init_weight, with_gen.
  destruct (ConvBNReLU_init_weight b (gen w)). now do 2 eexists.
Qed.

Hint Resolve succeeds_cbr_new succeeds_cbr_init_weight : succeeds.

Lemma succeeds_DAHead_init_weight (hd : DAHead.t) :
  succeeds (DAHead.init_weight hd).
Proof. unfold DAHead.init_weight. succeeds_tac. Qed.

(** DAHead.__init__ returns whenever it is given at least one channel count. *)
Lemma DAHead_new_succeeds (nc : nat) (pre : list nat) (ic : nat) :
  succeeds (DAHead.new nc (Some (pre ++ [ic]))).
Proof.
  unfold DAHead.new.
  apply succeeds_bind.
  - intros w. unfold lift. rewrite py_index_last. now do 2 eexists.
  - intros a. succeeds_tac; try apply succeeds_DAHead_init_weight.
Qed.

End ConstructionSucceeds.

(* ================================================================== *)
(** * What construction returns *)

Lemma yields_ret {X} (P : X -> Prop) (a : X) : P a -> yields P (ret a).
Proof. intros Pa w a' w1 E. unfold ret in E. now injection E as <- _. Qed.

Lemma yields_bind {X Y} (P : X -> Prop) (Q : Y -> Prop)
      (m : M X) (f : X -> M Y) :
  yields P m -> (forall a, P a -> yields Q (f a)) -> yields Q (bind m f).
Proof.
  intros Hm Hf w b w2 E. apply bind_inv in E.
  destruct E as (a & w1 & Em & Ef). exact (Hf a (Hm _ _ _ Em) _ _ _ Ef).
Qed.

Lemma yields_any {X} (m : M X) : yields (fun _ => True) m.
Proof. now intros w a w1 _. Qed.

(** One bind of a construction: the first computation's postcondition is
    given by lemma [L]. *)
Tactic Notation "ystep" uconstr(L) :=
  eapply yields_bind; [ solve [ eapply L; eauto ] | ].

Section YieldingLayers.
Context {A : Arith}.

Lemma normal_init_shape (t : tensor) (s : R) :
  yields (fun t' => shape t' = shape t) (normal_init t s).
Proof.
  unfold normal_init.
  ystep yields_any. intros zs _. now apply yields_ret.
Qed.

Lemma Conv2d_new_shaped (cin cout : nat) :
  yields (fun c => Conv2d_shaped c cin cout) (Conv2d.new cin cout 1).
Proof.
  unfold Conv2d.new.
  ystep yields_any. intros zs _. apply yields_ret.
  now split.
Qed.

Lemma Head_new_shaped (inter nc : nat) :
  yields (fun hd => Conv2d_shaped (Head.conv hd) inter nc) (Head.new inter nc).
Proof.
  unfold Head.new.
  ystep Conv2d_new_shaped. intros c Hc.
  now apply yields_ret.
Qed.

Lemma Head_init_weight_shaped (hd : Head.t) (inter nc : nat) :
  Conv2d_shaped (Head.conv hd) inter nc ->
  yields (fun hd' => Conv2d_shaped (Head.conv hd') inter nc)
         (Head.init_weight hd).
Proof.
  intros (Hw & Hb). unfold Head.init_weight.
  ystep normal_init_shape. intros t Ht.
  apply yields_ret. split; cbn; congruence.
Qed.

Lemma PAM_new_shaped (c : nat) :
  yields (fun p => PAM_shaped p c /\ PAM.gamma p = mkTensor [1] [fzero])
         (PAM.new c).
Proof.
  unfold PAM.new.
  ystep Conv2d_new_shaped. intros q Hq.
  ystep Conv2d_new_shaped. intros k Hk.
  ystep Conv2d_new_shaped. intros v Hv.
  apply yields_ret. unfold PAM_shaped. cbn. tauto.
Qed.

Lemma PAM_init_weight_shaped (p : PAM.t) (c : nat) :
  PAM_shaped p c ->
  yields (fun p' => PAM_shaped p' c /\ PAM.gamma p' = PAM.gamma p)
         (PAM.init_weight p).
Proof.
  intros ((Hqw & Hqb) & (Hkw & Hkb) & (Hvw & Hvb) & Hg).
  unfold PAM.init_weight.
  ystep normal_init_shape. intros q Hq.
  ystep normal_init_shape. intros k Hk.
  ystep normal_init_shape. intros v Hv.
  apply yields_ret. cbv beta in *.
  repeat split;
    cbn [PAM.query_conv PAM.key_conv PAM.value_conv PAM.gamma
         Conv2d.weight Conv2d.bias]; congruence.
Qed.

End YieldingLayers.

Section ConstructionYields.
Context {A : Arith} {B : Blocks}.

Lemma DAHead_init_weight_fresh (hd : DAHead.t) (ic nc : nat) :
  fresh_head hd ic nc -> yields (fun hd' => fresh_head hd' ic nc)
                                (DAHead.init_weight hd).
Proof.
  intros (Hp & Hg & Hc & Hap & Hac & Hcl). unfold DAHead.init_weight.
  ystep yields_any. intros cc _.
  ystep yields_any. intros pc _.
  ystep PAM_init_weight_shaped. intros p (Hp' & Hg').
  ystep yields_any. intros c1 _.
  ystep yields_any. intros c2 _.
  ystep Head_init_weight_shaped. intros ap Hap'.
  ystep Head_init_weight_shaped. intros ac Hac'.
  ystep Head_init_weight_shaped. intros cl Hcl'.
  apply yields_ret. unfold fresh_head.
  cbn [DAHead.pam DAHead.cam DAHead.aux_head_pam DAHead.aux_head_cam
       DAHead.cls_head].
  cbv beta in *. split; [exact Hp'|]. split; [congruence|]. tauto.
Qed.

Lemma DAHead_new_fresh (nc : nat) (pre : list nat) (ic : nat) :
  yields (fun hd => fresh_head hd ic nc) (DAHead.new nc (Some (pre ++ [ic]))).
Proof.
  unfold DAHead.new.
  apply (@yields_bind _ _ (fun a => a = ic) (fun hd => fresh_head hd ic nc)).
  { intros w a w1 E. unfold lift in E. rewrite py_index_last in E.
    now injection E as <- _. }
  intros a ->.
  ystep yields_any. intros cc _.
  ystep yields_any. intros pc _.
  ystep PAM_new_shaped. intros p (Hp & Hg).
  ystep yields_any. intros c1 _.
  ystep yields_any. intros c2 _.
  ystep Head_new_shaped. intros ap Hap.
  ystep Head_new_shaped. intros ac Hac.
  ystep Head_new_shaped. intros cl Hcl.
  apply DAHead_init_weight_fresh. unfold fresh_head.
  cbn [DAHead.pam DAHead.cam DAHead.aux_head_pam DAHead.aux_head_cam
       DAHead.cls_head CAM.gamma CAM.new].
  tauto.
Qed.

(** C9.  DAHead.__init__ builds a sub-module [aux_head_pam] with parameters
    of its own (a 1x1 convolution from inter_channels to num_classes), but
    DAHead.forward never applies it: replacing that sub-module by any other
    leaves the outcome of the forward pass (all three logits and the
    generator state) unchanged, on every input. *)
Theorem aux_head_pam_unused :
  (forall (hd : DAHead.t) (ap : Head.t) (tr : bool) (fl : list tensor)
          (w0 : world),
      DAHead.forward (set_aux_head_pam hd ap) tr fl w0 =
      DAHead.forward hd tr fl w0) /\
  (forall (nc : nat) (pre : list nat) (ic : nat) (w0 : world),
      exists hd w1,
        DAHead.new nc (Some (pre ++ [ic])) w0 = (Ok hd, w1) /\
        Conv2d_shaped (Head.conv (DAHead.aux_head_pam hd)) (ic / 4) nc).
Proof.
  split.
  - intros hd ap tr fl w0. destruct hd. reflexivity.
  - intros nc pre ic w0.
    destruct (DAHead_new_succeeds nc pre ic w0) as (hd & w1 & E).
    exists hd, w1. split; [exact E|].
    apply (DAHead_new_fresh nc pre ic w0 E).
Qed.

End ConstructionYields.

Lemma stub_cbr_maps {A : Arith} (cin cout : nat) :
  0 < cout -> cbr_maps (B := stub_blocks) (cin, cout) cin cout.
Proof.
  intros Hc tr x n h w ((Hs & _) & Hn & _ & Hh & Hw).
  cbn. rewrite Hs, Nat.eqb_refl. eexists. split; [reflexivity|].
  split; [apply ones_shaped | tauto].
Qed.

Lemma stub_resizes {A : Arith} : resizes (B := stub_blocks).
Proof.
  intros t n c h w oh ow ((Hs & _) & _) _ _. cbn. rewrite Hs.
  eexists. split; [reflexivity | apply ones_shaped].
Qed.

Lemma sample_head_shaped : DAHead_shaped sample_head 32 5.
Proof.
  unfold DAHead_shaped. cbn.
  repeat split; try (apply stub_cbr_maps; lia).
Qed.

Lemma feat_32_feature_map : feature_map feat_32 1 32 1 1.
Proof. split; [apply ones_shaped | lia]. Qed.

Lemma DANet_forward_outputs_witness :
  exists (r0 r1 r2 : @tensor real_arith) (w2 : world),
    DANet.forward sample_net false image_3 empty_world
    = (Ok [r0; r1; r2], w2) /\
    shaped r0 [1; 5; 4; 4] /\ shaped r1 [1; 5; 4; 4] /\ shaped r2 [1; 5; 4; 4].
Proof.
  destruct (@DANet_forward_outputs real_arith stub_blocks sample_net false
              image_3 empty_world empty_world 1 4 4 [feat_16; feat_32]
              [0%Z; 1%Z] [feat_16] feat_32 32 1 1 5
              eq_refl ltac:(lia) ltac:(lia) eq_refl eq_refl eq_refl
              feat_32_feature_map sample_head_shaped (le_n 8) ltac:(lia)
              stub_resizes)
    as (cf & pf & fs & lg & cl & pl & wa & wb & w2 & r0 & r1 & r2 & F).
  exists r0, r1, r2, w2. tauto.
Defined.

Lemma assemble_sample_ok :
  exists m w1,
    DANet.assemble (B := @stub_blocks real_arith) 5 [feat_16; feat_32]
      (Some [0%Z; 1%Z]) empty_world
    = (Ok m, w1).
Proof.
  destruct (@DAHead_new_succeeds real_arith stub_blocks 5 [16] 32 empty_world)
    as (hd & w1 & E).
  exists (@DANet.mk real_arith stub_blocks [feat_16; feat_32]
            (Some [0%Z; 1%Z]) hd), w1.
  unfold DANet.assemble.
  rewrite (@bind_ok _ _ _ _ empty_world empty_world [16; 32]) by reflexivity.
  rewrite (@bind_ok _ _ _ _ _ _ _ E). reflexivity.
Qed.

Lemma missing_pretrained_raises_witness :
  exists w1,
    DANet.new (L := @stub_loader real_arith) 5 [feat_16; feat_32]
      (Some missing_path) (Some [0%Z; 1%Z]) empty_world
    = (Raise (Exception "Pretrained model is not found: /nonexistent/path.pdparams"),
       w1) /\
    events w1 = [PathExists missing_path].
Proof.
  destruct (@missing_pretrained_raises real_arith stub_blocks stub_loader 5
              [feat_16; feat_32] missing_path (Some [0%Z; 1%Z]) empty_world
              eq_refl)
    as (e & w1 & evs & En & Eev & _ & Hok).
  destruct assemble_sample_ok as (m & w' & Ea).
  destruct (Hok m w' Ea) as [-> ->].
  exists w1. split; [exact En | exact Eev].
Defined.

(* ================================================================== *)
(** * Further properties of the channel attention module *)

(** X1.  The raw channel similarity of CAM.forward is the Gram matrix of the
    channels: entry (i, j) is the inner product, over all positions, of
    channels i and j.  It is symmetric and its diagonal is non-negative. *)
Theorem CAM_similarity_is_gram (x : @tensor real_arith) (n c h w : nat) :
  feature_map x n c h w ->
  exists raw,
    CAM.similarity x = Ok raw /\ shaped raw [n; c; c] /\
    forall b i j, b < n -> i < c -> j < c ->
      get3 raw b i j =
        Rsum (h * w) (fun s => (get4s x b i s * get4s x b j s)%R) /\
      get3 raw b i j = get3 raw b j i /\
      (0 <= get3 raw b i i)%R.
Proof.
  intros Hfm.
  destruct (@CAM_similarity_entries real_arith x n c h w Hfm)
    as (raw & E & S & Hraw).
  exists raw. split; [exact E|]. split; [exact S|].
  intros b i j Hb Hi Hj.
  assert (Hsum : forall i' j', i' < c -> j' < c ->
            get3 raw b i' j' =
            Rsum (h * w) (fun s => (get4s x b i' s * get4s x b j' s)%R)).
  { intros i' j' Hi' Hj'. rewrite Hraw by assumption. apply fsum_real. }
  split; [now apply Hsum|]. split.
  - rewrite !Hsum by assumption. apply Rsum_ext. intros s _. apply Rmult_comm.
  - rewrite Hsum by assumption. apply Rsum_nonneg. intros s _.
    apply Rle_0_sqr.
Qed.

Lemma CAM_similarity_is_gram_witness :
  exists raw,
    CAM.similarity x_1811 = Ok raw /\ shaped raw [1; 8; 8] /\
    forall b i j, b < 1 -> i < 8 -> j < 8 ->
      get3 raw b i j =
        Rsum (1 * 1) (fun s => (get4s x_1811 b i s * get4s x_1811 b j s)%R) /\
      get3 raw b i j = get3 raw b j i /\
      (0 <= get3 raw b i i)%R.
Proof.
  exact (@CAM_similarity_is_gram x_1811 1 8 1 1 x_1811_feature_map).
Defined.

Section ChannelEntries.
Context {A : Arith}.

(** X3.  CAM.forward, entry by entry: output channel i at a position is
    gamma times the sum, over all channels k, of the attention weight (i, k)
    times channel k of the input at that same position, plus the input. *)
Theorem CAM_forward_entries (q : CAM.t) (x : tensor) (n c h w : nat) :
  CAM_shaped q -> feature_map x n c h w ->
  exists att y,
    CAM.attention x = Ok att /\ shaped att [n; c; c] /\
    CAM.forward q x = Ok y /\ shaped y [n; c; h; w] /\
    forall b i s, b < n -> i < c -> s < h * w ->
      get4s y b i s =
      fadd (fmul (at_ (CAM.gamma q) 0)
                 (fsum c (fun k => fmul (get3 att b i k) (get4s x b k s))))
           (get4s x b i s).
Proof.
  intros Hq Hfm.
  destruct (@CAM_attended_entries A x n c h w Hfm)
    as (att & feat & Ea & Sa & Ef & Sf & Hfeat).
  destruct (@CAM_forward_ok A q x n c h w Hq Hfm)
    as (feat' & y & Ef' & _ & Ey & Sy & Eb).
  rewrite Ef in Ef'. injection Ef' as <-.
  exists att, y. split; [exact Ea|]. split; [exact Sa|].
  split; [exact Ey|]. split; [exact Sy|].
  intros b i s Hb Hi Hs.
  rewrite (@blend_get4s A (CAM.gamma q) feat x y n c h w b i s Hq Sf
             (proj1 Hfm) Eb Hb Hi Hs).
  now rewrite Hfeat.
Qed.

End ChannelEntries.

Lemma CAM_forward_entries_witness :
  exists att y,
    CAM.attention x_1812 = Ok att /\ CAM.forward CAM.new x_1812 = Ok y /\
    forall i s, i < 8 -> s < 2 ->
      get4s y 0 i s =
      (0 * Rsum 8 (fun k => (get3 att 0 i k * get4s x_1812 0 k s)%R)
       + get4s x_1812 0 i s)%R.
Proof.
  assert (F : feature_map x_1812 1 8 1 2)
    by (unfold feature_map, shaped, wf; cbn; repeat split; lia).
  destruct (@CAM_forward_entries real_arith CAM.new x_1812 1 8 1 2 eq_refl F)
    as (att & y & Ea & _ & Ey & _ & H).
  exists att, y. split; [exact Ea|]. split; [exact Ey|].
  intros i s Hi Hs. exact (H 0 i s Nat.lt_0_1 Hi Hs).
Defined.

(* ================================================================== *)
(** * Further properties of the position attention module *)

Section PositionEntries.
Context {A : Arith}.

(** The similarity matrix of PAM.forward before the softmax, entry by entry. *)
Lemma PAM_energy_entries (p : PAM.t) (c : nat) (x : tensor) (n h w : nat) :
  PAM_shaped p c -> 8 <= c -> feature_map x n c h w ->
  exists Q K e,
    Conv2d.forward (PAM.query_conv p) x = Ok Q /\
    Conv2d.forward (PAM.key_conv p) x = Ok K /\
    shaped Q [n; c / 8; h; w] /\ shaped K [n; c / 8; h; w] /\
    PAM.energy p x = Ok e /\ shaped e [n; h * w; h * w] /\
    forall b s t, b < n -> s < h * w -> t < h * w ->
      get3 e b s t =
      fsum (c / 8) (fun m => fmul (get4s Q b m s) (get4s K b m t)).
Proof.
  intros (Hq & Hk & _ & _) H8 ((Hx & Hwf) & Hn & Hc & Hh & Hw).
  assert (Hhw : 0 < h * w) by nia.
  pose proof (div8_pos H8) as Hmid.
  unfold PAM.energy. rewrite Hx.
  destruct (@conv2d_ok _ _ _ _ _ _ _ _ Hq Hmid Hx) as (Q & EQ & SQ).
  destruct (@conv2d_ok _ _ _ _ _ _ _ _ Hk Hmid Hx) as (K & EK & SK).
  rewrite EQ. cbn [rbind].
  step (@reshape_infer_ok3 _ Q _ n (c / 8) (h * w) SQ Hn Hhw ltac:(simpl; lia))
       q2 Eo2 So2.
  destruct So2 as (So2 & Dq).
  destruct (@transpose_ok _ q2 n (c / 8) (h * w) (proj1 So2)) as (q3 & Eo3 & So3).
  rewrite Eo3. cbn [rbind]. rewrite EK. cbn [rbind].
  step (@reshape_infer_ok3 _ K _ n (c / 8) (h * w) SK Hn Hhw ltac:(simpl; lia))
       k2 Eo5 So5.
  destruct So5 as (So5 & Dk).
  destruct (@bmm_ok _ q3 k2 n (h * w) (c / 8) (h * w) (proj1 So3) (proj1 So5))
    as (en & Eo6 & So6).
  exists Q, K, en.
  split; [reflexivity|]. split; [reflexivity|]. split; [exact SQ|].
  split; [exact SK|]. split; [exact Eo6|]. split; [exact So6|].
  intros b s t Hb Hs Ht.
  rewrite (@bmm_get3 _ q3 k2 en n (h * w) (c / 8) (h * w) b s t
             (proj1 So3) (proj1 So5) Eo6 Hb Hs Ht).
  apply fsum_ext. intros m Hm.
  rewrite (@transpose_get3 _ q2 q3 n (c / 8) (h * w) b m s
             (proj1 So2) Eo3 Hb Hm Hs).
  now rewrite (@flatten_get3 _ Q q2 n (c / 8) h w b m s (proj1 SQ) (proj1 So2) Dq),
              (@flatten_get3 _ K k2 n (c / 8) h w b m t (proj1 SK) (proj1 So5) Dk).
Qed.

(** X4.  The spatial attention of PAM.forward is the softmax, over key
    positions t, of the matrix of inner products, over the in_channels // 8
    projected channels, of the query at position s and the key at position
    t. *)
Theorem PAM_attention_entries (p : PAM.t) (c : nat) (x : tensor) (n h w : nat) :
  PAM_shaped p c -> 8 <= c -> feature_map x n c h w ->
  exists Q K e sim,
    Conv2d.forward (PAM.query_conv p) x = Ok Q /\
    Conv2d.forward (PAM.key_conv p) x = Ok K /\
    shaped Q [n; c / 8; h; w] /\ shaped K [n; c / 8; h; w] /\
    shaped e [n; h * w; h * w] /\
    T.softmax e = Ok sim /\ PAM.attention p x = Ok sim /\
    shaped sim [n; h * w; h * w] /\
    forall b s t, b < n -> s < h * w -> t < h * w ->
      get3 e b s t =
        fsum (c / 8) (fun m => fmul (get4s Q b m s) (get4s K b m t)) /\
      get3 sim b s t =
        fdiv (fexp (fsub (get3 e b s t) (T.row_max e ((b * (h * w) + s) * (h * w)) (h * w))))
             (fsum (h * w) (fun u =>
                fexp (fsub (get3 e b s u)
                           (T.row_max e ((b * (h * w) + s) * (h * w)) (h * w))))).
Proof.
  intros Hp H8 Hfm.
  destruct (@PAM_energy_entries p c x n h w Hp H8 Hfm)
    as (Q & K & e & EQ & EK & SQ & SK & Ee & Se & He).
  destruct (@softmax_ok _ e n (h * w) (h * w) (proj1 Se)) as (sim & Es & Ss).
  exists Q, K, e, sim.
  repeat (split; [assumption|]).
  split. { unfold PAM.attention. rewrite Ee. exact Es. }
  split; [exact Ss|].
  intros b s t Hb Hs Ht. split; [now apply He|].
  apply (@softmax_get3 _ e sim n (h * w) (h * w) b s t (proj1 Se) Es Hb Hs Ht).
Qed.

(** X5.  PAM.forward, entry by entry: channel i of the output at position s
    is gamma times the sum, over all positions t, of channel i of the value
    projection at t times the attention weight (s, t), plus the input. *)
Theorem PAM_forward_entries (p : PAM.t) (c : nat) (x : tensor) (n h w : nat) :
  PAM_shaped p c -> 8 <= c -> feature_map x n c h w ->
  exists V sim y,
    Conv2d.forward (PAM.value_conv p) x = Ok V /\
    shaped V [n; c; h; w] /\
    PAM.attention p x = Ok sim /\ shaped sim [n; h * w; h * w] /\
    PAM.forward p x = Ok y /\ shaped y [n; c; h; w] /\
    forall b i s, b < n -> i < c -> s < h * w ->
      get4s y b i s =
      fadd (fmul (at_ (PAM.gamma p) 0)
                 (fsum (h * w) (fun t => fmul (get4s V b i t) (get3 sim b s t))))
           (get4s x b i s).
Proof.
  intros Hp H8 Hfm.
  destruct (@PAM_attention_ok _ p c x n h w Hp H8 Hfm) as (sim & Ea & Ss).
  destruct (@PAM_forward_ok _ p c x n h w Hp H8 Hfm)
    as (feat & y & Ef & Sf & Ey & Sy & Eb).
  pose proof Hp as (_ & _ & Hv & Hg).
  pose proof Hfm as (Sx & Hn & Hc & Hh & Hw).
  assert (Hhw : 0 < h * w) by nia.
  destruct (@conv2d_ok _ _ _ _ _ _ _ _ Hv Hc (proj1 Sx)) as (V & EV & SV).
  exists V, sim, y.
  split; [exact EV|]. split; [exact SV|]. split; [exact Ea|].
  split; [exact Ss|]. split; [exact Ey|]. split; [exact Sy|].
  intros b i s Hb Hi Hs.
  rewrite (@blend_get4s _ (PAM.gamma p) feat x y n c h w b i s Hg Sf Sx Eb
             Hb Hi Hs).
  do 2 f_equal.
  unfold PAM.attended in Ef. rewrite (proj1 Sx), Ea in Ef. cbn [rbind] in Ef.
  rewrite EV in Ef. cbn [rbind] in Ef.
  destruct (@reshape_infer_ok3 _ V _ n c (h * w) SV Hn Hhw ltac:(simpl; lia))
    as (v2 & Eo2 & So2 & Dv).
  rewrite Eo2 in Ef. cbn [rbind] in Ef.
  destruct (@transpose_ok _ sim n (h * w) (h * w) (proj1 Ss)) as (simT & Eo3 & So3).
  rewrite Eo3 in Ef. cbn [rbind] in Ef.
  destruct (@bmm_ok _ v2 simT n c (h * w) (h * w) (proj1 So2) (proj1 So3))
    as (f1 & Eo4 & So4).
  rewrite Eo4 in Ef. cbn [rbind] in Ef.
  destruct (@reshape_infer_ok4 _ f1 _ n c h w So4 Hn Hh Hw ltac:(simpl; lia))
    as (f2 & Eo5 & So5 & Df).
  rewrite Eo5 in Ef. injection Ef as <-.
  rewrite <- (@flatten_get3 _ f2 f1 n c h w b i s
                (proj1 So5) (proj1 So4) (eq_sym Df)).
  rewrite (@bmm_get3 _ v2 simT f1 n c (h * w) (h * w) b i s
             (proj1 So2) (proj1 So3) Eo4 Hb Hi Hs).
  apply fsum_ext. intros t Ht.
  rewrite (@transpose_get3 _ sim simT n (h * w) (h * w) b s t
             (proj1 Ss) Eo3 Hb Hs Ht).
  now rewrite (@flatten_get3 _ V v2 n c h w b i t (proj1 SV) (proj1 So2) Dv).
Qed.

End PositionEntries.

Lemma x_1812_feature_map : feature_map x_1812 1 8 1 2.
Proof. unfold feature_map, shaped, wf. cbn. repeat split; lia. Qed.

Lemma summing_pam_shaped : PAM_shaped summing_pam 8.
Proof. repeat split. Qed.

Lemma PAM_attention_entries_witness :
  exists Q K e sim,
    Conv2d.forward (PAM.query_conv summing_pam) x_1812 = Ok Q /\
    Conv2d.forward (PAM.key_conv summing_pam) x_1812 = Ok K /\
    T.softmax e = Ok sim /\ PAM.attention summing_pam x_1812 = Ok sim /\
    shaped sim [1; 2; 2] /\
    forall s t, s < 2 -> t < 2 ->
      get3 e 0 s t = Rsum 1 (fun m => (get4s Q 0 m s * get4s K 0 m t)%R).
Proof.
  destruct (@PAM_attention_entries real_arith summing_pam 8 x_1812 1 1 2
              summing_pam_shaped (le_n 8) x_1812_feature_map)
    as (Q & K & e & sim & EQ & EK & _ & _ & _ & Es & Ea & Ss & H).
  exists Q, K, e, sim.
  repeat (split; [assumption|]).
  intros s t Hs Ht. exact (proj1 (H 0 s t Nat.lt_0_1 Hs Ht)).
Defined.

Lemma PAM_forward_entries_witness :
  exists V sim y,
    Conv2d.forward (PAM.value_conv summing_pam) x_1812 = Ok V /\
    PAM.attention summing_pam x_1812 = Ok sim /\
    PAM.forward summing_pam x_1812 = Ok y /\
    forall i s, i < 8 -> s < 2 ->
      get4s y 0 i s =
      (1 * Rsum 2 (fun t => (get4s V 0 i t * get3 sim 0 s t)%R)
       + get4s x_1812 0 i s)%R.
Proof.
  destruct (@PAM_forward_entries real_arith summing_pam 8 x_1812 1 1 2
              summing_pam_shaped (le_n 8) x_1812_feature_map)
    as (V & sim & y & EV & _ & Ea & _ & Ey & _ & H).
  exists V, sim, y.
  repeat (split; [assumption|]).
  intros i s Hi Hs. exact (H 0 i s Nat.lt_0_1 Hi Hs).
Defined.

(* ================================================================== *)
(** * Inputs the attention modules reject *)

Section Rejected.
Context {A : Arith}.

(** X6.  Both forward passes unpack the shape of their input into four
    extents: an input whose rank is not 4 raises ValueError, whatever the
    parameters are. *)
Theorem attention_needs_rank_4 (p : PAM.t) (q : CAM.t) (x : tensor) :
  length (shape x) <> 4 ->
  PAM.forward p x = Raise ValueError /\ CAM.forward q x = Raise ValueError.
Proof.
  intros Hr. unfold PAM.forward, PAM.attended, CAM.forward, CAM.attended.
  destruct (shape x) as [|n [|c [|h [|w [|? ?]]]]]; cbn in Hr; now split.
Qed.

(** X7.  PAM.forward does not check the channel count of its input: on a
    rank-4 input whose channel count differs from the one the module was
    built for, the error is the one its first operation, the query
    convolution, raises. *)
Theorem PAM_channel_mismatch (p : PAM.t) (c : nat) (x : tensor) (n c' h w : nat) :
  PAM_shaped p c -> shape x = [n; c'; h; w] -> c' <> c ->
  PAM.forward p x = Raise (InvalidArgument "conv2d").
Proof.
  intros ((Hqw & Hqb) & _) Hx Hne.
  unfold PAM.forward, PAM.attended, PAM.attention, PAM.energy, Conv2d.forward.
  rewrite Hx, Hqw, Hqb.
  destruct (Nat.eqb_spec c c') as [E | _]; [congruence|]. reflexivity.
Qed.



End Rejected.

Lemma attention_needs_rank_4_witness :
  PAM.forward sample_pam (@mkTensor real_arith [2; 3] [1; 2; 3; 4; 5; 6]%R)
  = Raise ValueError /\
  CAM.forward CAM.new (@mkTensor real_arith [2; 3] [1; 2; 3; 4; 5; 6]%R)
  = Raise ValueError.
Proof.
  apply (@attention_needs_rank_4 real_arith sample_pam CAM.new
           (@mkTensor real_arith [2; 3] [1; 2; 3; 4; 5; 6]%R)).
  cbn. lia.
Defined.

Lemma PAM_channel_mismatch_witness :
  PAM.forward sample_pam (@mkTensor real_arith [1; 2; 1; 1] [1; 2]%R)
  = Raise (InvalidArgument "conv2d").
Proof.
  apply (@PAM_channel_mismatch real_arith sample_pam 8
           (@mkTensor real_arith [1; 2; 1; 1] [1; 2]%R)
           1 2 1 1 sample_pam_shaped eq_refl).
  lia.
Defined.


(* ================================================================== *)
(** * Edge cases of the head and of the construction of the network *)

Lemma py_index_out_of_range {X} (l : list X) (i : Z) :
  (Z.of_nat (length l) <= i \/ i < - Z.of_nat (length l))%Z ->
  py_index l i = Raise IndexError.
Proof.
  intros Hi. unfold py_index.
  destruct (Z.ltb_spec i 0).
  - destruct (Z.leb_spec 0 (Z.of_nat (length l) + i)); [lia | reflexivity].
  - destruct (Z.leb_spec 0 i); [|lia].
    destruct (Z.ltb_spec i (Z.of_nat (length l))); [lia | reflexivity].
Qed.

Lemma py_index_raises_IndexError {X} (l : list X) (i : Z) (e : exn) :
  py_index l i = Raise e -> e = IndexError.
Proof.
  unfold py_index.
  destruct ((0 <=? _) && _)%Z.
  - destruct (nth_error l _); [discriminate | now intros [= <-]].
  - now intros [= <-].
Qed.

Lemma rmap_py_index_raises {X} (l : list X) (idx : list Z) (e : exn) :
  rmap (py_index l) idx = Raise e -> e = IndexError.
Proof.
  induction idx as [|i idx IH]; cbn; [discriminate|].
  destruct (py_index l i) eqn:Ei; cbn.
  - destruct (rmap (py_index l) idx); cbn; [discriminate|].
    intros [= <-]. now apply IH.
  - intros [= <-]. now apply (py_index_raises_IndexError l i).
Qed.

Lemma rmap_py_index_out_of_range {X} (l : list X) (idx : list Z) (i : Z) :
  In i idx ->
  (Z.of_nat (length l) <= i \/ i < - Z.of_nat (length l))%Z ->
  rmap (py_index l) idx = Raise IndexError.
Proof.
  intros Hin Hi.
  destruct (rmap (py_index l) idx) as [bs | e] eqn:E.
  - exfalso. revert bs E. induction idx as [|j idx IH]; [contradiction|].
    intros bs E. cbn in E. destruct Hin as [-> | Hin].
    + rewrite (py_index_out_of_range l Hi) in E. discriminate.
    + destruct (py_index l j); cbn in E; [|discriminate].
      destruct (rmap (py_index l) idx) as [bs' | e'] eqn:E'; cbn in E;
        [|discriminate].
      now apply (IH Hin bs').
  - f_equal. now apply (rmap_py_index_raises l idx).
Qed.
Section EdgeCases.
Context {A : Arith} {B : Blocks}.

(** X8.  DAHead.forward on an empty list raises IndexError before anything
    is computed: no random bit is drawn. *)
Theorem DAHead_forward_empty (hd : DAHead.t) (tr : bool) (w0 : world) :
  DAHead.forward hd tr [] w0 = (Raise IndexError, w0).
Proof.
  unfold DAHead.forward, bind, lift. now rewrite py_index_nil.
Qed.

(** X9.  DAHead.__init__ reads only the last entry of in_channels: with the
    default None it raises TypeError, with an empty sequence IndexError (in
    both cases before any parameter is drawn), and two sequences with the
    same last entry build the same head. *)
Theorem DAHead_new_reads_last_channel_count (nc : nat) (w0 : world) :
  DAHead.new nc None w0 = (Raise TypeError, w0) /\
  DAHead.new nc (Some []) w0 = (Raise IndexError, w0) /\
  (forall pre1 pre2 ic,
      DAHead.new nc (Some (pre1 ++ [ic])) w0 =
      DAHead.new nc (Some (pre2 ++ [ic])) w0).
Proof.
  split; [reflexivity|]. split; [reflexivity|].
  intros pre1 pre2 ic. unfold DAHead.new, bind, lift.
  now rewrite !py_index_last.
Qed.

Context {L : DANet.Loader}.

(** X10.  DANet.__init__ fails on its index argument before it looks at the
    pretrained path: with the default backbone_indices=None it raises
    TypeError, with an empty sequence IndexError, and with any index outside
    the backbone's feat_channels IndexError; in all three cases nothing is
    drawn, no path is checked and the loader is not called. *)
Theorem DANet_new_bad_indices (nc : nat) (bb : backbone)
        (pretrained : option string) (w0 : world) :
  DANet.new nc bb pretrained None w0 = (Raise TypeError, w0) /\
  DANet.new nc bb pretrained (Some []) w0 = (Raise IndexError, w0) /\
  (forall idx i,
      In i idx ->
      (Z.of_nat (length (feat_channels bb)) <= i \/
       i < - Z.of_nat (length (feat_channels bb)))%Z ->
      DANet.new nc bb pretrained (Some idx) w0 = (Raise IndexError, w0)).
Proof.
  split; [reflexivity|]. split; [reflexivity|].
  intros idx i Hin Hi. unfold DANet.new, DANet.select, bind, lift.
  now rewrite (rmap_py_index_out_of_range (feat_channels bb) idx Hin Hi).
Qed.

End EdgeCases.

(* ================================================================== *)
(** * Loading a checkpoint, and the head right after its construction *)

Section Loading.
Context {A : Arith} {B : Blocks} {L : DANet.Loader}.

(** X11.  When the pretrained path exists, DANet.__init__ checks the path
    once and then calls the loader once, on the network it has just
    assembled; the outcome of the construction is the outcome of the loader. *)
Theorem existing_pretrained_loads_once (nc : nat) (bb : backbone)
        (path : string) (idx : option (list Z)) (w0 w1 : world) (m : DANet.t) :
  files w0 path = true ->
  DANet.assemble nc bb idx w0 = (Ok m, w1) ->
  DANet.new nc bb (Some path) idx w0 =
  DANet.load_pretrained_model m path
    (mkWorld (gen w1) (files w0)
       (events w0 ++ [PathExists path; LoadPretrained path])).
Proof.
  intros Hf Ea. rewrite new_is_assemble_then_init.
  rewrite (@bind_ok _ _ _ _ _ _ _ Ea).
  pose proof (quiet_assemble nc bb idx w0) as [Qf Qe].
  rewrite Ea in Qf, Qe. cbn [snd] in Qf, Qe.
  unfold DANet.init_weight, os_path_exists, bind, log.
  cbn [gen files events]. rewrite Qf, Hf. cbn [gen files events].
  rewrite Qe, <- app_assoc. reflexivity.
Qed.

End Loading.

Lemma assemble_with_checkpoint_ok :
  exists m w1,
    DANet.assemble (B := @stub_blocks real_arith) 5 [feat_16; feat_32]
      (Some [0%Z; 1%Z]) world_with_checkpoint = (Ok m, w1).
Proof.
  destruct (@DAHead_new_succeeds real_arith stub_blocks 5 [16] 32
              world_with_checkpoint)
    as (hd & w1 & E).
  exists (@DANet.mk real_arith stub_blocks [feat_16; feat_32]
            (Some [0%Z; 1%Z]) hd), w1.
  unfold DANet.assemble.
  rewrite (@bind_ok _ _ _ _ world_with_checkpoint world_with_checkpoint [16; 32])
    by reflexivity.
  rewrite (@bind_ok _ _ _ _ _ _ _ E). reflexivity.
Qed.

Lemma existing_pretrained_loads_once_witness :
  exists m w1,
    DANet.new (L := @stub_loader real_arith) 5 [feat_16; feat_32]
      (Some checkpoint_path) (Some [0%Z; 1%Z]) world_with_checkpoint
    = (Ok m, w1) /\
    events w1 = [PathExists checkpoint_path; LoadPretrained checkpoint_path].
Proof.
  destruct assemble_with_checkpoint_ok as (m & w1 & Ea).
  exists m. eexists.
  rewrite (@existing_pretrained_loads_once real_arith stub_blocks stub_loader 5
             [feat_16; feat_32] checkpoint_path (Some [0%Z; 1%Z])
             world_with_checkpoint w1 m eq_refl Ea).
  split; reflexivity.
Defined.

Section FreshHead.
Context {A : Arith} {B : Blocks}.

(** X12.  Right after its construction (both gates at 0) a head for at
    least 32 input channels bypasses the two attention modules, as long as
    the features they attend are finite: the refined channel features are
    conv1(channel_conv(feats)) and the refined position features are
    conv2(position_conv(feats)). *)
Theorem fresh_head_bypasses_attention
        {L : Float_laws A}
        (hd : DAHead.t) (ic nc : nat) (tr : bool)
        (t y1 y2 f1 f2 cf pf : tensor) (n h w : nat) :
  fresh_head hd ic nc -> 8 <= ic / 4 ->
  ConvBNReLU_forward (DAHead.channel_conv hd) tr t = Ok y1 ->
  feature_map y1 n (ic / 4) h w ->
  CAM.attended y1 = Ok f1 -> all_finite f1 ->
  ConvBNReLU_forward (DAHead.conv1 hd) tr y1 = Ok cf ->
  ConvBNReLU_forward (DAHead.position_conv hd) tr t = Ok y2 ->
  feature_map y2 n (ic / 4) h w ->
  PAM.attended (DAHead.pam hd) y2 = Ok f2 -> all_finite f2 ->
  ConvBNReLU_forward (DAHead.conv2 hd) tr y2 = Ok pf ->
  DAHead.branches hd tr t = Ok (cf, pf).
Proof.
  intros (Hp & Hg & Hc & _) H8 E1' F1 Ef1 Fin1 E2' E3' F2 Ef2 Fin2 E4'.
  unfold DAHead.branches. rewrite E1'. cbn [rbind].
  destruct (@CAM_zero_gate A L (DAHead.cam hd) y1 n (ic / 4) h w Hc F1)
    as (g1 & z1 & Eg1 & Ez1 & _ & _ & _ & Hid1).
  rewrite Ef1 in Eg1. injection Eg1 as <-.
  rewrite Ez1, (Hid1 Fin1). cbn [rbind]. rewrite E2'. cbn [rbind].
  rewrite E3'. cbn [rbind].
  destruct (@PAM_zero_gate A L (DAHead.pam hd) (ic / 4) y2 n h w Hp H8 Hg F2)
    as (g2 & z2 & Eg2 & Ez2 & _ & _ & _ & Hid2).
  rewrite Ef2 in Eg2. injection Eg2 as <-.
  rewrite Ez2, (Hid2 Fin2). cbn [rbind]. rewrite E4'. reflexivity.
Qed.

(** X13.  DAHead.__init__ returns whenever in_channels is not empty; it only
    reads the random generator; the head it returns has both gates at 0 and
    three classifiers shaped for inter_channels = in_channels[-1] // 4 and
    num_classes. *)
Theorem DAHead_new_builds_fresh_head (nc : nat) (pre : list nat) (ic : nat)
        (w0 : world) :
  exists hd w1,
    DAHead.new nc (Some (pre ++ [ic])) w0 = (Ok hd, w1) /\
    fresh_head hd ic nc /\
    files w1 = files w0 /\ events w1 = events w0.
Proof.
  destruct (DAHead_new_succeeds nc pre ic w0) as (hd & w1 & E).
  exists hd, w1. split; [exact E|].
  split; [exact (DAHead_new_fresh nc pre ic w0 E)|].
  pose proof (quiet_DAHead_new nc (Some (pre ++ [ic])) w0) as Q.
  rewrite E in Q. exact Q.
Qed.

End FreshHead.

Lemma summing_head_fresh : fresh_head summing_head 32 1.
Proof. unfold fresh_head. cbn. repeat split. Qed.

Lemma fresh_head_bypasses_attention_witness :
  DAHead.branches summing_head true feat_32
  = Ok (ones [1; 8; 1; 1], ones [1; 8; 1; 1]).
Proof.
  assert (F : feature_map (@ones real_arith [1; 8; 1; 1]) 1 8 1 1)
    by (apply ones_feature_map; lia).
  destruct (@CAM_attended_ok real_arith (ones [1; 8; 1; 1]) 1 8 1 1 F)
    as (f1 & Ef1 & _).
  destruct (@PAM_attended_ok real_arith (DAHead.pam summing_head) 8
              (ones [1; 8; 1; 1]) 1 1 1 (proj1 summing_head_fresh) (le_n 8) F)
    as (f2 & Ef2 & _).
  exact (@fresh_head_bypasses_attention real_arith stub_blocks real_laws
           summing_head 32 1 true feat_32 (ones [1; 8; 1; 1])
           (ones [1; 8; 1; 1]) f1 f2 (ones [1; 8; 1; 1]) (ones [1; 8; 1; 1])
           1 1 1 summing_head_fresh (le_n 8) eq_refl F Ef1 (real_all_finite f1)
           eq_refl eq_refl F Ef2 (real_all_finite f2) eq_refl).
Defined.

(* ================================================================== *)
(** * Re-initialisation of the head *)

Section KeptByInit.
Context {A : Arith}.

Lemma Head_init_weight_keeps (hd : Head.t) :
  yields (fun hd' =>
            Conv2d.bias (Head.conv hd') = Conv2d.bias (Head.conv hd) /\
            shape (Conv2d.weight (Head.conv hd')) =
            shape (Conv2d.weight (Head.conv hd)))
         (Head.init_weight hd).
Proof.
  unfold Head.init_weight.
  ystep normal_init_shape. intros t Ht.
  apply yields_ret. now split.
Qed.

Lemma PAM_init_weight_keeps (p : PAM.t) :
  yields (fun p' =>
            PAM.gamma p' = PAM.gamma p /\
            forall proj : PAM.t -> Conv2d.t,
              In proj [PAM.query_conv; PAM.key_conv; PAM.value_conv] ->
              Conv2d.bias (proj p') = Conv2d.bias (proj p) /\
              shape (Conv2d.weight (proj p')) = shape (Conv2d.weight (proj p)))
         (PAM.init_weight p).
Proof.
  unfold PAM.init_weight.
  ystep normal_init_shape. intros q Hq.
  ystep normal_init_shape. intros k Hk.
  ystep normal_init_shape. intros v Hv.
  apply yields_ret. split; [reflexivity|].
  intros proj [<- | [<- | [<- | []]]]; now split.
Qed.

End KeptByInit.

Section Reinitialisation.
Context {A : Arith} {B : Blocks}.

Lemma DAHead_init_weight_keeps (hd : DAHead.t) :
  yields (same_up_to_conv_weights hd) (DAHead.init_weight hd).
Proof.
  unfold DAHead.init_weight.
  ystep yields_any. intros cc _.
  ystep yields_any. intros pc _.
  ystep PAM_init_weight_keeps. intros p (Hg & Hp).
  ystep yields_any. intros c1 _.
  ystep yields_any. intros c2 _.
  ystep Head_init_weight_keeps. intros ap Hap.
  ystep Head_init_weight_keeps. intros ac Hac.
  ystep Head_init_weight_keeps. intros cl Hcl.
  apply yields_ret. unfold same_up_to_conv_weights.
  cbn [DAHead.pam DAHead.cam].
  split; [exact Hg|]. split; [reflexivity|]. split; [exact Hp|].
  intros proj [<- | [<- | [<- | []]]]; assumption.
Qed.

(** X14.  DAHead.init_weight always returns, reads only the random
    generator, and redraws nothing but convolution weights: the two gates,
    every bias and the shape of every weight are left as they were. *)
Theorem DAHead_init_weight_keeps_gates (hd : DAHead.t) (w0 : world) :
  exists hd' w1,
    DAHead.init_weight hd w0 = (Ok hd', w1) /\
    same_up_to_conv_weights hd hd' /\
    files w1 = files w0 /\ events w1 = events w0.
Proof.
  destruct (succeeds_DAHead_init_weight hd w0) as (hd' & w1 & E).
  exists hd', w1. split; [exact E|].
  split; [exact (DAHead_init_weight_keeps hd w0 E)|].
  pose proof (quiet_DAHead_init_weight hd w0) as Q.
  rewrite E in Q. exact Q.
Qed.

End Reinitialisation.

(* ================================================================== *)
(** * Randomness of the forward pass of the head *)

Lemma Head_forward_eval_pair {A : Arith} (hd : Head.t) (x : tensor) (w : world) :
  Head.forward hd false x w = (fst (Head.forward hd false x empty_world), w).
Proof.
  destruct (Head_forward_eval hd x w empty_world) as [Hs Hf].
  rewrite <- Hf.
  rewrite (surjective_pairing (Head.forward hd false x w)) at 1.
  now rewrite Hs.
Qed.

Lemma advance_advance (a b : nat) (g : generator) :
  advance a (advance b g) = advance (b + a) g.
Proof. unfold advance. cbn. f_equal. lia. Qed.

Section HeadRandomness.
Context {A : Arith} {B : Blocks}.

(** X15.  In evaluation mode the forward pass of the head is deterministic:
    it leaves the world, and so the random generator, as it found it, and its
    result does not depend on the world. *)
Theorem DAHead_forward_eval_deterministic
        (hd : DAHead.t) (fl : list tensor) (w w' : world) :
  snd (DAHead.forward hd false fl w) = w /\
  fst (DAHead.forward hd false fl w) = fst (DAHead.forward hd false fl w').
Proof.
  unfold DAHead.forward, bind, lift.
  destruct (py_index fl (-1)) as [t | e]; [|now split].
  destruct (DAHead.branches hd false t) as [[cf pf] | e]; [|now split].
  cbn [fst snd]. unfold DAHead.heads, bind, lift, ret.
  destruct (T.add pf cf) as [fs | e]; [|now split].
  rewrite (Head_forward_eval_pair _ cf w), (Head_forward_eval_pair _ cf w').
  destruct (fst (Head.forward (DAHead.aux_head_cam hd) false cf empty_world));
    [|now split].
  rewrite (Head_forward_eval_pair _ pf w), (Head_forward_eval_pair _ pf w').
  destruct (fst (Head.forward (DAHead.aux_head_cam hd) false pf empty_world));
    [|now split].
  rewrite (Head_forward_eval_pair _ fs w), (Head_forward_eval_pair _ fs w').
  destruct (fst (Head.forward (DAHead.cls_head hd) false fs empty_world));
    now split.
Qed.

(** X16.  In training mode a successful forward pass draws exactly three
    dropout masks of N * C bits, (N, C, H, W) being the shape of the refined
    features, in the order of the source: first for the channel-auxiliary
    logit, then for the position-auxiliary logit, last for the main logit.
    Each logit is the head's convolution of its input with the channels of
    its mask dropped, and the generator ends 3 * N * C draws further. *)
Theorem DAHead_forward_training_draws
        (hd : DAHead.t) (pre : list tensor) (t cf pf : tensor)
        (n c h w : nat) (w0 w3 : world) (out : list tensor) :
  DAHead.branches hd true t = Ok (cf, pf) ->
  shape cf = [n; c; h; w] -> shape pf = [n; c; h; w] ->
  DAHead.forward hd true (pre ++ [t]) w0 = (Ok out, w3) ->
  exists feats_sum logit cam_logit pam_logit,
    T.add pf cf = Ok feats_sum /\
    Conv2d.forward (Head.conv (DAHead.aux_head_cam hd))
      (drop_channels (1 / 10) (dropout_mask (gen w0) (n * c)) cf h w)
      = Ok cam_logit /\
    Conv2d.forward (Head.conv (DAHead.aux_head_cam hd))
      (drop_channels (1 / 10)
         (dropout_mask (advance (n * c) (gen w0)) (n * c)) pf h w)
      = Ok pam_logit /\
    Conv2d.forward (Head.conv (DAHead.cls_head hd))
      (drop_channels (1 / 10)
         (dropout_mask (advance (2 * (n * c)) (gen w0)) (n * c)) feats_sum h w)
      = Ok logit /\
    out = [logit; cam_logit; pam_logit] /\
    gen w3 = advance (3 * (n * c)) (gen w0).
Proof.
  intros Eb Hcf Hpf E.
  rewrite (@forward_is_branches_then_heads A B hd true pre t cf pf w0 Eb) in E.
  destruct (@heads_inv A B hd true cf pf w0 w3 out E)
    as (fs & cl & pl & lg & w1 & w2 & Ea & Ec & Ep & El & ->).
  assert (Hfs : shape fs = [n; c; h; w]).
  { rewrite (@add_same_shape A pf cf [n; c; h; w] Hpf Hcf) in Ea.
    now injection Ea as <-. }
  rewrite (@Head_forward_train A _ cf n c h w w0 Hcf) in Ec.
  injection Ec as Ec <-.
  rewrite (@Head_forward_train A _ pf n c h w _ Hpf) in Ep. cbn [gen files events] in Ep.
  injection Ep as Ep <-.
  rewrite (@Head_forward_train A _ fs n c h w _ Hfs) in El. cbn [gen files events] in El.
  injection El as El <-.
  rewrite advance_advance in El.
  replace (n * c + n * c) with (2 * (n * c)) in El by lia.
  exists fs, lg, cl, pl. cbn [gen files events].
  repeat (split; [assumption || reflexivity|]).
  rewrite !advance_advance. f_equal. lia.
Qed.

End HeadRandomness.

Lemma training_forward_sample :
  exists logit cam_logit pam_logit w3,
    @DAHead.forward real_arith stub_blocks summing_head true ([feat_16] ++ [feat_32])
      (mkWorld keep_8_then_drop (fun _ => false) [])
    = (Ok [logit; cam_logit; pam_logit], w3).
Proof.
  rewrite (@forward_is_branches_then_heads real_arith stub_blocks summing_head true
             [feat_16] feat_32 _ _ _ (summing_head_branches true)).
  do 4 eexists. reflexivity.
Qed.

Lemma DAHead_forward_training_draws_witness :
  exists (feats_sum logit cam_logit pam_logit : @tensor real_arith) w3,
    DAHead.forward summing_head true [feat_16; feat_32]
      (mkWorld keep_8_then_drop (fun _ => false) [])
    = (Ok [logit; cam_logit; pam_logit], w3) /\
    T.add (ones [1; 8; 1; 1]) (ones [1; 8; 1; 1]) = Ok feats_sum /\
    gen w3 = advance (3 * (1 * 8)) keep_8_then_drop.
Proof.
  destruct training_forward_sample as (lg & cl & pl & w3 & E).
  destruct (@DAHead_forward_training_draws real_arith stub_blocks summing_head [feat_16]
              feat_32 (ones [1; 8; 1; 1]) (ones [1; 8; 1; 1]) 1 8 1 1
              (mkWorld keep_8_then_drop (fun _ => false) []) w3
              [lg; cl; pl] (summing_head_branches true) eq_refl eq_refl E)
    as (fs & lg' & cl' & pl' & Ea & _ & _ & _ & _ & Eg).
  exists fs, lg, cl, pl, w3. repeat split; assumption.
Defined.

(* ================================================================== *)
(** * Further properties of the forward pass of the network *)

Lemma rmap_length {A B} (f : A -> result B) (l : list A) (bs : list B) :
  rmap f l = Ok bs -> length bs = length l.
Proof.
  revert bs. induction l as [|a l IH]; intros bs E; cbn in E.
  - now injection E as <-.
  - destruct (f a); cbn in E; [|discriminate].
    destruct (rmap f l) as [bs' |]; cbn in E; [|discriminate].
    injection E as <-. cbn. f_equal. now apply IH.
Qed.

Lemma rmap_snoc {A B} (f : A -> result B) (l : list A) (a : A) (bs : list B) :
  rmap f l = Ok bs ->
  rmap f (l ++ [a]) = (b <~ f a ;; Ok (bs ++ [b]))%result.
Proof.
  revert bs. induction l as [|x l IH]; intros bs El; cbn in *.
  - injection El as <-. now destruct (f a).
  - destruct (f x) as [y | e]; cbn in *; [|discriminate].
    destruct (rmap f l) as [ys | e]; cbn in *; [|discriminate].
    injection El as <-. rewrite (IH ys eq_refl). now destruct (f a).
Qed.

Section NetworkForward.
Context {A : Arith} {B : Blocks}.

(** X17.  Whenever DANet.forward returns, it returns exactly three tensors,
    whatever the backbone, the blocks and the configured indices are. *)
Theorem DANet_forward_returns_three
        (self : DANet.t) (tr : bool) (x : tensor) (w0 w1 : world)
        (out : list tensor) :
  DANet.forward self tr x w0 = (Ok out, w1) -> length out = 3.
Proof.
  unfold DANet.forward. intros E.
  apply bind_inv in E. destruct E as (feats & wa & _ & E).
  apply bind_inv in E. destruct E as (sel & wb & _ & E).
  apply bind_inv in E. destruct E as (preds & wc & Eh & E).
  unfold lift in E. injection E as E _.
  apply rmap_length in E. rewrite E.
  unfold DAHead.forward in Eh.
  apply bind_inv in Eh. destruct Eh as (t & wd & _ & Eh).
  apply bind_inv in Eh. destruct Eh as (fs & we & _ & Eh).
  destruct (@heads_inv A B _ _ _ _ _ _ _ Eh)
    as (s & cl & pl & lg & w2 & w3 & _ & _ & _ & _ & ->).
  reflexivity.
Qed.

(** X18.  DANet.forward consumes only the feature map at the last configured
    index: two index sequences that are valid for the backbone's output and
    end in the same index give the same outcome. *)
Theorem DANet_forward_uses_last_index
        (bb : backbone) (hd : DAHead.t) (tr : bool) (x : tensor)
        (w0 w1 : world) (feats : list tensor) (idx1 idx2 : list Z)
        (s1 s2 : list tensor) (i : Z) :
  with_gen (backbone_forward bb tr x) w0 = (Ok feats, w1) ->
  rmap (py_index feats) idx1 = Ok s1 ->
  rmap (py_index feats) idx2 = Ok s2 ->
  DANet.forward (DANet.mk bb (Some (idx1 ++ [i])) hd) tr x w0 =
  DANet.forward (DANet.mk bb (Some (idx2 ++ [i])) hd) tr x w0.
Proof.
  intros Ebb E1' E2'. unfold DANet.forward.
  cbn [DANet.net_backbone DANet.backbone_indices DANet.head].
  rewrite !(@bind_ok _ _ _ _ _ _ _ Ebb). unfold DANet.select.
  unfold bind at 1 3, lift at 1 3.
  rewrite (rmap_snoc _ _ i E1'), (rmap_snoc _ _ i E2').
  destruct (py_index feats i) as [t | e]; cbn [rbind]; [|reflexivity].
  unfold DAHead.forward, bind, lift. now rewrite !py_index_last.
Qed.

(** X19.  If a configured index is outside the list of feature maps the
    backbone returned, DANet.forward raises IndexError right after the
    backbone has run: the head is not applied and draws nothing. *)
Theorem DANet_forward_index_out_of_range
        (self : DANet.t) (tr : bool) (x : tensor) (w0 w1 : world)
        (feats : list tensor) (idx : list Z) (i : Z) :
  with_gen (backbone_forward (DANet.net_backbone self) tr x) w0 = (Ok feats, w1) ->
  DANet.backbone_indices self = Some idx ->
  In i idx ->
  (Z.of_nat (length feats) <= i \/ i < - Z.of_nat (length feats))%Z ->
  DANet.forward self tr x w0 = (Raise IndexError, w1).
Proof.
  intros Ebb Hidx Hin Hi. unfold DANet.forward.
  rewrite (@bind_ok _ _ _ _ _ _ _ Ebb), Hidx. unfold DANet.select, bind, lift.
  now rewrite (rmap_py_index_out_of_range feats idx Hin Hi).
Qed.

End NetworkForward.

Lemma sample_forward_ok :
  exists out w1,
    @DANet.forward real_arith stub_blocks sample_net false image_3 empty_world
    = (Ok out, w1).
Proof. do 2 eexists. reflexivity. Qed.

Lemma DANet_forward_returns_three_witness :
  exists out w1,
    @DANet.forward real_arith stub_blocks sample_net false image_3 empty_world
    = (Ok out, w1) /\ length out = 3.
Proof.
  destruct sample_forward_ok as (out & w1 & E).
  exists out, w1. split; [exact E|].
  exact (@DANet_forward_returns_three real_arith stub_blocks sample_net false image_3
           empty_world w1 out E).
Defined.

Lemma DANet_forward_uses_last_index_witness :
  @DANet.forward real_arith stub_blocks
    (@DANet.mk real_arith stub_blocks [feat_16; feat_32] (Some ([0%Z] ++ [1%Z])) sample_head)
    false image_3 empty_world =
  @DANet.forward real_arith stub_blocks
    (@DANet.mk real_arith stub_blocks [feat_16; feat_32] (Some ([1%Z; 0%Z] ++ [1%Z]))
       sample_head)
    false image_3 empty_world.
Proof.
  exact (@DANet_forward_uses_last_index real_arith stub_blocks [feat_16; feat_32]
           sample_head false image_3 empty_world empty_world
           [feat_16; feat_32] [0%Z] [1%Z; 0%Z] [feat_16] [feat_32; feat_16] 1%Z
           eq_refl eq_refl eq_refl).
Defined.

Lemma DANet_forward_index_out_of_range_witness :
  @DANet.forward real_arith stub_blocks
    (@DANet.mk real_arith stub_blocks [feat_16; feat_32] (Some [0%Z; 2%Z]) sample_head)
    false image_3 empty_world
  = (Raise IndexError, empty_world).
Proof.
  apply (@DANet_forward_index_out_of_range real_arith stub_blocks
           (@DANet.mk real_arith stub_blocks [feat_16; feat_32] (Some [0%Z; 2%Z]) sample_head)
           false image_3 empty_world empty_world [feat_16; feat_32]
           [0%Z; 2%Z] 2%Z eq_refl eq_refl).
  - right. now left.
  - left. cbn. lia.
Defined.

(* ================================================================== *)
(** * Construction of the network with valid indices *)

Section NetworkConstruction.
Context {A : Arith} {B : Blocks} {L : DANet.Loader}.

(** X20.  With pretrained=None and indices that are valid for the backbone's
    feat_channels, DANet.__init__ returns: the network keeps the backbone and
    the indices it was given, and its head is built for the channel count at
    the last index (both gates at 0, classifiers from that count // 4 to
    num_classes).  Only the random generator is read. *)
Theorem DANet_new_builds_head_for_last_index
        (nc : nat) (bb : backbone) (idxs : list Z) (pre : list nat) (ic : nat)
        (w0 : world) :
  rmap (py_index (feat_channels bb)) idxs = Ok (pre ++ [ic]) ->
  exists m w1,
    DANet.new nc bb None (Some idxs) w0 = (Ok m, w1) /\
    DANet.net_backbone m = bb /\
    DANet.backbone_indices m = Some idxs /\
    fresh_head (DANet.head m) ic nc /\
    files w1 = files w0 /\ events w1 = events w0.
Proof.
  intros Esel.
  destruct (DAHead_new_succeeds nc pre ic w0) as (hd & w1 & E).
  exists (DANet.mk bb (Some idxs) hd), w1.
  split.
  - unfold DANet.new, DANet.select.
    rewrite (@bind_ok _ _ _ _ w0 w0 (pre ++ [ic]))
      by (unfold lift; now rewrite Esel).
    rewrite (@bind_ok _ _ _ _ _ _ _ E). reflexivity.
  - split; [reflexivity|]. split; [reflexivity|].
    split; [exact (DAHead_new_fresh nc pre ic w0 E)|].
    pose proof (quiet_DAHead_new nc (Some (pre ++ [ic])) w0) as Q.
    rewrite E in Q. exact Q.
Qed.

End NetworkConstruction.

Lemma DANet_new_builds_head_for_last_index_witness :
  exists m w1,
    @DANet.new real_arith stub_blocks stub_loader 5 [feat_16; feat_32] None
      (Some [0%Z; (-1)%Z]) empty_world = (Ok m, w1) /\
    @fresh_head real_arith stub_blocks (DANet.head m) 32 5.
Proof.
  destruct (@DANet_new_builds_head_for_last_index real_arith stub_blocks stub_loader 5
              [feat_16; feat_32] [0%Z; (-1)%Z] [16] 32 empty_world eq_refl)
    as (m & w1 & E & _ & _ & F & _).
  exists m, w1. split; assumption.
Defined.
(* ================================================================== *)
(** * Heads for fewer than 32 input channels *)

Section SmallHead.
Context {A : Arith} {B : Blocks}.



End SmallHead.


